(** * Audio analysis pipeline of the circular equalizer

  A shallow embedding of [src/utils/audioHelpers.js] and of the recording
  session kept by [src/hooks/useAudioAnalyzer.js].

  Numbers.  Functions that only add, multiply, divide, compare and round
  are written over the exact rationals [Q] (and run under [vm_compute]);
  functions that call [Math.sqrt], [Math.log], [Math.exp], [Math.log10],
  [Math.pow] or use [Math.PI] are written over the reals [R].  This is
  exact arithmetic: the rounding that JavaScript's doubles apply after
  each operation is left out.  Where a property depends on that rounding,
  the expression is evaluated in binary64 instead (module [Binary64]: a
  double is the rational it denotes and every operation rounds to the
  nearest double); such definitions carry the suffix [64].  Byte buffers
  ([Uint8Array], or the plain arrays spread from them) are [list Z]; a
  store into a [Uint8Array] is written out as reduction modulo 256.
  Where the source can produce a non-finite number on the inputs studied
  here (0/0, the [Infinity] seeds of a running minimum) the value has
  type [jsnum]. *)

From Stdlib Require Import ZArith QArith Qround Qabs Qminmax Qpower.
From Stdlib Require Import Reals Qreals String Bool Psatz List.
Import ListNotations.

Set Implicit Arguments.

(** ** JavaScript primitives used by the helpers *)

Module Js.

(** A number that may be non-finite. *)
Inductive jsnum : Type :=
| Fin (q : Q)
| PosInf
| NegInf
| NaN.

(** [a / b] for integral [a] and a length [b >= 0]. *)
Definition div_int (a b : Z) : jsnum :=
  if (b =? 0)%Z then
    if (a =? 0)%Z then NaN else if (0 <? a)%Z then PosInf else NegInf
  else Fin (inject_Z a / inject_Z b).

(** [Math.min] and [Math.max]. *)
Definition min (a b : jsnum) : jsnum :=
  match a, b with
  | NaN, _ | _, NaN => NaN
  | NegInf, _ | _, NegInf => NegInf
  | PosInf, x | x, PosInf => x
  | Fin x, Fin y => Fin (Qmin x y)
  end.

Definition max (a b : jsnum) : jsnum :=
  match a, b with
  | NaN, _ | _, NaN => NaN
  | PosInf, _ | _, PosInf => PosInf
  | NegInf, x | x, NegInf => x
  | Fin x, Fin y => Fin (Qmax x y)
  end.

Definition is_finite (a : jsnum) : bool :=
  match a with Fin _ => true | _ => false end.

(** [Math.round]: the nearest integer, halves going up. *)
Definition round (x : Q) : Z := Qfloor (x + (1 # 2)).

(** Truncation toward zero, as the remainder operator uses it. *)
Definition trunc (x : Q) : Z :=
  if Qle_bool 0 x then Qfloor x else Qceiling x.

(** The remainder operator [x % y]; the result has the sign of [x]. *)
Definition rem (x y : Q) : Q := x - y * inject_Z (trunc (x / y)).

(** The conversion applied by a store into a [Uint8Array]. *)
Definition to_uint8 (z : Z) : Z := (z mod 256)%Z.

(** [Math.log10]. *)
Definition log10 (x : R) : R := (ln x / ln 10)%R.

(** [Math.pow x y] for [0 <= x] and [0 < y].  A negative base with a
    fractional exponent is [NaN] in the source; the callers below reach
    that case only when [maxBarHeight < 0]. *)
Definition pow (x y : R) : R :=
  if Rlt_dec 0 x then Rpower x y else 0%R.

(** A [for (let i = 0; i < n; i++)] loop that builds an array. *)
Definition tabulate (A : Type) (n : nat) (f : nat -> A) : list A :=
  map f (seq 0 n).

(** The operator [a || b] on numbers: [0] and [NaN] are falsy. *)
Definition or (a b : jsnum) : jsnum :=
  match a with
  | NaN => b
  | Fin q => if Qeq_bool q 0 then b else a
  | _ => a
  end.

(** Division of numbers (the sign of a zero is not tracked). *)
Definition div (a b : jsnum) : jsnum :=
  match a, b with
  | NaN, _ | _, NaN => NaN
  | Fin x, Fin y =>
      if Qeq_bool y 0 then
        if Qeq_bool x 0 then NaN
        else if Qle_bool 0 x then PosInf else NegInf
      else Fin (x / y)
  | Fin _, _ => Fin 0
  | PosInf, Fin y => if Qle_bool 0 y then PosInf else NegInf
  | NegInf, Fin y => if Qle_bool 0 y then NegInf else PosInf
  | _, _ => NaN
  end.

(** The comparison [a > t]. *)
Definition gt (a : jsnum) (t : Q) : bool :=
  match a with
  | Fin x => negb (Qle_bool x t)
  | PosInf => true
  | _ => false
  end.

(** [Math.round] on a number that may be non-finite. *)
Definition round_num (a : jsnum) : jsnum :=
  match a with
  | Fin x => Fin (inject_Z (round x))
  | _ => a
  end.

End Js.

(** ** Binary64 arithmetic

  A finite double is the rational it denotes.  An operation computes the
  exact result and rounds it to the nearest double, ties going to the
  even significand: 53 bits of significand, least exponent -1074.
  Overflow to [Infinity] is left out: no result below comes near
  2^1024. *)

Module Binary64.

(** The nearest integer, ties going to the even one. *)
Definition nearest_even (x : Q) : Z :=
  let f := Qfloor x in
  match (x - inject_Z f ?= 1 # 2)%Q with
  | Lt => f
  | Gt => (f + 1)%Z
  | Eq => if Z.even f then f else (f + 1)%Z
  end.

(** The exponent of the last place of the doubles around [x]:
    [floor (log2 |x|) - 52], and -1074 throughout the subnormal range
    ([Z.log2] of [floor (|x| * 2^1074)] is [floor (log2 |x|) + 1074] from
    the least subnormal on). *)
Definition ulp_exp (x : Q) : Z :=
  Z.max (Z.log2 (Qfloor (Qabs x * 2 ^ 1074)) - 1126) (-1074).

(** The double nearest to [x]. *)
Definition rnd (x : Q) : Q :=
  let u := 2 ^ ulp_exp x in
  inject_Z (nearest_even (x / u)) * u.

Definition add (x y : Q) : Q := rnd (x + y).
Definition sub (x y : Q) : Q := rnd (x - y).
Definition mul (x y : Q) : Q := rnd (x * y).
Definition div (x y : Q) : Q := rnd (x / y).

(** A decimal literal of the source. *)
Definition lit (x : Q) : Q := rnd x.

End Binary64.

(** Membership in the byte range of a [Uint8Array]. *)
Definition is_byte (v : Z) : Prop := (0 <= v <= 255)%Z.
Definition byte_buffer (l : list Z) : Prop := Forall is_byte l.

(** ** src/utils/audioHelpers.js *)

Module AudioHelpers.

(** [AUDIO_CONSTANTS] *)
Definition SAMPLE_RATE : Q := 44100.
Definition FFT_SIZE : Q := 2048.
Definition SMOOTHING : Q := 8 # 10.
Definition MIN_DB : Q := -90.
Definition MAX_DB : Q := -10.
Definition FREQUENCY_BANDS : list (string * (Q * Q)) :=
  [ ("SUB_BASS"%string, (20, 60));
    ("BASS"%string, (60, 250));
    ("LOW_MID"%string, (250, 500));
    ("MID"%string, (500, 2000));
    ("HIGH_MID"%string, (2000, 4000));
    ("PRESENCE"%string, (4000, 6000));
    ("BRILLIANCE"%string, (6000, 20000)) ]%Q.

(** The keys [name.toLowerCase().replace('_', '')] of the seven bands. *)
Definition band_key (name : string) : string :=
  if String.eqb name "SUB_BASS" then "subbass"
  else if String.eqb name "BASS" then "bass"
  else if String.eqb name "LOW_MID" then "lowmid"
  else if String.eqb name "MID" then "mid"
  else if String.eqb name "HIGH_MID" then "highmid"
  else if String.eqb name "PRESENCE" then "presence"
  else if String.eqb name "BRILLIANCE" then "brilliance"
  else name.

Definition getFrequencyForIndex (index fftSize sampleRate : Q) : Q :=
  (index * sampleRate) / fftSize.

Definition getIndexForFrequency (frequency fftSize sampleRate : Q) : Z :=
  Qfloor ((frequency * fftSize) / sampleRate).

(** The same two functions in binary64: the product rounds, then the
    quotient. *)
Definition getFrequencyForIndex64 (index fftSize sampleRate : Q) : Q :=
  Binary64.div (Binary64.mul index sampleRate) fftSize.

Definition getIndexForFrequency64 (frequency fftSize sampleRate : Q) : Z :=
  Qfloor (Binary64.div (Binary64.mul frequency fftSize) sampleRate).

(** Sum of a buffer, as the accumulation loops of the source compute it. *)
Definition sum_Z (l : list Z) : Z := fold_left Z.add l 0%Z.

(** The loop [for (i = lowIndex; i <= highIndex && i < length; i++)] of
    one band.  A negative [lowIndex] reads [undefined] and makes the sum
    [NaN]. *)
Definition band_average (frequencyData : list Z) (lowIndex highIndex : Z)
  : Js.jsnum :=
  if ((lowIndex <? 0) && (lowIndex <=? highIndex))%Z then Js.NaN
  else
    let segment :=
      firstn (Z.to_nat (highIndex - lowIndex + 1))
             (skipn (Z.to_nat lowIndex) frequencyData) in
    let sum := sum_Z segment in
    let count := Z.of_nat (length segment) in
    if (0 <? count)%Z then Js.Fin (inject_Z sum / inject_Z count)
    else Js.Fin 0.

Definition calculateBandAverages (frequencyData : list Z)
           (sampleRate fftSize : Q) : list (string * Js.jsnum) :=
  map (fun band : string * (Q * Q) =>
         let '(name, (lowFreq, highFreq)) := band in
         let lowIndex := getIndexForFrequency lowFreq fftSize sampleRate in
         let highIndex := getIndexForFrequency highFreq fftSize sampleRate in
         (band_key name, band_average frequencyData lowIndex highIndex))
      FREQUENCY_BANDS.

(** [(dataArray[i] - 128) / 128] *)
Definition normalized_sample (v : Z) : Q := (inject_Z v - 128) / 128.

Definition sum_squares (dataArray : list Z) : Q :=
  fold_left (fun sum v => sum + normalized_sample v * normalized_sample v)
            dataArray 0.

(** [None] stands for a [null] or [undefined] argument. *)
Definition calculateRMS (dataArray : option (list Z)) : R :=
  match dataArray with
  | None => 0%R
  | Some [] => 0%R
  | Some d =>
      let rms := sqrt (Q2R (sum_squares d / inject_Z (Z.of_nat (length d)))) in
      Rmin rms 1
  end.

Definition calculatePeak (dataArray : option (list Z)) : Q :=
  match dataArray with
  | None => 0
  | Some [] => 0
  | Some d =>
      let peak :=
        fold_left (fun peak v =>
                     let normalized := Qabs (normalized_sample v) in
                     if Qle_bool normalized peak then peak else normalized)
                  d 0 in
      Qmin peak 1
  end.

(** [previousData[i] * smoothingFactor + currentData[i] * (1 - smoothingFactor)]
    in exact arithmetic; [blend64] below is the same expression with the
    rounding of each operation. *)
Definition blend (p c : Z) (smoothingFactor : Q) : Q :=
  inject_Z p * smoothingFactor + inject_Z c * (1 - smoothingFactor).

(** One sample of the smoothing loop.  [previousData[i]] is [undefined]
    past the end of [previousData]; the arithmetic then gives [NaN],
    which a [Uint8Array] stores as 0. *)
Definition smooth_sample (previous : option Z) (current : Z)
           (smoothingFactor : Q) : Z :=
  match previous with
  | Some p =>
      Js.to_uint8 (Js.round (blend p current smoothingFactor))
  | None => 0%Z
  end.

Definition smoothFrequencyData (currentData : list Z)
           (previousData : option (list Z)) (smoothingFactor : Q) : list Z :=
  match previousData with
  | None => currentData
  | Some previous =>
      Js.tabulate (length currentData)
        (fun i => smooth_sample (nth_error previous i)
                                (nth i currentData 0%Z) smoothingFactor)
  end.

(** The blend in binary64, as JavaScript evaluates it: the two products,
    the difference and the sum each round.  [smoothingFactor] is a
    double. *)
Definition blend64 (p c : Z) (smoothingFactor : Q) : Q :=
  Binary64.add (Binary64.mul (inject_Z p) smoothingFactor)
               (Binary64.mul (inject_Z c) (Binary64.sub 1 smoothingFactor)).

Definition smooth_sample64 (previous : option Z) (current : Z)
           (smoothingFactor : Q) : Z :=
  match previous with
  | Some p =>
      Js.to_uint8 (Js.round (blend64 p current smoothingFactor))
  | None => 0%Z
  end.

Definition smoothFrequencyData64 (currentData : list Z)
           (previousData : option (list Z)) (smoothingFactor : Q) : list Z :=
  match previousData with
  | None => currentData
  | Some previous =>
      Js.tabulate (length currentData)
        (fun i => smooth_sample64 (nth_error previous i)
                                  (nth i currentData 0%Z) smoothingFactor)
  end.

Definition normalizeFrequencyData (dataArray : list Z) (maxValue : Q)
  : list Q :=
  map (fun v => inject_Z v / maxValue) dataArray.

(** [dataArray[scaledIndex] || 0].  For a buffer of length 1 the quotient
    of the two logarithms is 0/0, the index is [NaN] and the read gives
    [undefined]. *)
Definition applyLogScaling (dataArray : list Z) : list Z :=
  let len := length dataArray in
  Js.tabulate len
    (fun i =>
       if Nat.eqb len 1 then 0%Z
       else
         let logIndex :=
           (Js.log10 (INR (i + 1)) / Js.log10 (INR len))%R in
         let scaledIndex := Int_part (logIndex * INR len) in
         if (scaledIndex <? 0)%Z then 0%Z
         else nth (Z.to_nat scaledIndex) dataArray 0%Z).

Definition calculateSpectralCentroid (frequencyData : list Z)
           (sampleRate fftSize : Q) : Q :=
  let weightedSum :=
    fold_left Qplus
      (Js.tabulate (length frequencyData)
         (fun i => getFrequencyForIndex (inject_Z (Z.of_nat i)) fftSize sampleRate
                   * inject_Z (nth i frequencyData 0%Z)))
      0 in
  let sum := sum_Z frequencyData in
  if (0 <? sum)%Z then weightedSum / inject_Z sum else 0.

(** [Math.max(frequencyData[i], 0.0001)] *)
Definition floored (v : Z) : R := Rmax (IZR v) (1 / 10000).

Definition calculateSpectralFlatness (frequencyData : list Z) : R :=
  match frequencyData with
  | [] => 0%R
  | _ =>
      let n := INR (length frequencyData) in
      let logSum :=
        fold_left (fun g v => (g + ln (floored v))%R) frequencyData 0%R in
      let valueSum :=
        fold_left (fun a v => (a + floored v)%R) frequencyData 0%R in
      let geometricMean := exp (logSum / n) in
      let arithmeticMean := (valueSum / n)%R in
      if Rlt_dec 0 arithmeticMean then (geometricMean / arithmeticMean)%R
      else 0%R
  end.

(** The scan of [calculateSpectralRolloff]: the first index at which the
    running sum reaches the target, if there is one. *)
Fixpoint rolloff_scan (frequencyData : list Z) (i : nat)
         (cumulativeEnergy : Z) (targetEnergy : Q) : option nat :=
  match frequencyData with
  | [] => None
  | v :: rest =>
      let cumulativeEnergy := (cumulativeEnergy + v)%Z in
      if Qle_bool targetEnergy (inject_Z cumulativeEnergy) then Some i
      else rolloff_scan rest (S i) cumulativeEnergy targetEnergy
  end.

(** The bin at which [calculateSpectralRolloff] stops; [length - 1] when
    the scan falls through. *)
Definition rolloff_index (frequencyData : list Z) (percentile : Q) : Z :=
  let totalEnergy := sum_Z frequencyData in
  let targetEnergy := inject_Z totalEnergy * percentile in
  match rolloff_scan frequencyData 0 0%Z targetEnergy with
  | Some i => Z.of_nat i
  | None => (Z.of_nat (length frequencyData) - 1)%Z
  end.

Definition calculateSpectralRolloff (frequencyData : list Z)
           (sampleRate fftSize percentile : Q) : Q :=
  getFrequencyForIndex (inject_Z (rolloff_index frequencyData percentile))
                       fftSize sampleRate.

(** The values interpolated into the strings and the object that
    [getFrequencyColor] returns. *)
Inductive color : Type :=
| Hsl (hue saturation lightness : Q)
| Rgb (r g b : Z)
| Gradient (start stop : Q * Q * Q).

Definition getFrequencyColor (frequency intensity : Q) (mode : string)
  : color :=
  let baseHue := (frequency / 20000) * 360 in
  let saturation := 70 + (intensity * 30) in
  let lightness := 40 + (intensity * 40) in
  if String.eqb mode "hsl" then Hsl baseHue saturation lightness
  else if String.eqb mode "rgb" then
    let h := baseHue / 360 in
    let s := saturation / 100 in
    let l := lightness / 100 in
    let chroma := (1 - Qabs (2 * l - 1)) * s in
    let x := chroma * (1 - Qabs (Js.rem (h * 6) 2 - 1)) in
    let m := l - chroma / 2 in
    let '(r, g, b) :=
      if Qlt_le_dec h (1 # 6) then (chroma, x, 0)
      else if Qlt_le_dec h (2 # 6) then (x, chroma, 0)
      else if Qlt_le_dec h (3 # 6) then (0, chroma, x)
      else if Qlt_le_dec h (4 # 6) then (0, x, chroma)
      else if Qlt_le_dec h (5 # 6) then (x, 0, chroma)
      else (chroma, 0, x) in
    Rgb (Js.round ((r + m) * 255)) (Js.round ((g + m) * 255))
        (Js.round ((b + m) * 255))
  else if String.eqb mode "gradient" then
    Gradient (baseHue, saturation, lightness)
             (baseHue + 60, saturation, lightness + 20)
  else Hsl baseHue saturation lightness.

(** The object built by [calculateAudioStats]. *)
Record FrequencyStats : Type := {
  freq_min : Js.jsnum;
  freq_max : Js.jsnum;
  freq_avg : Js.jsnum;
  freq_total : Z
}.

Record LevelStats : Type := {
  level_rms : R;
  level_peak : Q;
  level_avg : Q
}.

Record SpectralStats : Type := {
  centroid : Q;
  flatness : R;
  rolloff : Q
}.

Record AudioStats : Type := {
  stats_frequency : FrequencyStats;
  stats_level : LevelStats;
  stats_bands : list (string * Js.jsnum);
  stats_spectral : SpectralStats
}.

Definition calculateAudioStats (frequencyData : list Z)
           (timeDomainData : option (list Z)) : AudioStats :=
  let sum := sum_Z frequencyData in
  let frequency :=
    {| freq_min :=
         fold_left (fun m value => Js.min m (Js.Fin (inject_Z value)))
                   frequencyData Js.PosInf;
       freq_max :=
         fold_left (fun m value => Js.max m (Js.Fin (inject_Z value)))
                   frequencyData Js.NegInf;
       freq_avg := Js.div_int sum (Z.of_nat (length frequencyData));
       freq_total := sum |} in
  let level :=
    match timeDomainData with
    | Some ((_ :: _) as t) =>
        {| level_rms := calculateRMS (Some t);
           level_peak := calculatePeak (Some t);
           level_avg := inject_Z (sum_Z t) / inject_Z (Z.of_nat (length t)) |}
    | _ => {| level_rms := 0%R; level_peak := 0; level_avg := 0 |}
    end in
  {| stats_frequency := frequency;
     stats_level := level;
     stats_bands := calculateBandAverages frequencyData 44100 2048;
     stats_spectral :=
       {| centroid := calculateSpectralCentroid frequencyData 44100 2048;
          flatness := calculateSpectralFlatness frequencyData;
          rolloff :=
            calculateSpectralRolloff frequencyData 44100 2048 (85 # 100) |}
  |}.

(** The [options] argument of [createCircularVisualizationData], with the
    defaults of its destructuring. *)
Record VisualizationOptions : Type := {
  smoothing : Q;
  logScaling : bool;
  minBarHeight : Q;
  maxBarHeight : Q
}.

Definition default_options : VisualizationOptions :=
  {| smoothing := 7 # 10;
     logScaling := true;
     minBarHeight := 5 # 100;
     maxBarHeight := 1 |}.

Record BarDatum : Type := {
  index : nat;
  height : R;
  frequency : Q;
  rawValue : Q;
  angle : R
}.

(** The body of the loop over the bars. *)
Definition make_bar (normalizedData : list Q) (numBars step : nat)
           (options : VisualizationOptions) (i : nat) : BarDatum :=
  let startIdx := (i * step)%nat in
  let endIdx := Nat.min (startIdx + step) (length normalizedData) in
  let segment := firstn (endIdx - startIdx) (skipn startIdx normalizedData) in
  let sum := fold_left Qplus segment 0 in
  let count := length segment in
  let avgValue :=
    if (0 <? count)%nat then sum / inject_Z (Z.of_nat count) else 0 in
  let barHeight := avgValue in
  let barHeight := Qmax barHeight (minBarHeight options) in
  let barHeight := Qmin barHeight (maxBarHeight options) in
  let barHeight := Js.pow (Q2R barHeight) (15 / 10) in
  let approxFrequency :=
    getFrequencyForIndex
      (inject_Z (Z.of_nat startIdx) + inject_Z (Z.of_nat step) / 2)
      2048 44100 in
  {| index := i;
     height := barHeight;
     frequency := approxFrequency;
     rawValue := avgValue;
     angle := (INR i / INR numBars * PI * 2)%R |}.

Definition createCircularVisualizationData (frequencyData : list Z)
           (numBars : nat) (options : VisualizationOptions)
  : list BarDatum :=
  let processedData :=
    if logScaling options then applyLogScaling frequencyData
    else frequencyData in
  let normalizedData :=
    normalizeFrequencyData
      (map (fun v => Js.to_uint8 (Js.round (inject_Z v))) processedData)
      255 in
  let step := (length normalizedData / numBars)%nat in
  Js.tabulate numBars (make_bar normalizedData numBars step options).

(** The object returned by [detectBeat]; the two energies are absent from
    the object returned when there is no previous buffer. *)
Record BeatInfo : Type := {
  isBeat : bool;
  intensity : Js.jsnum;
  energy : option Js.jsnum;
  previousEnergy : option Js.jsnum
}.

(** [previousData[i]] is [undefined] past the end of [previousData], which
    makes the running sum [NaN]. *)
Definition detectBeat (currentData : list Z) (previousData : option (list Z))
           (threshold : Q) : BeatInfo :=
  match previousData with
  | None =>
      {| isBeat := false; intensity := Js.Fin 0;
         energy := None; previousEnergy := None |}
  | Some previous =>
      let energy := sum_Z currentData in
      let previousEnergy :=
        if (length previous <? length currentData)%nat then Js.NaN
        else Js.Fin (inject_Z (sum_Z (firstn (length currentData) previous))) in
      let avgEnergy := Js.div_int energy (Z.of_nat (length currentData)) in
      let avgPrevEnergy :=
        Js.div previousEnergy (Js.Fin (inject_Z (Z.of_nat (length previous)))) in
      let beatIntensity := Js.div avgEnergy (Js.or avgPrevEnergy (Js.Fin 1)) in
      {| isBeat := Js.gt beatIntensity threshold;
         intensity := beatIntensity;
         energy := Some avgEnergy;
         previousEnergy := Some avgPrevEnergy |}
  end.

(** [generateTestData]; [random k] is the result of the [k]-th call of
    [Math.random] (one call per sample). *)
Definition generateTestData (length : nat) (type : string) (frequency : Q)
           (random : nat -> R) : list Z :=
  if String.eqb type "sine" then
    Js.tabulate length
      (fun i =>
         let value :=
           (sin (INR i / INR length * PI * 2 * Q2R frequency / 1000) * (5 / 10)
            + 5 / 10)%R in
         Js.to_uint8 (Int_part (value * 255)))
  else if String.eqb type "random" then
    Js.tabulate length
      (fun i => Js.to_uint8 (Int_part (random i * 255)))
  else if String.eqb type "pulse" then
    let pulseRate := 4%R in
    Js.tabulate length
      (fun i =>
         let pulse :=
           (sin (INR i / INR length * PI * 2 * pulseRate) * (5 / 10) + 5 / 10)%R in
         let noise := (random i * (3 / 10))%R in
         Js.to_uint8 (Int_part ((pulse + noise) * (1275 / 10))))
  else
    Js.tabulate length (fun _ => 128%Z).

(** The globals that [checkAudioCompatibility] looks at, as truth values. *)
Record Browser : Type := {
  has_AudioContext : bool;
  has_webkitAudioContext : bool;
  has_getUserMedia : bool;
  has_CanvasRenderingContext2D : bool;
  has_requestAnimationFrame : bool
}.

Record Compatibility : Type := {
  webAudioAPI : bool;
  getUserMedia : bool;
  canvas : bool;
  requestAnimationFrame : bool;
  allSupported : bool
}.

Definition checkAudioCompatibility (window : Browser) : Compatibility :=
  let webAudioAPI := has_AudioContext window || has_webkitAudioContext window in
  let getUserMedia := has_getUserMedia window in
  let canvas := has_CanvasRenderingContext2D window in
  let requestAnimationFrame := has_requestAnimationFrame window in
  {| webAudioAPI := webAudioAPI;
     getUserMedia := getUserMedia;
     canvas := canvas;
     requestAnimationFrame := requestAnimationFrame;
     allSupported :=
       webAudioAPI && getUserMedia && canvas && requestAnimationFrame |}.

(** A [MediaDeviceInfo]. *)
Record Device : Type := {
  kind : string;
  deviceId : string;
  label : string
}.

Record DeviceInfo : Type := {
  available : bool;
  devices : list Device;
  defaultDevice : option Device;
  count : nat;
  info_error : option string
}.

(** [getAudioDeviceInfo], [enumerated] being what the promise of
    [enumerateDevices] settles with: the devices, or the message of the
    error it rejects with. *)
Definition getAudioDeviceInfo (enumerated : list Device + string)
  : DeviceInfo :=
  match enumerated with
  | inl all =>
      let audioInputs :=
        filter (fun device => String.eqb (kind device) "audioinput") all in
      {| available := (0 <? length audioInputs)%nat;
         devices := audioInputs;
         defaultDevice :=
           find (fun device => String.eqb (deviceId device) "default")
                audioInputs;
         count := length audioInputs;
         info_error := None |}
  | inr message =>
      {| available := false;
         devices := [];
         defaultDevice := None;
         count := 0;
         info_error := Some message |}
  end.

End AudioHelpers.

(** ** src/hooks/useAudioAnalyzer.js

  The hook keeps its buffers in refs and hands the same [Uint8Array]
  objects to the analyser on every frame, so arrays live in a store and
  refs hold locations.  The browser is modelled by its events: the
  outcome of [getUserMedia], a display frame that runs a requested
  callback with the bytes the analyser writes, and the resolution of
  [AudioContext.close()]. *)

Module UseAudioAnalyzer.

Import AudioHelpers.

Definition loc : Type := nat.

Inductive context_state : Type := Running | Closing.

Record state : Type := {
  (* useState *)
  isRecording : bool;
  frequencyData : option (list Z);
  audioLevel : R;
  audioStats : option AudioStats;
  audioContext : bool;
  error : option string;
  compatibility : option bool;
  (* useRef *)
  audioContextRef : option context_state;
  analyserRef : bool;
  sourceRef : bool;
  streamRef : bool;
  animationFrameRef : option nat;
  dataArrayRef : option loc;
  timeArrayRef : option loc;
  previousDataRef : option loc;
  (* the arrays allocated so far and the frames requested from the browser *)
  store : list (list Z);
  pendingFrames : list nat;
  nextFrame : nat
}.

(** The error that the mount effect sets from the result of
    [checkAudioCompatibility]. *)
Definition mountError (compat : Compatibility) : option string :=
  if allSupported compat then None
  else
    let missing :=
      (if webAudioAPI compat then [] else ["Web Audio API"%string])
      ++ (if getUserMedia compat then [] else ["Microphone Access"%string])
      ++ (if canvas compat then [] else ["Canvas"%string]) in
    Some ("Browser incompatible. Missing: " ++ String.concat ", " missing)%string.

(** The hook after its mount effect, [compat] being the result of
    [checkAudioCompatibility].  Of the compatibility object the hook reads
    [allSupported] only, which is what the state keeps. *)
Definition mounted (compat : Compatibility) : state :=
  {| isRecording := false;
     frequencyData := None;
     audioLevel := 0%R;
     audioStats := None;
     audioContext := false;
     error := mountError compat;
     compatibility := Some (allSupported compat);
     audioContextRef := None;
     analyserRef := false;
     sourceRef := false;
     streamRef := false;
     animationFrameRef := None;
     dataArrayRef := None;
     timeArrayRef := None;
     previousDataRef := None;
     store := [];
     pendingFrames := [];
     nextFrame := 1 |}.

(** [analyser.frequencyBinCount] for [fftSize = FFT_SIZE]. *)
Definition frequencyBinCount : nat := Z.to_nat (Qfloor (FFT_SIZE / 2)).

Fixpoint write_at (A : Type) (l : nat) (v : A) (h : list A) {struct h}
  : list A :=
  match h, l with
  | [], _ => []
  | _ :: rest, O => v :: rest
  | x :: rest, S l' => x :: write_at l' v rest
  end.

(** [getByteFrequencyData(array)] and [getByteTimeDomainData(array)] fill
    [array] in place with as many bytes as it holds. *)
Definition fill (array bytes : list Z) : list Z :=
  firstn (length array) bytes ++ skipn (length bytes) array.

Inductive acquisition : Type :=
| Granted
| Rejected (name message : string).

Definition error_message (name message : string) : string :=
  if String.eqb name "NotAllowedError" then
    "Microphone access denied. Please allow microphone permissions."
  else if String.eqb name "NotFoundError" then
    "No microphone found. Please connect a microphone."
  else if String.eqb name "NotReadableError" then
    "Microphone is already in use by another application."
  else if String.eqb name "OverconstrainedError" then
    "Cannot satisfy audio constraints. Try different settings."
  else if String.eqb message "" then "Failed to access microphone"
  else message.

Definition set_error (s : state) (e : option string) : state :=
  {| isRecording := isRecording s;
     frequencyData := frequencyData s;
     audioLevel := audioLevel s;
     audioStats := audioStats s;
     audioContext := audioContext s;
     error := e;
     compatibility := compatibility s;
     audioContextRef := audioContextRef s;
     analyserRef := analyserRef s;
     sourceRef := sourceRef s;
     streamRef := streamRef s;
     animationFrameRef := animationFrameRef s;
     dataArrayRef := dataArrayRef s;
     timeArrayRef := timeArrayRef s;
     previousDataRef := previousDataRef s;
     store := store s;
     pendingFrames := pendingFrames s;
     nextFrame := nextFrame s |}.

(** [startRecording], taken at the point where the promise of
    [getUserMedia] settles with [outcome]; [createAnalyser] and
    [createMediaStreamSource] are taken to succeed. *)
Definition startRecording (outcome : acquisition) (s : state) : state :=
  let s := set_error s None in
  match compatibility s with
  | Some false =>
      set_error s (Some "Browser does not support required audio features"%string)
  | _ =>
      match outcome with
      | Rejected name message => set_error s (Some (error_message name message))
      | Granted =>
          let frequencyArray := length (store s) in
          let timeArray := S (length (store s)) in
          {| isRecording := true;
             frequencyData := frequencyData s;
             audioLevel := audioLevel s;
             audioStats := audioStats s;
             audioContext :=
               match audioContextRef s with
               | Some _ => audioContext s
               | None => true
               end;
             error := None;
             compatibility := compatibility s;
             audioContextRef :=
               match audioContextRef s with
               | Some c => Some c
               | None => Some Running
               end;
             analyserRef := true;
             sourceRef := true;
             streamRef := true;
             animationFrameRef := Some (nextFrame s);
             dataArrayRef := Some frequencyArray;
             timeArrayRef := Some timeArray;
             previousDataRef := previousDataRef s;
             store :=
               store s ++ [repeat 0%Z frequencyBinCount;
                           repeat 0%Z frequencyBinCount];
             pendingFrames := nextFrame s :: pendingFrames s;
             nextFrame := S (nextFrame s) |}
      end
  end.

(** The body of [analyzeAudio]; [frequencyBytes] and [timeBytes] are what
    the analyser writes during this frame. *)
Definition analyzeAudio (frequencyBytes timeBytes : list Z) (s : state)
  : state :=
  match analyserRef s, dataArrayRef s, timeArrayRef s with
  | true, Some dataArray, Some timeArray =>
      let store1 :=
        write_at dataArray (fill (nth dataArray (store s) []) frequencyBytes)
                 (store s) in
      let store2 :=
        write_at timeArray (fill (nth timeArray store1 []) timeBytes)
                 store1 in
      let '(processedFrequencyData, store3) :=
        match previousDataRef s with
        | Some previousData =>
            (length store2,
             store2 ++ [smoothFrequencyData
                          (nth dataArray store2 [])
                          (Some (nth previousData store2 []))
                          (6 # 10)])
        | None => (dataArray, store2)
        end in
      let level := calculateRMS (Some (nth timeArray store3 [])) in
      let stats :=
        calculateAudioStats (nth processedFrequencyData store3 [])
                            (Some (nth timeArray store3 [])) in
      {| isRecording := isRecording s;
         frequencyData := Some (nth processedFrequencyData store3 []);
         audioLevel := level;
         audioStats := Some stats;
         audioContext := audioContext s;
         error := error s;
         compatibility := compatibility s;
         audioContextRef := audioContextRef s;
         analyserRef := analyserRef s;
         sourceRef := sourceRef s;
         streamRef := streamRef s;
         animationFrameRef := Some (nextFrame s);
         dataArrayRef := dataArrayRef s;
         timeArrayRef := timeArrayRef s;
         previousDataRef := Some processedFrequencyData;
         store := store3;
         pendingFrames := nextFrame s :: pendingFrames s;
         nextFrame := S (nextFrame s) |}
  | _, _, _ => s
  end.

Definition remove_frame (id : nat) (frames : list nat) : list nat :=
  filter (fun f => negb (Nat.eqb f id)) frames.

(** The browser runs the callback requested under [id], unless it was
    cancelled. *)
Definition frame (id : nat) (frequencyBytes timeBytes : list Z) (s : state)
  : state :=
  if existsb (Nat.eqb id) (pendingFrames s) then
    analyzeAudio frequencyBytes timeBytes
      {| isRecording := isRecording s;
         frequencyData := frequencyData s;
         audioLevel := audioLevel s;
         audioStats := audioStats s;
         audioContext := audioContext s;
         error := error s;
         compatibility := compatibility s;
         audioContextRef := audioContextRef s;
         analyserRef := analyserRef s;
         sourceRef := sourceRef s;
         streamRef := streamRef s;
         animationFrameRef := animationFrameRef s;
         dataArrayRef := dataArrayRef s;
         timeArrayRef := timeArrayRef s;
         previousDataRef := previousDataRef s;
         store := store s;
         pendingFrames := remove_frame id (pendingFrames s);
         nextFrame := nextFrame s |}
  else s.

Definition stopRecording (s : state) : state :=
  {| isRecording := false;
     frequencyData := None;
     audioLevel := 0%R;
     audioStats := None;
     audioContext := audioContext s;
     error := error s;
     compatibility := compatibility s;
     audioContextRef :=
       match audioContextRef s with
       | Some _ => Some Closing
       | None => None
       end;
     analyserRef := false;
     sourceRef := false;
     streamRef := false;
     animationFrameRef := None;
     dataArrayRef := None;
     timeArrayRef := None;
     previousDataRef := None;
     store := store s;
     pendingFrames :=
       match animationFrameRef s with
       | Some id => remove_frame id (pendingFrames s)
       | None => pendingFrames s
       end;
     nextFrame := nextFrame s |}.

(** The [then] callback of [audioContextRef.current.close()]. *)
Definition contextClosed (s : state) : state :=
  {| isRecording := isRecording s;
     frequencyData := frequencyData s;
     audioLevel := audioLevel s;
     audioStats := audioStats s;
     audioContext := false;
     error := error s;
     compatibility := compatibility s;
     audioContextRef := None;
     analyserRef := analyserRef s;
     sourceRef := sourceRef s;
     streamRef := streamRef s;
     animationFrameRef := animationFrameRef s;
     dataArrayRef := dataArrayRef s;
     timeArrayRef := timeArrayRef s;
     previousDataRef := previousDataRef s;
     store := store s;
     pendingFrames := pendingFrames s;
     nextFrame := nextFrame s |}.

Inductive event : Type :=
| Start (outcome : acquisition)
| Frame (id : nat) (frequencyBytes timeBytes : list Z)
| Stop
| ContextClosed.

Definition step (s : state) (e : event) : state :=
  match e with
  | Start outcome => startRecording outcome s
  | Frame id f t => frame id f t s
  | Stop => stopRecording s
  | ContextClosed => contextClosed s
  end.

Definition run (s : state) (events : list event) : state :=
  fold_left step events s.

(** [generateTestAudio]; [random] stands for [Math.random] as in
    [generateTestData]. *)
Definition generateTestAudio (type : string) (frequency : Q)
           (random : nat -> R) (s : state) : state :=
  let testData := generateTestData 256 type frequency random in
  {| isRecording := isRecording s;
     frequencyData := Some testData;
     audioLevel := (5 / 10)%R;
     audioStats := Some (calculateAudioStats testData None);
     audioContext := audioContext s;
     error := error s;
     compatibility := compatibility s;
     audioContextRef := audioContextRef s;
     analyserRef := analyserRef s;
     sourceRef := sourceRef s;
     streamRef := streamRef s;
     animationFrameRef := animationFrameRef s;
     dataArrayRef := dataArrayRef s;
     timeArrayRef := timeArrayRef s;
     previousDataRef := previousDataRef s;
     store := store s;
     pendingFrames := pendingFrames s;
     nextFrame := nextFrame s |}.

(** Not recording, nothing published and no analyser held. *)
Definition idle (s : state) : Prop :=
  isRecording s = false
  /\ frequencyData s = None
  /\ audioLevel s = 0%R
  /\ audioStats s = None
  /\ analyserRef s = false.

(** An event other than a granted acquisition. *)
Definition quiet (e : event) : bool :=
  match e with
  | Start Granted => false
  | _ => true
  end.

(** An event that neither starts a session, stops one nor runs a frame:
    the closing of the context and a rejected acquisition. *)
Definition passive (e : event) : bool :=
  match e with
  | ContextClosed | Start (Rejected _ _) => true
  | _ => false
  end.

(** What [checkAudioCompatibility] finds in a browser that has every
    feature it looks for. *)
Definition supported : Compatibility :=
  checkAudioCompatibility
    {| has_AudioContext := true;
       has_webkitAudioContext := false;
       has_getUserMedia := true;
       has_CanvasRenderingContext2D := true;
       has_requestAnimationFrame := true |}.

End UseAudioAnalyzer.

(** ** src/components/AudioControls.js *)

Module AudioControls.

Import AudioHelpers.

Record FrequencyLevels : Type := {
  low : Z;
  mid : Z;
  high : Js.jsnum
}.

(** [calculateFrequencyStats]; [None] stands for a [null] prop. *)
Definition calculateFrequencyStats (frequencyData : option (list Z))
  : option FrequencyLevels :=
  match frequencyData with
  | None => None
  | Some data =>
      let lowFreq := inject_Z (sum_Z (firstn 20 data)) / 20 in
      let midFreq := inject_Z (sum_Z (firstn 80 (skipn 20 data))) / 80 in
      let highFreq :=
        Js.div (Js.Fin (inject_Z (sum_Z (skipn 100 data))))
               (Js.Fin (inject_Z (Z.of_nat (length data) - 100))) in
      Some {| low := Js.round lowFreq;
              mid := Js.round midFreq;
              high := Js.round_num highFreq |}
  end.

End AudioControls.

(** * Properties *)

(** Closed side conditions: comparisons of rational literals and byte
    ranges of literal buffers. *)
Ltac closed_Qle := unfold Qle; simpl; lia.
Ltac closed_bytes := repeat constructor; unfold is_byte; lia.


(** ** Rounding and array primitives *)

Section Primitives.

Lemma round_inject_Z (z : Z) : Js.round (inject_Z z) = z.
Proof.
  unfold Js.round, Qplus, inject_Z; cbn [Qfloor Qnum Qden Pos.mul].
  Z.div_mod_to_equations; lia.
Qed.

Lemma round_le (x y : Q) : x <= y -> (Js.round x <= Js.round y)%Z.
Proof. intros H. unfold Js.round. apply Qfloor_resp_le. lra. Qed.

Lemma round_Qeq (x y : Q) : x == y -> Js.round x = Js.round y.
Proof. intros H. unfold Js.round. apply Qfloor_comp. now rewrite H. Qed.

(** A number within a quarter of an interval of integers rounds into
    it. *)
Lemma round_within (x : Q) (lo hi : Z) :
  inject_Z lo - (1 # 4) <= x -> x <= inject_Z hi + (1 # 4) ->
  (lo <= Js.round x <= hi)%Z.
Proof.
  intros L U. unfold Js.round. split.
  - rewrite <- (Qfloor_Z lo). apply Qfloor_resp_le. lra.
  - apply Z.lt_succ_r. rewrite Zlt_Qlt.
    apply Qle_lt_trans with (x + (1 # 2)); [apply Qfloor_le |].
    unfold Z.succ. rewrite inject_Z_plus. change (inject_Z 1) with 1. lra.
Qed.

Lemma round_step (x y : Q) :
  x <= y + (1 # 4) -> (Js.round x <= Js.round y + 1)%Z.
Proof.
  intros H. unfold Js.round.
  apply Z.lt_succ_r. rewrite Zlt_Qlt.
  apply Qle_lt_trans with (x + (1 # 2)); [apply Qfloor_le |].
  pose proof (Qlt_floor (y + (1 # 2))) as U.
  unfold Z.succ. rewrite !inject_Z_plus in *. change (inject_Z 1) with 1 in *.
  lra.
Qed.

Lemma to_uint8_byte (z : Z) : is_byte z -> Js.to_uint8 z = z.
Proof. unfold is_byte, Js.to_uint8. intros H. apply Z.mod_small. lia. Qed.

Lemma length_tabulate (A : Type) (n : nat) (f : nat -> A) :
  length (Js.tabulate n f) = n.
Proof. unfold Js.tabulate. now rewrite length_map, length_seq. Qed.

Lemma nth_tabulate (A : Type) (n : nat) (f : nat -> A) (i : nat) (d : A) :
  (i < n)%nat -> nth i (Js.tabulate n f) d = f i.
Proof.
  intros H. unfold Js.tabulate.
  rewrite (nth_indep _ d (f 0%nat)) by (now rewrite length_map, length_seq).
  rewrite map_nth, seq_nth; auto.
Qed.

Lemma byte_nth (l : list Z) (i : nat) :
  byte_buffer l -> is_byte (nth i l 0%Z).
Proof.
  intros H. destruct (Nat.lt_ge_cases i (length l)) as [Hi | Hi].
  - unfold byte_buffer in H. rewrite Forall_forall in H.
    apply H, nth_In, Hi.
  - rewrite nth_overflow by exact Hi. unfold is_byte. lia.
Qed.

End Primitives.

(** ** Rounding to the nearest double *)

Section Rounding64.

Local Open Scope Q_scope.

(* Statements about [Binary64.rnd] take their arguments explicitly. *)
Unset Implicit Arguments.

Lemma nearest_even_error (x : Q) :
  Qabs (inject_Z (Binary64.nearest_even x) - x) <= 1 # 2.
Proof.
  unfold Binary64.nearest_even.
  pose proof (Qfloor_le x) as L. pose proof (Qlt_floor x) as U.
  rewrite inject_Z_plus in U. change (inject_Z 1) with 1 in U.
  apply Qabs_Qle_condition.
  destruct (Qcompare_spec (x - inject_Z (Qfloor x)) (1 # 2)) as [E | E | E].
  - destruct (Z.even (Qfloor x)).
    + split; lra.
    + rewrite inject_Z_plus. change (inject_Z 1) with 1. split; lra.
  - split; lra.
  - rewrite inject_Z_plus. change (inject_Z 1) with 1. split; lra.
Qed.

Lemma nearest_even_inject_Z (z : Z) : Binary64.nearest_even (inject_Z z) = z.
Proof.
  unfold Binary64.nearest_even. rewrite Qfloor_Z.
  destruct (Qcompare_spec (inject_Z z - inject_Z z) (1 # 2)) as [E | E | E];
    [lra | reflexivity | lra].
Qed.

Lemma nearest_even_comp (x y : Q) :
  x == y -> Binary64.nearest_even x = Binary64.nearest_even y.
Proof.
  intros H. unfold Binary64.nearest_even.
  rewrite (Qfloor_comp x y H).
  assert (E : (x - inject_Z (Qfloor y) ?= 1 # 2)
              = (y - inject_Z (Qfloor y) ?= 1 # 2))
    by (apply Qcompare_comp; [now rewrite H | reflexivity]).
  now rewrite E.
Qed.

Lemma pow2_pos (e : Z) : 0 < 2 ^ e.
Proof. apply Qpower_0_lt. reflexivity. Qed.

Lemma two_not_zero : ~ 2 == 0.
Proof. intros H. discriminate H. Qed.

Lemma ulp_exp_comp (x y : Q) :
  x == y -> Binary64.ulp_exp x = Binary64.ulp_exp y.
Proof.
  intros H. unfold Binary64.ulp_exp.
  assert (E : Qabs x * 2 ^ 1074 == Qabs y * 2 ^ 1074) by now rewrite H.
  now rewrite (Qfloor_comp _ _ E).
Qed.

(** Rounding does not tell equal rationals apart. *)
Lemma rnd_comp (x y : Q) : x == y -> Binary64.rnd x = Binary64.rnd y.
Proof.
  intros H. unfold Binary64.rnd. rewrite (ulp_exp_comp x y H).
  assert (E : x / 2 ^ Binary64.ulp_exp y == y / 2 ^ Binary64.ulp_exp y)
    by now rewrite H.
  now rewrite (nearest_even_comp _ _ E).
Qed.

Lemma ulp_exp_lower (x : Q) : (-1074 <= Binary64.ulp_exp x)%Z.
Proof. unfold Binary64.ulp_exp. apply Z.le_max_r. Qed.

(** Below [2^(k+1)] the last place is at most [2^(k-52)]. *)
Lemma ulp_exp_upper (x : Q) (k : Z) :
  (-1022 <= k)%Z -> Qabs x < 2 ^ (k + 1) ->
  (Binary64.ulp_exp x <= k - 52)%Z.
Proof.
  intros Hk Hx. unfold Binary64.ulp_exp.
  set (N := Qfloor (Qabs x * 2 ^ 1074)).
  assert (N0 : (0 <= N)%Z).
  { unfold N. rewrite <- (Qfloor_Z 0).
    apply Qfloor_resp_le. change (inject_Z 0) with 0.
    apply Qmult_le_0_compat; [apply Qabs_nonneg | apply Qlt_le_weak, pow2_pos]. }
  assert (NU : (N < 2 ^ (k + 1075))%Z).
  { rewrite Zlt_Qlt.
    apply Qle_lt_trans with (Qabs x * 2 ^ 1074); [apply Qfloor_le |].
    rewrite Zpower_Qpower by lia. change (inject_Z 2) with 2.
    replace (k + 1075)%Z with ((k + 1) + 1074)%Z by lia.
    rewrite Qpower_plus by exact two_not_zero.
    apply Qmult_lt_compat_r; [apply pow2_pos | exact Hx]. }
  apply Z.max_lub; [| lia].
  destruct (Z.eq_dec N 0) as [E | Nz].
  - rewrite E. change (Z.log2 0) with 0%Z. lia.
  - apply Z.log2_lt_pow2 in NU; lia.
Qed.

(** The rounding error is at most half a unit in the last place. *)
Lemma rnd_error (x : Q) (k : Z) :
  (-1022 <= k)%Z -> Qabs x < 2 ^ (k + 1) ->
  Qabs (Binary64.rnd x - x) <= 2 ^ (k - 53).
Proof.
  intros Hk Hx. unfold Binary64.rnd.
  pose proof (ulp_exp_upper x k Hk Hx) as E.
  set (e := Binary64.ulp_exp x) in *.
  set (u := 2 ^ e).
  assert (U0 : 0 < u) by apply pow2_pos.
  assert (Ule : u <= 2 * 2 ^ (k - 53)).
  { apply Qle_trans with (2 ^ (k - 52)).
    - apply Qpower_le_compat_l; [exact E | discriminate].
    - replace (k - 52)%Z with (1 + (k - 53))%Z by lia.
      rewrite Qpower_plus by exact two_not_zero. apply Qle_refl. }
  pose proof (nearest_even_error (x / u)) as H.
  apply Qabs_Qle_condition in H. destruct H as [H1 H2].
  set (n := inject_Z (Binary64.nearest_even (x / u))) in *.
  assert (X : x == (x / u) * u) by (field; lra).
  set (y := x / u) in *.
  assert (A : 0 <= ((1 # 2) - (n - y)) * u) by (apply Qmult_le_0_compat; lra).
  assert (B : 0 <= ((1 # 2) + (n - y)) * u) by (apply Qmult_le_0_compat; lra).
  apply Qabs_Qle_condition. split; lra.
Qed.

Lemma rnd_error_2 (x : Q) :
  Qabs x < 2 -> Qabs (Binary64.rnd x - x) <= 1 # 9007199254740992.
Proof. intros H. apply (rnd_error x 0); [lia | exact H]. Qed.

Lemma rnd_error_256 (x : Q) :
  Qabs x < 256 -> Qabs (Binary64.rnd x - x) <= 1 # 70368744177664.
Proof. intros H. apply (rnd_error x 7); [lia | exact H]. Qed.

Lemma rnd_error_512 (x : Q) :
  Qabs x < 512 -> Qabs (Binary64.rnd x - x) <= 1 # 35184372088832.
Proof. intros H. apply (rnd_error x 8); [lia | exact H]. Qed.

(** A rational with a significand below [2^53] and an exponent from
    -1074 on is a double: rounding returns it. *)
Lemma rnd_exact (m e : Z) :
  (Z.abs m < 2 ^ 53)%Z -> (-1074 <= e)%Z ->
  Binary64.rnd (inject_Z m * 2 ^ e) == inject_Z m * 2 ^ e.
Proof.
  intros Hm He.
  set (x := inject_Z m * 2 ^ e).
  assert (Hx : Qabs x < 2 ^ ((e + 52) + 1)).
  { unfold x. rewrite Qabs_Qmult, (Qabs_pos (2 ^ e))
      by apply Qlt_le_weak, pow2_pos.
    replace (e + 52 + 1)%Z with (53 + e)%Z by lia.
    rewrite Qpower_plus by exact two_not_zero.
    apply Qmult_lt_compat_r; [apply pow2_pos |].
    change (Qabs (inject_Z m)) with (inject_Z (Z.abs m)).
    change (2 ^ 53) with (inject_Z (2 ^ 53)).
    rewrite <- Zlt_Qlt. exact Hm. }
  pose proof (ulp_exp_upper x (e + 52) ltac:(lia) Hx) as U.
  pose proof (ulp_exp_lower x) as L.
  unfold Binary64.rnd.
  set (u := Binary64.ulp_exp x) in *.
  assert (D : 2 ^ e == 2 ^ u * inject_Z (2 ^ (e - u))).
  { rewrite Zpower_Qpower by lia. change (inject_Z 2) with 2.
    rewrite <- Qpower_plus by exact two_not_zero.
    replace (u + (e - u))%Z with e by lia. reflexivity. }
  assert (P : 0 < 2 ^ u) by apply pow2_pos.
  assert (I : x / 2 ^ u == inject_Z (m * 2 ^ (e - u))).
  { unfold x. rewrite D, inject_Z_mult. field. lra. }
  rewrite (nearest_even_comp _ _ I), nearest_even_inject_Z.
  unfold x. rewrite D, inject_Z_mult. ring.
Qed.

End Rounding64.

Set Implicit Arguments.

(** ** Temporal smoothing *)

Section Smoothing.

Import AudioHelpers.

Lemma blend_between (p c : Z) (a : Q) :
  0 <= a -> a <= 1 ->
  inject_Z (Z.min c p) <= blend p c a /\ blend p c a <= inject_Z (Z.max c p).
Proof.
  intros H0 H1. unfold blend.
  destruct (Z.le_ge_cases c p) as [Hcp | Hcp].
  - rewrite Z.min_l, Z.max_r by lia.
    rewrite Zle_Qle in Hcp. split; nra.
  - rewrite Z.min_r, Z.max_l by lia.
    rewrite Zle_Qle in Hcp. split; nra.
Qed.

Lemma blend_increasing (p c : Z) (a1 a2 : Q) :
  (c <= p)%Z -> a1 <= a2 -> blend p c a1 <= blend p c a2.
Proof. intros Hcp Ha. unfold blend. rewrite Zle_Qle in Hcp. nra. Qed.

Lemma blend_decreasing (p c : Z) (a1 a2 : Q) :
  (p <= c)%Z -> a1 <= a2 -> blend p c a2 <= blend p c a1.
Proof. intros Hcp Ha. unfold blend. rewrite Zle_Qle in Hcp. nra. Qed.

Lemma round_blend_between (p c : Z) (a : Q) :
  0 <= a -> a <= 1 ->
  (Z.min c p <= Js.round (blend p c a) <= Z.max c p)%Z.
Proof.
  intros H0 H1. destruct (blend_between p c H0 H1) as [L U].
  apply round_le in L. apply round_le in U.
  rewrite round_inject_Z in L, U. lia.
Qed.

Lemma smooth_sample_bytes (p c : Z) (a : Q) :
  is_byte p -> is_byte c -> 0 <= a -> a <= 1 ->
  smooth_sample (Some p) c a = Js.round (blend p c a).
Proof.
  intros Hp Hc H0 H1. unfold smooth_sample.
  apply to_uint8_byte.
  pose proof (round_blend_between p c H0 H1).
  unfold is_byte in *. lia.
Qed.

Lemma smooth_nth (current previous : list Z) (a : Q) (i : nat) :
  (i < length current)%nat ->
  nth i (smoothFrequencyData current (Some previous) a) 0%Z
  = smooth_sample (nth_error previous i) (nth i current 0%Z) a.
Proof. intros Hi. unfold smoothFrequencyData. now rewrite nth_tabulate. Qed.

Lemma smooth_length (current : list Z) (previous : option (list Z)) (a : Q) :
  length (smoothFrequencyData current previous a) = length current.
Proof.
  destruct previous; simpl; [apply length_tabulate | reflexivity].
Qed.

Lemma smooth_nth_bytes (current previous : list Z) (a : Q) (i : nat) :
  byte_buffer current -> byte_buffer previous ->
  length current = length previous -> (i < length current)%nat ->
  0 <= a -> a <= 1 ->
  nth i (smoothFrequencyData current (Some previous) a) 0%Z
  = Js.round (blend (nth i previous 0%Z) (nth i current 0%Z) a).
Proof.
  intros Hc Hp Hlen Hi H0 H1.
  rewrite smooth_nth by exact Hi.
  rewrite (nth_error_nth' previous 0%Z) by lia.
  apply smooth_sample_bytes; auto using byte_nth.
Qed.

(** A previous buffer that is shorter than the current one is read past
    its end, a longer one is cut: in both cases a buffer is returned. *)
Lemma smoothing_accepts_mismatched_lengths :
  length [30%Z] <> length [10%Z; 20%Z]
  /\ smoothFrequencyData [10; 20]%Z (Some [30%Z]) (6 # 10) = [22; 0]%Z
  /\ length [30%Z; 40%Z] <> length [10%Z]
  /\ smoothFrequencyData [10%Z] (Some [30; 40]%Z) (6 # 10) = [22%Z].
Proof. repeat split; try discriminate; vm_compute; reflexivity. Qed.

(** C2, as the code has it.  A previous buffer whose length differs from
    that of the current buffer is accepted: the result has the length of
    the current buffer; at an index that both buffers have, the sample is
    the rounded blend stored as a byte; at an index past the end of the
    previous buffer the sample is 0; and samples of the previous buffer
    past the end of the current one are not looked at. *)
Theorem smoothing_mismatched_lengths :
  forall (current previous : list Z) (a : Q),
    length previous <> length current ->
    let out := smoothFrequencyData current (Some previous) a in
    length out = length current
    /\ (forall i, (i < length current)%nat -> (i < length previous)%nat ->
          nth i out 0%Z
          = Js.to_uint8
              (Js.round (inject_Z (nth i previous 0%Z) * a
                         + inject_Z (nth i current 0%Z) * (1 - a))))
    /\ (forall i, (length previous <= i)%nat -> (i < length current)%nat ->
          nth i out 0%Z = 0%Z)
    /\ out = smoothFrequencyData current
               (Some (firstn (length current) previous)) a.
Proof.
  intros current previous a _ out. subst out. repeat split.
  - apply smooth_length.
  - intros i Hc Hp. rewrite smooth_nth by exact Hc.
    now rewrite (nth_error_nth' previous 0%Z) by exact Hp.
  - intros i Hp Hc. rewrite smooth_nth by exact Hc.
    apply nth_error_None in Hp. now rewrite Hp.
  - unfold smoothFrequencyData, Js.tabulate. apply map_ext_in.
    intros i Hi. apply in_seq in Hi. f_equal.
    rewrite nth_error_firstn.
    destruct (Nat.ltb_spec i (length current)); [reflexivity | lia].
Qed.

Lemma smoothing_mismatched_lengths_witness :
  length (smoothFrequencyData [10; 20]%Z (Some [30%Z]) (6 # 10))
  = length [10%Z; 20%Z].
Proof.
  refine (proj1 (@smoothing_mismatched_lengths [10; 20]%Z [30%Z] (6 # 10) _)).
  simpl; lia.
Defined.

End Smoothing.

(** ** Temporal smoothing in binary64 *)

Section Smoothing64.

Import AudioHelpers.

Local Open Scope Q_scope.

(* Statements about [Binary64.rnd] take their arguments explicitly. *)
Unset Implicit Arguments.

Lemma Qabs_lt_condition (x y : Q) : - y < x -> x < y -> Qabs x < y.
Proof. intros L U. apply Qabs_case; intros _; lra. Qed.

(** The blend of two bytes computed with four roundings, each within
    half a unit in the last place, stays within [2^-43] of the exact
    blend. *)
Lemma rounded_blend_close (P C a b x y s : Q) :
  0 <= P -> P <= 255 -> 0 <= C -> C <= 255 -> 0 <= a -> a <= 1 ->
  (Qabs (1 - a) < 2 -> Qabs (b - (1 - a)) <= 1 # 9007199254740992) ->
  (Qabs (P * a) < 256 -> Qabs (x - P * a) <= 1 # 70368744177664) ->
  (Qabs (C * b) < 256 -> Qabs (y - C * b) <= 1 # 70368744177664) ->
  (Qabs (x + y) < 512 -> Qabs (s - (x + y)) <= 1 # 35184372088832) ->
  Qabs (s - (P * a + C * (1 - a))) <= 1 # 8796093022208.
Proof.
  intros P0 P1 C0 C1 A0 A1 B X Y S.
  assert (B' : Qabs (b - (1 - a)) <= 1 # 9007199254740992)
    by (apply B, Qabs_lt_condition; lra).
  clear B. apply Qabs_Qle_condition in B'. destruct B' as [B0 B1].
  assert (PA0 : 0 <= P * a) by (apply Qmult_le_0_compat; lra).
  assert (PA1 : 0 <= (255 - P) * a) by (apply Qmult_le_0_compat; lra).
  assert (X' : Qabs (x - P * a) <= 1 # 70368744177664)
    by (apply X, Qabs_lt_condition; lra).
  clear X. apply Qabs_Qle_condition in X'. destruct X' as [X0 X1].
  assert (D0 : 0 <= C * ((1 # 9007199254740992) - (b - (1 - a))))
    by (apply Qmult_le_0_compat; lra).
  assert (D1 : 0 <= C * ((1 # 9007199254740992) + (b - (1 - a))))
    by (apply Qmult_le_0_compat; lra).
  assert (CA0 : 0 <= C * a) by (apply Qmult_le_0_compat; lra).
  assert (CA1 : 0 <= C * (1 - a)) by (apply Qmult_le_0_compat; lra).
  assert (Y' : Qabs (y - C * b) <= 1 # 70368744177664)
    by (apply Y, Qabs_lt_condition; lra).
  clear Y. apply Qabs_Qle_condition in Y'. destruct Y' as [Y0 Y1].
  assert (S' : Qabs (s - (x + y)) <= 1 # 35184372088832)
    by (apply S, Qabs_lt_condition; lra).
  clear S. apply Qabs_Qle_condition in S'. destruct S' as [S0 S1].
  apply Qabs_Qle_condition. split; lra.
Qed.

(** For bytes and a factor in [0, 1], the blend computed in binary64 is
    within [2^-43] of the blend in exact arithmetic. *)
Lemma blend64_close (p c : Z) (a : Q) :
  is_byte p -> is_byte c -> 0 <= a -> a <= 1 ->
  Qabs (blend64 p c a - blend p c a) <= 1 # 8796093022208.
Proof.
  intros [P0 P1] [C0 C1] A0 A1.
  rewrite Zle_Qle in P0, P1, C0, C1.
  unfold blend64, blend, Binary64.add, Binary64.mul, Binary64.sub.
  apply rounded_blend_close
    with (b := Binary64.rnd (1 - a))
         (x := Binary64.rnd (inject_Z p * a))
         (y := Binary64.rnd (inject_Z c * Binary64.rnd (1 - a)));
    try assumption.
  - apply rnd_error_2.
  - apply rnd_error_256.
  - apply rnd_error_256.
  - apply rnd_error_512.
Qed.

Lemma blend64_bounds (p c : Z) (a : Q) :
  is_byte p -> is_byte c -> 0 <= a -> a <= 1 ->
  blend p c a - (1 # 8796093022208) <= blend64 p c a
  /\ blend64 p c a <= blend p c a + (1 # 8796093022208).
Proof.
  intros Hp Hc A0 A1.
  pose proof (blend64_close p c a Hp Hc A0 A1) as H.
  apply Qabs_Qle_condition in H. destruct H as [L U]. split; lra.
Qed.

Lemma round_blend64_between (p c : Z) (a : Q) :
  is_byte p -> is_byte c -> 0 <= a -> a <= 1 ->
  (Z.min c p <= Js.round (blend64 p c a) <= Z.max c p)%Z.
Proof.
  intros Hp Hc A0 A1.
  destruct (blend64_bounds p c a Hp Hc A0 A1) as [L U].
  destruct (@blend_between p c a A0 A1) as [L' U'].
  apply round_within; lra.
Qed.

(** Where the exact blend is an integer, the computed sample is that
    integer. *)
Lemma round_blend64_integer (p c : Z) (a : Q) (n : Z) :
  is_byte p -> is_byte c -> 0 <= a -> a <= 1 ->
  blend p c a == inject_Z n -> Js.round (blend64 p c a) = n.
Proof.
  intros Hp Hc A0 A1 E.
  destruct (blend64_bounds p c a Hp Hc A0 A1) as [L U].
  assert (H : (n <= Js.round (blend64 p c a) <= n)%Z)
    by (apply round_within; lra).
  lia.
Qed.

Lemma smooth_sample64_bytes (p c : Z) (a : Q) :
  is_byte p -> is_byte c -> 0 <= a -> a <= 1 ->
  smooth_sample64 (Some p) c a = Js.round (blend64 p c a).
Proof.
  intros Hp Hc A0 A1. unfold smooth_sample64.
  apply to_uint8_byte.
  pose proof (round_blend64_between p c a Hp Hc A0 A1).
  unfold is_byte in *. lia.
Qed.

Lemma smooth64_nth (current previous : list Z) (a : Q) (i : nat) :
  (i < length current)%nat ->
  nth i (smoothFrequencyData64 current (Some previous) a) 0%Z
  = smooth_sample64 (nth_error previous i) (nth i current 0%Z) a.
Proof. intros Hi. unfold smoothFrequencyData64. now rewrite nth_tabulate. Qed.

Lemma smooth64_length (current : list Z) (previous : option (list Z))
      (a : Q) :
  length (smoothFrequencyData64 current previous a) = length current.
Proof.
  destruct previous; simpl; [apply length_tabulate | reflexivity].
Qed.

Lemma smooth64_nth_bytes (current previous : list Z) (a : Q) (i : nat) :
  byte_buffer current -> byte_buffer previous ->
  length current = length previous -> (i < length current)%nat ->
  0 <= a -> a <= 1 ->
  nth i (smoothFrequencyData64 current (Some previous) a) 0%Z
  = Js.round (blend64 (nth i previous 0%Z) (nth i current 0%Z) a).
Proof.
  intros Hc Hp Hlen Hi H0 H1.
  rewrite smooth64_nth by exact Hi.
  rewrite (nth_error_nth' previous 0%Z) by lia.
  apply smooth_sample64_bytes; auto using byte_nth.
Qed.

(** With current sample 1 and previous sample 3 the exact blend is
    [1 + 2a], below 1.5 for [a < 0.25].  At 0.24999999999999992 the
    difference [1 - a] rounds up and the sum of the two rounded products
    rounds to 1.5, which [Math.round] takes to 2; at the larger factor
    0.24999999999999994 the sum is 1.4999999999999998, which gives 1; at
    0.25 the blend is 1.5 again.  The sample goes 2, 1, 2 along
    increasing factors. *)
Lemma smoothing_is_not_monotone_in_factor :
  0 <= Binary64.lit 0.24999999999999992
  /\ Binary64.lit 0.24999999999999992 < Binary64.lit 0.24999999999999994
  /\ Binary64.lit 0.24999999999999994 < Binary64.lit 0.25
  /\ Binary64.lit 0.25 <= 1
  /\ smoothFrequencyData64 [1%Z] (Some [3%Z])
       (Binary64.lit 0.24999999999999992) = [2%Z]
  /\ smoothFrequencyData64 [1%Z] (Some [3%Z])
       (Binary64.lit 0.24999999999999994) = [1%Z]
  /\ smoothFrequencyData64 [1%Z] (Some [3%Z]) (Binary64.lit 0.25) = [2%Z].
Proof.
  split; [vm_compute; discriminate |].
  split; [vm_compute; reflexivity |].
  split; [vm_compute; reflexivity |].
  split; [vm_compute; discriminate |].
  split; [vm_compute; reflexivity |].
  split; vm_compute; reflexivity.
Qed.

(** C7, as the code has it.  For byte buffers of equal length and every
    index [i], the smoothed sample is
    [round (previous[i] * a + current[i] * (1 - a))] evaluated in
    binary64; it equals [current[i]] at [a = 0] and [previous[i]] at
    [a = 1]; for every [a] in [0, 1] it lies between [current[i]] and
    [previous[i]]; and along increasing factors in [0, 1] it moves
    toward [previous[i]] or steps back by at most 1. *)
Theorem smoothing_between_samples :
  forall (current previous : list Z) (i : nat) (a1 a2 : Q),
    byte_buffer current -> byte_buffer previous ->
    length current = length previous -> (i < length current)%nat ->
    0 <= a1 -> a1 <= a2 -> a2 <= 1 ->
    let out a :=
      nth i (smoothFrequencyData64 current (Some previous) a) 0%Z in
    let c := nth i current 0%Z in
    let p := nth i previous 0%Z in
    out a1 = Js.round (blend64 p c a1)
    /\ out 0 = c
    /\ out 1 = p
    /\ (Z.min c p <= out a1 <= Z.max c p)%Z
    /\ ((c <= p)%Z -> (out a1 <= out a2 + 1)%Z)
    /\ ((p <= c)%Z -> (out a2 <= out a1 + 1)%Z).
Proof.
  intros current previous i a1 a2 Hc Hp Hlen Hi H0 H12 H1 out c p.
  assert (Bc : is_byte c) by (apply byte_nth; exact Hc).
  assert (Bp : is_byte p) by (apply byte_nth; exact Hp).
  assert (E : forall a, 0 <= a -> a <= 1 -> out a = Js.round (blend64 p c a)).
  { intros a Ha0 Ha1. subst out c p. cbv beta.
    apply smooth64_nth_bytes; assumption. }
  assert (Ha1 : a1 <= 1) by lra.
  assert (Ha2 : 0 <= a2) by lra.
  destruct (blend64_bounds p c a1 Bp Bc H0 Ha1) as [L1 U1].
  destruct (blend64_bounds p c a2 Bp Bc Ha2 H1) as [L2 U2].
  split; [apply E; assumption |].
  split; [rewrite E by lra; apply round_blend64_integer;
          [assumption | assumption | lra | lra | unfold blend; ring] |].
  split; [rewrite E by lra; apply round_blend64_integer;
          [assumption | assumption | lra | lra | unfold blend; ring] |].
  split; [rewrite E by assumption; apply round_blend64_between; assumption |].
  split.
  - intros Hcp. rewrite !E by assumption. apply round_step.
    pose proof (@blend_increasing p c a1 a2 Hcp H12). lra.
  - intros Hcp. rewrite !E by assumption. apply round_step.
    pose proof (@blend_decreasing p c a1 a2 Hcp H12). lra.
Qed.

Lemma smoothing_between_samples_witness :
  (Z.min 10 50
   <= nth 0 (smoothFrequencyData64 [10; 200]%Z (Some [50; 100]%Z) (1 # 4)) 0
   <= Z.max 10 50)%Z.
Proof.
  refine (proj1 (proj2 (proj2 (proj2
    (smoothing_between_samples [10; 200]%Z [50; 100]%Z 0%nat
       (1 # 4) (3 # 4) _ _ _ _ _ _ _))))).
  - closed_bytes.
  - closed_bytes.
  - reflexivity.
  - simpl; lia.
  - closed_Qle.
  - closed_Qle.
  - closed_Qle.
Defined.

(** In binary64, smoothing a byte buffer against itself returns it, for
    every factor in [0, 1]. *)
Theorem smoothing_against_itself :
  forall (data : list Z) (a : Q),
    byte_buffer data -> 0 <= a -> a <= 1 ->
    smoothFrequencyData64 data (Some data) a = data.
Proof.
  intros data a Hb A0 A1. apply (nth_ext _ _ 0%Z 0%Z).
  - apply smooth64_length.
  - intros i Hi. rewrite smooth64_length in Hi.
    rewrite smooth64_nth_bytes by (assumption || reflexivity).
    apply round_blend64_integer;
      [apply byte_nth, Hb | apply byte_nth, Hb | assumption | assumption |].
    unfold blend. ring.
Qed.

Lemma smoothing_against_itself_witness :
  smoothFrequencyData64 [3; 250; 17]%Z (Some [3; 250; 17]%Z)
                        (Binary64.lit 0.6)
  = [3; 250; 17]%Z.
Proof.
  apply (smoothing_against_itself [3; 250; 17]%Z (Binary64.lit 0.6)).
  - closed_bytes.
  - vm_compute; discriminate.
  - vm_compute; discriminate.
Defined.

End Smoothing64.

Set Implicit Arguments.

(** ** Spectral rolloff *)

Section Rolloff.

Import AudioHelpers.

Lemma fold_add_shift (l : list Z) (a : Z) :
  fold_left Z.add l a = (a + fold_left Z.add l 0)%Z.
Proof.
  revert a. induction l as [| v l IH]; intros a; simpl.
  - lia.
  - rewrite IH, (IH v). lia.
Qed.

Lemma sum_Z_cons (v : Z) (l : list Z) : sum_Z (v :: l) = (v + sum_Z l)%Z.
Proof. unfold sum_Z. simpl. apply fold_add_shift. Qed.

Lemma sum_Z_nonneg (l : list Z) : byte_buffer l -> (0 <= sum_Z l)%Z.
Proof.
  induction 1 as [| v l Hv _ IH].
  - unfold sum_Z; simpl; lia.
  - rewrite sum_Z_cons. unfold is_byte in Hv. lia.
Qed.

Lemma rolloff_scan_bounds (l : list Z) :
  forall i cum t j,
    rolloff_scan l i cum t = Some j -> (i <= j < i + length l)%nat.
Proof.
  induction l as [| v l IH]; intros i cum t j; simpl.
  - discriminate.
  - destruct (Qle_bool t (inject_Z (cum + v))).
    + intros [= <-]. lia.
    + intros H. apply IH in H. lia.
Qed.

(** Raising the target can only move the stopping index to the right. *)
Lemma rolloff_scan_monotone (l : list Z) :
  forall i cum t1 t2 j2,
    t1 <= t2 ->
    rolloff_scan l i cum t2 = Some j2 ->
    exists j1, rolloff_scan l i cum t1 = Some j1 /\ (j1 <= j2)%nat.
Proof.
  induction l as [| v l IH]; intros i cum t1 t2 j2 Ht; simpl.
  - discriminate.
  - destruct (Qle_bool t2 (inject_Z (cum + v))) eqn:E2.
    + intros [= <-]. apply Qle_bool_iff in E2.
      assert (E1 : Qle_bool t1 (inject_Z (cum + v)) = true)
        by (apply Qle_bool_iff; lra).
      rewrite E1. exists i. split; [reflexivity | lia].
    + intros H. destruct (Qle_bool t1 (inject_Z (cum + v))).
      * exists i. split; [reflexivity |].
        apply rolloff_scan_bounds in H. lia.
      * eapply IH; eassumption.
Qed.

Lemma rolloff_index_monotone (frequencyData : list Z) (p1 p2 : Q) :
  byte_buffer frequencyData -> p1 <= p2 ->
  (rolloff_index frequencyData p1 <= rolloff_index frequencyData p2)%Z.
Proof.
  intros Hb Hp. unfold rolloff_index.
  pose proof (sum_Z_nonneg Hb) as Hs. rewrite Zle_Qle in Hs.
  change (0 <= inject_Z (sum_Z frequencyData)) in Hs.
  assert (Ht : inject_Z (sum_Z frequencyData) * p1
               <= inject_Z (sum_Z frequencyData) * p2) by nra.
  destruct (rolloff_scan frequencyData 0 0 (inject_Z (sum_Z frequencyData) * p2))
    as [j2 |] eqn:E2.
  - destruct (rolloff_scan_monotone _ _ _ Ht E2) as (j1 & E1 & Hj).
    rewrite E1. lia.
  - destruct (rolloff_scan frequencyData 0 0 (inject_Z (sum_Z frequencyData) * p1))
      as [j1 |] eqn:E1.
    + apply rolloff_scan_bounds in E1. lia.
    + lia.
Qed.

Lemma getFrequencyForIndex_monotone (i1 i2 fftSize sampleRate : Q) :
  0 < fftSize -> 0 <= sampleRate -> i1 <= i2 ->
  getFrequencyForIndex i1 fftSize sampleRate
  <= getFrequencyForIndex i2 fftSize sampleRate.
Proof.
  intros Hf Hs Hi. unfold getFrequencyForIndex, Qdiv.
  apply Qmult_le_compat_r.
  - nra.
  - apply Qlt_le_weak, Qinv_lt_0_compat, Hf.
Qed.

(** C8.  With the buffer held fixed, the rolloff frequency does not
    decrease when the percentile grows within [0, 1]. *)
Theorem rolloff_monotone_in_percentile :
  forall (frequencyData : list Z) (sampleRate fftSize p1 p2 : Q),
    byte_buffer frequencyData ->
    0 < sampleRate -> 0 < fftSize ->
    0 <= p1 -> p1 <= p2 -> p2 <= 1 ->
    calculateSpectralRolloff frequencyData sampleRate fftSize p1
    <= calculateSpectralRolloff frequencyData sampleRate fftSize p2.
Proof.
  intros frequencyData sampleRate fftSize p1 p2 Hb Hs Hf _ Hp _.
  unfold calculateSpectralRolloff.
  apply getFrequencyForIndex_monotone; [assumption | lra |].
  rewrite <- Zle_Qle. now apply rolloff_index_monotone.
Qed.

Lemma rolloff_monotone_in_percentile_witness :
  calculateSpectralRolloff [10; 0; 200; 30; 5]%Z 44100 2048 (50 # 100)
  <= calculateSpectralRolloff [10; 0; 200; 30; 5]%Z 44100 2048 (85 # 100).
Proof.
  apply (@rolloff_monotone_in_percentile [10; 0; 200; 30; 5]%Z 44100 2048
           (50 # 100) (85 # 100)).
  - closed_bytes.
  - reflexivity.
  - reflexivity.
  - closed_Qle.
  - closed_Qle.
  - closed_Qle.
Defined.

End Rolloff.

(** ** Frequency to colour *)

Section Colour.

Import AudioHelpers.

(** The hue of the last of 72 bars over 1024 bins is already past 360. *)
Lemma hue_of_last_bar_is_not_below_360 :
  exists hue saturation lightness,
    getFrequencyColor (getFrequencyForIndex (994 + 14 / 2) 2048 44100)
                      (8 # 10) "hsl"
    = Hsl hue saturation lightness
    /\ ~ (0 <= hue /\ hue < 360).
Proof.
  eexists _, _, _. split; [reflexivity |].
  intros [_ H]. vm_compute in H. discriminate.
Qed.

(** C9, as the code has it.  In mode ["hsl"] the three components are
    [frequency / 20000 * 360], [70 + 30 * intensity] and
    [40 + 40 * intensity] for every frequency and intensity; the hue is
    not reduced modulo 360, so it lies in [0, 360) exactly when the
    frequency lies in [0, 20000). *)
Theorem hsl_colour_components :
  forall frequency intensity : Q,
    getFrequencyColor frequency intensity "hsl"
    = Hsl (frequency / 20000 * 360) (70 + intensity * 30)
          (40 + intensity * 40)
    /\ ((0 <= frequency / 20000 * 360 /\ frequency / 20000 * 360 < 360)
        <-> (0 <= frequency /\ frequency < 20000)).
Proof.
  intros frequency intensity. split; [reflexivity |].
  assert (E : frequency / 20000 * 360 == frequency * (360 # 20000))
    by (field; discriminate).
  rewrite E. split; intros [H1 H2]; split; lra.
Qed.

End Colour.

(** ** Level and spectral shape of uniform buffers *)

Section Uniform.

Import AudioHelpers.

Lemma inject_Z_succ (n : nat) :
  inject_Z (Z.of_nat (S n)) == inject_Z (Z.of_nat n) + 1.
Proof. rewrite Nat2Z.inj_succ. unfold Z.succ. now rewrite inject_Z_plus. Qed.

Lemma sum_squares_repeat (v : Z) (n : nat) :
  sum_squares (repeat v n)
  == inject_Z (Z.of_nat n) * (normalized_sample v * normalized_sample v).
Proof.
  unfold sum_squares.
  assert (G : forall a,
             fold_left (fun sum v => sum + normalized_sample v * normalized_sample v)
                       (repeat v n) a
             == a + inject_Z (Z.of_nat n)
                    * (normalized_sample v * normalized_sample v)).
  { induction n as [| n IH]; intros a.
    - simpl. change (inject_Z 0) with 0. ring.
    - cbn [repeat fold_left]. rewrite IH, inject_Z_succ. ring. }
  rewrite G. ring.
Qed.

Lemma rms_all_zero (n : nat) :
  (0 < n)%nat -> calculateRMS (Some (repeat 0%Z n)) = 1%R.
Proof.
  intros Hn. destruct n as [| n]; [lia |].
  unfold calculateRMS. cbn [repeat].
  change (0%Z :: repeat 0%Z n) with (repeat 0%Z (S n)).
  rewrite repeat_length.
  assert (E : sum_squares (repeat 0%Z (S n)) / inject_Z (Z.of_nat (S n)) == 1).
  { rewrite sum_squares_repeat.
    assert (N : ~ inject_Z (Z.of_nat (S n)) == 0).
    { change 0 with (inject_Z 0). rewrite inject_Z_injective. lia. }
    unfold normalized_sample. change (inject_Z 0) with 0.
    field. exact N. }
  rewrite (Qeq_eqR _ _ E).
  replace (Q2R 1) with 1%R by (unfold Q2R; simpl; lra).
  rewrite sqrt_1. apply Rmin_left. lra.
Qed.

Lemma rms_all_128 (n : nat) : calculateRMS (Some (repeat 128%Z n)) = 0%R.
Proof.
  destruct n as [| n]; [reflexivity |].
  unfold calculateRMS. cbn [repeat].
  change (128%Z :: repeat 128%Z n) with (repeat 128%Z (S n)).
  rewrite repeat_length.
  assert (E : sum_squares (repeat 128%Z (S n)) / inject_Z (Z.of_nat (S n)) == 0).
  { rewrite sum_squares_repeat.
    assert (N : ~ inject_Z (Z.of_nat (S n)) == 0).
    { change 0 with (inject_Z 0). rewrite inject_Z_injective. lia. }
    unfold normalized_sample. change (inject_Z 128) with 128.
    field. exact N. }
  rewrite (Qeq_eqR _ _ E).
  replace (Q2R 0) with 0%R by (unfold Q2R; simpl; lra).
  rewrite sqrt_0. apply Rmin_left. lra.
Qed.

Lemma peak_all_zero (n : nat) :
  (0 < n)%nat -> calculatePeak (Some (repeat 0%Z n)) == 1.
Proof.
  intros Hn. destruct n as [| n]; [lia |].
  unfold calculatePeak. cbn [repeat fold_left].
  assert (G : forall m,
             fold_left
               (fun peak v =>
                  if Qle_bool (Qabs (normalized_sample v)) peak then peak
                  else Qabs (normalized_sample v))
               (repeat 0%Z m) (Qabs (normalized_sample 0))
             = Qabs (normalized_sample 0)).
  { induction m as [| m IH]; [reflexivity |].
    cbn [repeat fold_left]. exact IH. }
  change (if Qle_bool (Qabs (normalized_sample 0)) 0 then 0
          else Qabs (normalized_sample 0))
    with (Qabs (normalized_sample 0)).
  rewrite G. vm_compute. reflexivity.
Qed.

Lemma peak_all_128 (n : nat) : calculatePeak (Some (repeat 128%Z n)) == 0.
Proof.
  destruct n as [| n]; [reflexivity |].
  unfold calculatePeak. cbn [repeat].
  change (128%Z :: repeat 128%Z n) with (repeat 128%Z (S n)).
  assert (G : forall m,
             fold_left
               (fun peak v =>
                  if Qle_bool (Qabs (normalized_sample v)) peak then peak
                  else Qabs (normalized_sample v))
               (repeat 128%Z m) 0
             = 0).
  { induction m as [| m IH]; [reflexivity |].
    cbn [repeat fold_left]. exact IH. }
  rewrite G. reflexivity.
Qed.

Lemma centroid_all_zero (n : nat) (sampleRate fftSize : Q) :
  calculateSpectralCentroid (repeat 0%Z n) sampleRate fftSize = 0.
Proof.
  unfold calculateSpectralCentroid.
  assert (E : sum_Z (repeat 0%Z n) = 0%Z).
  { induction n as [| n IH]; [reflexivity |].
    cbn [repeat]. rewrite sum_Z_cons, IH. reflexivity. }
  rewrite E. reflexivity.
Qed.

Lemma floored_positive (v : Z) : (0 < floored v)%R.
Proof.
  unfold floored. eapply Rlt_le_trans; [| apply Rmax_r]. lra.
Qed.

Lemma fold_plus_repeat (h : Z -> R) (v : Z) (n : nat) (a : R) :
  fold_left (fun g x => (g + h x)%R) (repeat v n) a = (a + INR n * h v)%R.
Proof.
  revert a. induction n as [| n IH]; intros a.
  - simpl. ring.
  - cbn [repeat fold_left]. rewrite IH, S_INR. ring.
Qed.

(** A buffer whose samples are all equal has flatness 1, whatever the
    common value is: the floor makes every magnitude positive. *)
Lemma flatness_uniform (v : Z) (n : nat) :
  (0 < n)%nat -> calculateSpectralFlatness (repeat v n) = 1%R.
Proof.
  intros Hn. destruct n as [| n]; [lia |].
  unfold calculateSpectralFlatness. cbn [repeat].
  change (v :: repeat v n) with (repeat v (S n)).
  rewrite repeat_length, !fold_plus_repeat.
  pose proof (floored_positive v) as Hv.
  assert (Hn' : (0 < INR (S n))%R) by (apply lt_0_INR; lia).
  replace ((0 + INR (S n) * ln (floored v)) / INR (S n))%R
    with (ln (floored v)) by (field; lra).
  replace ((0 + INR (S n) * floored v) / INR (S n))%R
    with (floored v) by (field; lra).
  rewrite exp_ln by exact Hv.
  destruct (Rlt_dec 0 (floored v)) as [_ | C]; [| contradiction].
  field. lra.
Qed.

Lemma rolloff_index_all_zero (n : nat) (percentile : Q) :
  (0 < n)%nat -> rolloff_index (repeat 0%Z n) percentile = 0%Z.
Proof.
  intros Hn. destruct n as [| n]; [lia |].
  unfold rolloff_index.
  assert (E : sum_Z (repeat 0%Z (S n)) = 0%Z).
  { clear Hn. induction (S n) as [| m IH]; [reflexivity |].
    cbn [repeat]. rewrite sum_Z_cons, IH. reflexivity. }
  rewrite E. cbn [repeat rolloff_scan].
  assert (T : Qle_bool (inject_Z 0 * percentile) (inject_Z (0 + 0)) = true).
  { apply Qle_bool_iff. change (inject_Z (0 + 0)) with 0.
    change (inject_Z 0) with 0. lra. }
  rewrite T. reflexivity.
Qed.

Lemma rolloff_all_zero (n : nat) (sampleRate fftSize percentile : Q) :
  (0 < n)%nat ->
  calculateSpectralRolloff (repeat 0%Z n) sampleRate fftSize percentile == 0.
Proof.
  intros Hn. unfold calculateSpectralRolloff.
  rewrite rolloff_index_all_zero by exact Hn.
  unfold getFrequencyForIndex. change (inject_Z 0) with 0.
  unfold Qdiv. ring.
Qed.

End Uniform.

(** ** The all-zero buffer of 1024 bins *)

Section AllZero1024.

Import AudioHelpers.

(** On 1024 zero bytes the level functions do not return 0, the flatness
    is not 0 and the rolloff is not the frequency of bin 1023. *)
Lemma all_zero_1024_is_not_all_defaults :
  calculateRMS (Some (repeat 0%Z 1024)) <> 0%R
  /\ ~ calculatePeak (Some (repeat 0%Z 1024)) == 0
  /\ calculateSpectralFlatness (repeat 0%Z 1024) <> 0%R
  /\ ~ calculateSpectralRolloff (repeat 0%Z 1024) 44100 2048 (85 # 100)
       == getFrequencyForIndex 1023 2048 44100.
Proof.
  assert (L : (0 < 1024)%nat) by lia.
  rewrite (rms_all_zero L), (peak_all_zero L), (flatness_uniform 0 L),
    (rolloff_all_zero 44100 2048 (85 # 100) L).
  split; [lra |]. split; [intros H; vm_compute in H; discriminate |].
  split; [lra |]. intros H; vm_compute in H; discriminate.
Qed.

(** C1, as the code has it.  For the buffer of 1024 zero bytes: the level
    functions, which centre bytes at 128, give RMS 1 and peak 1 (it is the
    all-128 buffer that gives 0 and 0); the centroid is 0; the flatness is
    1, every magnitude being floored to the same 0.0001; and the rolloff
    scan stops at bin 0, whose frequency is 0. *)
Theorem all_zero_1024_values :
  calculateRMS (Some (repeat 0%Z 1024)) = 1%R
  /\ calculatePeak (Some (repeat 0%Z 1024)) == 1
  /\ calculateRMS (Some (repeat 128%Z 1024)) = 0%R
  /\ calculatePeak (Some (repeat 128%Z 1024)) == 0
  /\ calculateSpectralCentroid (repeat 0%Z 1024) 44100 2048 = 0
  /\ calculateSpectralFlatness (repeat 0%Z 1024) = 1%R
  /\ rolloff_index (repeat 0%Z 1024) (85 # 100) = 0%Z
  /\ calculateSpectralRolloff (repeat 0%Z 1024) 44100 2048 (85 # 100) == 0.
Proof.
  assert (L : (0 < 1024)%nat) by lia.
  split; [apply rms_all_zero, L |].
  split; [apply peak_all_zero, L |].
  split; [apply rms_all_128 |].
  split; [apply peak_all_128 |].
  split; [apply centroid_all_zero |].
  split; [apply flatness_uniform, L |].
  split; [apply rolloff_index_all_zero, L | apply rolloff_all_zero, L].
Qed.

End AllZero1024.

(** ** Bar dataset *)

Section Bars.

Import AudioHelpers.

Lemma nth_error_tabulate (A : Type) (n : nat) (f : nat -> A) (i : nat) :
  (i < n)%nat -> nth_error (Js.tabulate n f) i = Some (f i).
Proof.
  intros H. unfold Js.tabulate.
  rewrite nth_error_map, nth_error_seq.
  destruct (Nat.ltb_spec i n); [reflexivity | lia].
Qed.

Lemma tabulate_constant (A : Type) (n : nat) (f : nat -> A) (c : A) :
  (forall i, f i = c) -> Js.tabulate n f = repeat c n.
Proof.
  intros H. unfold Js.tabulate. generalize 0%nat.
  induction n as [| n IH]; intros s; simpl; [reflexivity |].
  now rewrite H, IH.
Qed.

Lemma in_tabulate (A : Type) (n : nat) (f : nat -> A) (x : A) :
  In x (Js.tabulate n f) -> exists i, (i < n)%nat /\ x = f i.
Proof.
  unfold Js.tabulate. intros H. apply in_map_iff in H.
  destruct H as (i & E & Hi). apply in_seq in Hi.
  exists i. split; [lia | now symmetry].
Qed.

Lemma applyLogScaling_length (dataArray : list Z) :
  length (applyLogScaling dataArray) = length dataArray.
Proof. unfold applyLogScaling. apply length_tabulate. Qed.

(** The array that the bars are cut from. *)
Lemma normalized_length (frequencyData : list Z) (useLog : bool) :
  length
    (normalizeFrequencyData
       (map (fun v => Js.to_uint8 (Js.round (inject_Z v)))
            (if useLog then applyLogScaling frequencyData else frequencyData))
       255)
  = length frequencyData.
Proof.
  unfold normalizeFrequencyData. rewrite !length_map.
  destruct useLog; [apply applyLogScaling_length | reflexivity].
Qed.

Lemma bars_length (frequencyData : list Z) (numBars : nat)
      (options : VisualizationOptions) :
  length (createCircularVisualizationData frequencyData numBars options)
  = numBars.
Proof. unfold createCircularVisualizationData. apply length_tabulate. Qed.

(** ** The easing curve *)

Lemma pow_three_halves (x : R) :
  (0 <= x)%R -> Js.pow x (15 / 10) = (x * sqrt x)%R.
Proof.
  intros Hx. unfold Js.pow. destruct (Rlt_dec 0 x) as [Hp | Hn].
  - replace (15 / 10)%R with (1 + / 2)%R by lra.
    rewrite Rpower_plus, Rpower_1, Rpower_sqrt by exact Hp. reflexivity.
  - assert (x = 0%R) by lra. subst x. rewrite sqrt_0. ring.
Qed.

Lemma pow_three_halves_monotone (x y : R) :
  (0 <= x)%R -> (x <= y)%R -> (Js.pow x (15 / 10) <= Js.pow y (15 / 10))%R.
Proof.
  intros Hx Hxy. rewrite !pow_three_halves by lra.
  pose proof (sqrt_le_1 x y Hx ltac:(lra) Hxy) as Hs.
  pose proof (sqrt_pos x). nra.
Qed.

(** [0.05 ** 1.5] is about 0.0112. *)
Lemma default_floor_eased :
  (111 / 10000 < Js.pow (Q2R (minBarHeight default_options)) (15 / 10)
   < 113 / 10000)%R.
Proof.
  replace (Q2R (minBarHeight default_options)) with (5 / 100)%R
    by (unfold Q2R; simpl; lra).
  rewrite pow_three_halves by lra.
  assert (L : (2236 / 10000 < sqrt (5 / 100))%R).
  { rewrite <- (sqrt_square (2236 / 10000)) by lra.
    apply sqrt_lt_1; lra. }
  assert (U : (sqrt (5 / 100) < 2237 / 10000)%R).
  { rewrite <- (sqrt_square (2237 / 10000)) at 1 by lra.
    apply sqrt_lt_1; lra. }
  split; lra.
Qed.

(** ** Clamping *)

Lemma clamp_bounds (raw lo hi : Q) :
  lo <= hi -> lo <= Qmin (Qmax raw lo) hi /\ Qmin (Qmax raw lo) hi <= hi.
Proof.
  intros H.
  destruct (Q.max_spec raw lo) as [[C1 E1] | [C1 E1]];
    destruct (Q.min_spec (Qmax raw lo) hi) as [[C2 E2] | [C2 E2]];
    split; lra.
Qed.

Lemma clamp_of_zero (raw lo hi : Q) :
  raw == 0 -> 0 <= lo -> lo <= hi -> Qmin (Qmax raw lo) hi == lo.
Proof.
  intros Hr H0 H.
  destruct (Q.max_spec raw lo) as [[C1 E1] | [C1 E1]];
    destruct (Q.min_spec (Qmax raw lo) hi) as [[C2 E2] | [C2 E2]];
    lra.
Qed.

Lemma Q2R_le (x y : Q) : x <= y -> (Q2R x <= Q2R y)%R.
Proof. apply Qle_Rle. Qed.

Lemma Q2R_nonneg (x : Q) : 0 <= x -> (0 <= Q2R x)%R.
Proof.
  intros H. apply Qle_Rle in H.
  replace (Q2R 0) with 0%R in H by (unfold Q2R; simpl; lra). exact H.
Qed.

Lemma make_bar_height (normalizedData : list Q) (numBars step : nat)
      (options : VisualizationOptions) (i : nat) :
  height (make_bar normalizedData numBars step options i)
  = Js.pow
      (Q2R (Qmin (Qmax (rawValue (make_bar normalizedData numBars step options i))
                       (minBarHeight options))
                 (maxBarHeight options)))
      (15 / 10).
Proof. reflexivity. Qed.

Lemma make_bar_height_bounds (normalizedData : list Q) (numBars step : nat)
      (options : VisualizationOptions) (i : nat) :
  0 <= minBarHeight options -> minBarHeight options <= maxBarHeight options ->
  (Js.pow (Q2R (minBarHeight options)) (15 / 10)
   <= height (make_bar normalizedData numBars step options i)
   <= Js.pow (Q2R (maxBarHeight options)) (15 / 10))%R.
Proof.
  intros H0 H. rewrite make_bar_height.
  destruct (clamp_bounds
              (rawValue (make_bar normalizedData numBars step options i)) H)
    as [L U].
  pose proof (Q2R_nonneg H0).
  split; apply pow_three_halves_monotone; auto using Q2R_le.
  apply Q2R_nonneg. lra.
Qed.

Lemma make_bar_height_floor (normalizedData : list Q) (numBars step : nat)
      (options : VisualizationOptions) (i : nat) :
  rawValue (make_bar normalizedData numBars step options i) == 0 ->
  0 <= minBarHeight options -> minBarHeight options <= maxBarHeight options ->
  height (make_bar normalizedData numBars step options i)
  = Js.pow (Q2R (minBarHeight options)) (15 / 10).
Proof.
  intros Hr H0 H. rewrite make_bar_height.
  now rewrite (Qeq_eqR _ _ (clamp_of_zero Hr H0 H)).
Qed.

(** With [step = 0] every segment is empty. *)
Lemma make_bar_step_zero (normalizedData : list Q) (numBars : nat)
      (options : VisualizationOptions) (i : nat) :
  rawValue (make_bar normalizedData numBars 0 options i) = 0
  /\ frequency (make_bar normalizedData numBars 0 options i) == 0.
Proof.
  unfold make_bar. cbn [rawValue frequency].
  rewrite Nat.mul_0_r. cbn [Nat.add Nat.min Nat.sub firstn length Nat.ltb Nat.leb].
  split; [reflexivity |].
  unfold getFrequencyForIndex. vm_compute. reflexivity.
Qed.

(** ** Bars of an all-zero buffer *)

Lemma in_segment (A : Type) (l : list A) (j k : nat) (x : A) :
  In x (firstn k (skipn j l)) -> In x l.
Proof.
  intros H.
  rewrite <- (firstn_skipn j l). apply in_or_app. right.
  rewrite <- (firstn_skipn k (skipn j l)). apply in_or_app. now left.
Qed.

Lemma fold_Qplus_zero (l : list Q) :
  (forall q, In q l -> q == 0) -> forall a, fold_left Qplus l a == a.
Proof.
  induction l as [| q l IH]; intros H a; simpl; [reflexivity |].
  rewrite IH by (intros; apply H; now right).
  rewrite (H q) by now left. ring.
Qed.

Lemma applyLogScaling_all_zero (n : nat) :
  applyLogScaling (repeat 0%Z n) = repeat 0%Z n.
Proof.
  unfold applyLogScaling. rewrite repeat_length.
  apply tabulate_constant. intros i.
  destruct (Nat.eqb n 1); [reflexivity |].
  destruct (_ <? 0)%Z; [reflexivity | apply nth_repeat].
Qed.

Lemma normalized_all_zero (n : nat) (useLog : bool) :
  normalizeFrequencyData
    (map (fun v => Js.to_uint8 (Js.round (inject_Z v)))
         (if useLog then applyLogScaling (repeat 0%Z n) else repeat 0%Z n))
    255
  = repeat (inject_Z 0 / 255) n.
Proof.
  rewrite applyLogScaling_all_zero. unfold normalizeFrequencyData.
  destruct useLog; rewrite !map_repeat, round_inject_Z; reflexivity.
Qed.

Lemma make_bar_all_zero (n numBars step : nat)
      (options : VisualizationOptions) (i : nat) :
  rawValue (make_bar (repeat (inject_Z 0 / 255) n) numBars step options i) == 0.
Proof.
  unfold make_bar. cbn [rawValue].
  set (segment := firstn _ (skipn _ _)).
  assert (S0 : fold_left Qplus segment 0 == 0).
  { apply fold_Qplus_zero. intros q Hq. apply in_segment in Hq.
    apply repeat_spec in Hq. subst q. reflexivity. }
  destruct (0 <? length segment)%nat; [| reflexivity].
  rewrite S0. unfold Qdiv. ring.
Qed.

(** Silence: every bar of an all-zero buffer, of any length, has raw value
    0 and the eased floor as its height. *)
Lemma bars_all_zero (n numBars : nat) (options : VisualizationOptions) :
  0 <= minBarHeight options -> minBarHeight options <= maxBarHeight options ->
  forall bar,
    In bar (createCircularVisualizationData (repeat 0%Z n) numBars options) ->
    rawValue bar == 0
    /\ height bar = Js.pow (Q2R (minBarHeight options)) (15 / 10).
Proof.
  intros H0 H bar Hb. unfold createCircularVisualizationData in Hb.
  rewrite normalized_all_zero in Hb.
  apply in_tabulate in Hb. destruct Hb as (i & _ & ->).
  split; [apply make_bar_all_zero |].
  apply make_bar_height_floor; auto using make_bar_all_zero.
Qed.

(** ** Bars of a buffer shorter than the bar count *)

(** C10.  When the buffer has fewer samples than there are bars, exactly
    [numBars] bars are returned and, whatever the buffer holds, the step
    is 0 and every bar has raw value 0, frequency 0 and the height
    [minBarHeight ** 1.5] (for options with
    [0 <= minBarHeight <= maxBarHeight]); at the default floor 0.05 that
    height is about 0.0112. *)
Theorem bars_of_short_buffer :
  forall (frequencyData : list Z) (numBars : nat)
         (options : VisualizationOptions),
    (length frequencyData < numBars)%nat ->
    0 <= minBarHeight options -> minBarHeight options <= maxBarHeight options ->
    let bars := createCircularVisualizationData frequencyData numBars options in
    length bars = numBars
    /\ (length frequencyData / numBars = 0)%nat
    /\ (forall bar, In bar bars ->
          rawValue bar = 0
          /\ frequency bar == 0
          /\ height bar = Js.pow (Q2R (minBarHeight options)) (15 / 10))
    /\ (111 / 10000 < Js.pow (Q2R (minBarHeight default_options)) (15 / 10)
        < 113 / 10000)%R.
Proof.
  intros frequencyData numBars options Hlen H0 H bars.
  split; [apply bars_length |].
  split; [apply Nat.div_small, Hlen |].
  split; [| apply default_floor_eased].
  intros bar Hb. subst bars. unfold createCircularVisualizationData in Hb.
  rewrite normalized_length, (Nat.div_small _ _ Hlen) in Hb.
  apply in_tabulate in Hb. destruct Hb as (i & _ & ->).
  match goal with
  | |- context [make_bar ?nd _ _ _ _] =>
      destruct (make_bar_step_zero nd numBars options i) as [R F]
  end.
  split; [exact R |]. split; [exact F |].
  apply make_bar_height_floor; [rewrite R; reflexivity | assumption ..].
Qed.

Lemma bars_of_short_buffer_witness :
  length (createCircularVisualizationData [10; 20; 30]%Z 72 default_options)
  = 72%nat.
Proof.
  refine (proj1 (@bars_of_short_buffer [10; 20; 30]%Z 72 default_options _ _ _)).
  - simpl; lia.
  - closed_Qle.
  - closed_Qle.
Defined.

(** ** Count, heights and angles *)

Lemma bars_nth_error (frequencyData : list Z) (numBars : nat)
      (options : VisualizationOptions) (i : nat) (bar : BarDatum) :
  nth_error (createCircularVisualizationData frequencyData numBars options) i
  = Some bar ->
  (i < numBars)%nat
  /\ exists normalizedData step,
      bar = make_bar normalizedData numBars step options i.
Proof.
  intros H.
  assert (Hi : (i < numBars)%nat).
  { rewrite <- (bars_length frequencyData numBars options).
    apply nth_error_Some. congruence. }
  split; [exact Hi |].
  unfold createCircularVisualizationData in H.
  rewrite nth_error_tabulate in H by exact Hi.
  injection H as <-. eauto.
Qed.

Lemma ratio_increasing (i j n : nat) :
  (i < j)%nat -> (0 < n)%nat -> (INR i / INR n < INR j / INR n)%R.
Proof.
  intros Hij Hn. apply lt_INR in Hij. apply lt_0_INR in Hn.
  unfold Rdiv. apply Rmult_lt_compat_r; [| exact Hij].
  now apply Rinv_0_lt_compat.
Qed.

Lemma ratio_below_one (i n : nat) :
  (i < n)%nat -> (0 <= INR i / INR n < 1)%R.
Proof.
  intros Hin.
  assert (Hn : (0 < INR n)%R) by (apply lt_0_INR; lia).
  pose proof (pos_INR i) as Hi. apply lt_INR in Hin.
  split.
  - apply Rmult_le_pos; [exact Hi | left; now apply Rinv_0_lt_compat].
  - apply (Rmult_lt_reg_r (INR n)); [exact Hn |].
    unfold Rdiv. rewrite Rmult_assoc, Rinv_l by lra. lra.
Qed.

(** On silence (1024 zero bins, 72 bars, default options) the first bar is
    lower than [minBarHeight]. *)
Lemma silent_bar_is_below_floor :
  exists bar,
    nth_error
      (createCircularVisualizationData (repeat 0%Z 1024) 72 default_options) 0
    = Some bar
    /\ ~ (Q2R (minBarHeight default_options) <= height bar
          <= Q2R (maxBarHeight default_options))%R.
Proof.
  assert (B0 : 0 <= minBarHeight default_options) by closed_Qle.
  assert (B1 : minBarHeight default_options <= maxBarHeight default_options)
    by closed_Qle.
  destruct (nth_error
              (createCircularVisualizationData (repeat 0%Z 1024) 72
                                               default_options) 0)
    as [bar |] eqn:E.
  - exists bar. split; [reflexivity |].
    apply nth_error_In in E.
    destruct (bars_all_zero 1024 72 default_options B0 B1 bar E) as [_ Hh].
    rewrite Hh. pose proof default_floor_eased as [_ U].
    intros [L _]. revert L.
    replace (Q2R (minBarHeight default_options)) with (5 / 100)%R in *
      by (unfold Q2R; simpl; lra).
    lra.
  - apply nth_error_None in E. rewrite bars_length in E. lia.
Qed.

(** C3, as the code has it.  For every buffer, bar count [numBars] and
    options with [0 <= minBarHeight <= maxBarHeight]: exactly [numBars]
    bars are returned; the height of a bar is its raw value clamped to
    [minBarHeight, maxBarHeight] and then raised to the power 1.5, so it
    lies in [minBarHeight ** 1.5, maxBarHeight ** 1.5]; the angle of bar
    [i] is [(i / numBars) * 2 * PI], which is at least 0, below [2 * PI]
    and strictly increasing along the sequence. *)
Theorem bars_count_heights_angles :
  forall (frequencyData : list Z) (numBars : nat)
         (options : VisualizationOptions),
    0 <= minBarHeight options -> minBarHeight options <= maxBarHeight options ->
    let bars := createCircularVisualizationData frequencyData numBars options in
    length bars = numBars
    /\ (forall i bar, nth_error bars i = Some bar ->
          index bar = i
          /\ height bar
             = Js.pow
                 (Q2R (Qmin (Qmax (rawValue bar) (minBarHeight options))
                            (maxBarHeight options)))
                 (15 / 10)
          /\ (Js.pow (Q2R (minBarHeight options)) (15 / 10) <= height bar
              <= Js.pow (Q2R (maxBarHeight options)) (15 / 10))%R
          /\ angle bar = (INR i / INR numBars * PI * 2)%R
          /\ (0 <= angle bar < 2 * PI)%R)
    /\ (forall i j bi bj,
          (i < j)%nat -> nth_error bars i = Some bi -> nth_error bars j = Some bj ->
          (angle bi < angle bj)%R).
Proof.
  intros frequencyData numBars options H0 H bars.
  pose proof PI_RGT_0 as Hpi.
  split; [apply bars_length |]. split.
  - intros i bar E. apply bars_nth_error in E.
    destruct E as (Hi & nd & step & ->).
    split; [reflexivity |]. split; [apply make_bar_height |].
    split; [now apply make_bar_height_bounds |].
    split; [reflexivity |]. cbn [angle make_bar].
    destruct (ratio_below_one Hi) as [L U]. split; nra.
  - intros i j bi bj Hij Ei Ej.
    apply bars_nth_error in Ei. destruct Ei as (_ & ndi & stepi & ->).
    apply bars_nth_error in Ej. destruct Ej as (Hj & ndj & stepj & ->).
    cbn [angle make_bar].
    assert (R := @ratio_increasing i j numBars Hij ltac:(lia)). nra.
Qed.

Lemma bars_count_heights_angles_witness :
  length (createCircularVisualizationData [10; 20; 30; 40]%Z 2 default_options)
  = 2%nat.
Proof.
  refine (proj1 (@bars_count_heights_angles [10; 20; 30; 40]%Z 2
                   default_options _ _)).
  - closed_Qle.
  - closed_Qle.
Defined.

End Bars.

(** ** Degenerate buffers: empty and all-zero *)

Section Degenerate.

Import AudioHelpers.

Lemma sum_Z_all_zero (l : list Z) :
  (forall x, In x l -> x = 0%Z) -> sum_Z l = 0%Z.
Proof.
  induction l as [| v l IH]; intros H; [reflexivity |].
  rewrite sum_Z_cons, IH by (intros; apply H; now right).
  rewrite (H v) by now left. reflexivity.
Qed.

Lemma band_average_all_zero (n : nat) (lowIndex highIndex : Z) :
  (0 <= lowIndex)%Z ->
  exists q, band_average (repeat 0%Z n) lowIndex highIndex = Js.Fin q /\ q == 0.
Proof.
  intros Hlo. unfold band_average.
  replace (lowIndex <? 0)%Z with false by (symmetry; apply Z.ltb_ge, Hlo).
  cbn [andb].
  set (segment := firstn _ (skipn _ _)).
  assert (S0 : sum_Z segment = 0%Z).
  { apply sum_Z_all_zero. intros x Hx. apply in_segment in Hx.
    now apply repeat_spec in Hx. }
  rewrite S0. destruct (0 <? Z.of_nat (length segment))%Z.
  - eexists. split; [reflexivity |].
    change (inject_Z 0) with 0. unfold Qdiv. ring.
  - exists 0. split; reflexivity.
Qed.

(** Every band of an all-zero buffer, of any length, averages to 0. *)
Lemma bands_all_zero (n : nat) :
  forall key value,
    In (key, value) (calculateBandAverages (repeat 0%Z n) 44100 2048) ->
    exists q, value = Js.Fin q /\ q == 0.
Proof.
  intros key value H. unfold calculateBandAverages, FREQUENCY_BANDS in H.
  cbn [map] in H.
  repeat (destruct H as [H | H];
          [injection H as _ <-; apply band_average_all_zero;
           vm_compute; discriminate |]).
  destruct H.
Qed.

Lemma frequency_stats_all_zero (n : nat) :
  (0 < n)%nat ->
  let stats := stats_frequency (calculateAudioStats (repeat 0%Z n) None) in
  freq_min stats = Js.Fin 0
  /\ freq_max stats = Js.Fin 0
  /\ freq_total stats = 0%Z
  /\ exists q, freq_avg stats = Js.Fin q /\ q == 0.
Proof.
  intros Hn. destruct n as [| n]; [lia |].
  unfold calculateAudioStats. cbn [stats_frequency freq_min freq_max freq_total freq_avg].
  assert (S0 : sum_Z (repeat 0%Z (S n)) = 0%Z)
    by (apply sum_Z_all_zero; intros x Hx; now apply repeat_spec in Hx).
  rewrite S0, repeat_length.
  split; [| split; [| split; [reflexivity |]]].
  - cbn [repeat fold_left Js.min]. generalize n as m.
    induction m as [| m IH]; [reflexivity | exact IH].
  - cbn [repeat fold_left Js.max]. generalize n as m.
    induction m as [| m IH]; [reflexivity | exact IH].
  - unfold Js.div_int.
    replace (Z.of_nat (S n) =? 0)%Z with false by (symmetry; apply Z.eqb_neq; lia).
    eexists. split; [reflexivity |].
    change (inject_Z 0) with 0. unfold Qdiv. ring.
Qed.

(** The snapshot of an empty buffer holds numbers that are not finite, and
    on an all-zero buffer the rolloff, the flatness and the bar heights
    are not the values the defaults name. *)
Lemma degenerate_values_differ :
  Js.is_finite
    (freq_avg (stats_frequency (calculateAudioStats [] None))) = false
  /\ ~ calculateSpectralRolloff [0; 0; 0; 0]%Z 44100 2048 (85 # 100)
       == getFrequencyForIndex 3 2048 44100
  /\ calculateSpectralFlatness [0; 0; 0; 0]%Z <> 0%R
  /\ (forall bar,
        In bar (createCircularVisualizationData [0; 0; 0; 0]%Z 2 default_options) ->
        (height bar < Q2R (minBarHeight default_options))%R).
Proof.
  split; [reflexivity |].
  split; [intros H; vm_compute in H; discriminate |].
  split.
  - change [0; 0; 0; 0]%Z with (repeat 0%Z 4).
    rewrite flatness_uniform by lia. lra.
  - intros bar Hb. change [0; 0; 0; 0]%Z with (repeat 0%Z 4) in Hb.
    apply bars_all_zero in Hb; [| closed_Qle ..].
    destruct Hb as [_ ->]. pose proof default_floor_eased as [_ U].
    replace (Q2R (minBarHeight default_options)) with (5 / 100)%R in *
      by (unfold Q2R; simpl; lra).
    lra.
Qed.

(** C4, as the code has it.  On the empty buffer and on all-zero buffers
    of any length [n] every analyzer function returns a value: RMS and
    peak of the empty (or missing) buffer are 0; the centroid is 0; the
    flatness is 0 on the empty buffer and 1 on a non-empty all-zero one;
    the rolloff of a non-empty all-zero buffer is the frequency of bin 0,
    that is 0; every band energy is 0; the snapshot of a non-empty
    all-zero buffer has min, max, average and total 0; and every one of
    the [numBars] bars has raw value 0 and height [minBarHeight ** 1.5]
    (for [0 <= minBarHeight <= maxBarHeight]). *)
Theorem degenerate_buffers :
  forall (n numBars : nat) (options : VisualizationOptions),
    0 <= minBarHeight options -> minBarHeight options <= maxBarHeight options ->
    let zeros := repeat 0%Z n in
    (calculateRMS None = 0%R /\ calculateRMS (Some []) = 0%R
     /\ calculatePeak None = 0 /\ calculatePeak (Some []) = 0)
    /\ calculateSpectralCentroid zeros 44100 2048 = 0
    /\ calculateSpectralFlatness [] = 0%R
    /\ ((0 < n)%nat -> calculateSpectralFlatness zeros = 1%R)
    /\ ((0 < n)%nat ->
        calculateSpectralRolloff zeros 44100 2048 (85 # 100) == 0)
    /\ (forall key value,
          In (key, value) (calculateBandAverages zeros 44100 2048) ->
          exists q, value = Js.Fin q /\ q == 0)
    /\ ((0 < n)%nat ->
        let stats := stats_frequency (calculateAudioStats zeros None) in
        freq_min stats = Js.Fin 0 /\ freq_max stats = Js.Fin 0
        /\ freq_total stats = 0%Z
        /\ exists q, freq_avg stats = Js.Fin q /\ q == 0)
    /\ length (createCircularVisualizationData zeros numBars options) = numBars
    /\ (forall bar,
          In bar (createCircularVisualizationData zeros numBars options) ->
          rawValue bar == 0
          /\ height bar = Js.pow (Q2R (minBarHeight options)) (15 / 10)).
Proof.
  intros n numBars options H0 H zeros. subst zeros.
  split; [repeat split |].
  split; [apply centroid_all_zero |].
  split; [reflexivity |].
  split; [apply flatness_uniform |].
  split; [apply rolloff_all_zero |].
  split; [apply bands_all_zero |].
  split; [apply frequency_stats_all_zero |].
  split; [apply bars_length | now apply bars_all_zero].
Qed.

Lemma degenerate_buffers_witness :
  calculateSpectralCentroid (repeat 0%Z 8) 44100 2048 = 0.
Proof.
  refine (proj1 (proj2 (@degenerate_buffers 8 4 default_options _ _))).
  - closed_Qle.
  - closed_Qle.
Defined.

End Degenerate.

(** ** Recording session *)

Section Session.

Import AudioHelpers UseAudioAnalyzer.

Lemma nth_first_new (A : Type) (st : list A) (a b d : A) :
  nth (length st) (st ++ [a; b]) d = a.
Proof. induction st as [| x st IH]; [reflexivity | exact IH]. Qed.

Lemma nth_second_new (A : Type) (st : list A) (a b d : A) :
  nth (S (length st)) (st ++ [a; b]) d = b.
Proof. induction st as [| x st IH]; [reflexivity | exact IH]. Qed.

Lemma write_first_new (A : Type) (st : list A) (a b v : A) :
  write_at (length st) v (st ++ [a; b]) = st ++ [v; b].
Proof.
  induction st as [| x st IH]; [reflexivity |].
  cbn [length app write_at]. now rewrite IH.
Qed.

Lemma write_second_new (A : Type) (st : list A) (a b v : A) :
  write_at (S (length st)) v (st ++ [a; b]) = st ++ [a; v].
Proof.
  induction st as [| x st IH]; [reflexivity |].
  cbn [length app write_at]. now rewrite IH.
Qed.

(** Filling an array with as many bytes as it holds replaces it. *)
Lemma fill_whole (array bytes : list Z) :
  length bytes = length array -> fill array bytes = bytes.
Proof.
  intros H. unfold fill.
  rewrite <- H, firstn_all, H, skipn_all. apply app_nil_r.
Qed.

(** The first frame that runs after a successful start, when no previous
    buffer is held: the captured bytes are published as they are. *)
Lemma first_frame_after_start (s : state) (id : nat)
      (frequencyBytes timeBytes : list Z) :
  compatibility s <> Some false ->
  previousDataRef s = None ->
  length frequencyBytes = frequencyBinCount ->
  length timeBytes = frequencyBinCount ->
  let started := startRecording Granted s in
  In id (pendingFrames started) ->
  let ticked := frame id frequencyBytes timeBytes started in
  frequencyData ticked = Some frequencyBytes
  /\ audioLevel ticked = calculateRMS (Some timeBytes)
  /\ audioStats ticked
     = Some (calculateAudioStats frequencyBytes (Some timeBytes))
  /\ previousDataRef ticked = dataArrayRef ticked.
Proof.
  intros Hc Hp Hf Ht started Hid ticked.
  assert (Z1 : length frequencyBytes = length (repeat 0%Z frequencyBinCount))
    by now rewrite repeat_length.
  assert (Z2 : length timeBytes = length (repeat 0%Z frequencyBinCount))
    by now rewrite repeat_length.
  assert (P : existsb (Nat.eqb id) (pendingFrames started) = true).
  { apply existsb_exists. exists id. split; [exact Hid | apply Nat.eqb_refl]. }
  subst ticked. unfold frame. rewrite P. clear P Hid.
  subst started. unfold startRecording. cbn [set_error compatibility].
  destruct (compatibility s) as [[|] |] eqn:E; try congruence;
    unfold analyzeAudio;
    cbn [analyserRef dataArrayRef timeArrayRef previousDataRef store set_error];
    rewrite Hp, nth_first_new, (fill_whole _ _ Z1), write_first_new,
      nth_second_new, (fill_whole _ _ Z2), write_second_new;
    cbn [frequencyData audioLevel audioStats previousDataRef dataArrayRef];
    rewrite nth_first_new, nth_second_new; repeat split.
Qed.

Lemma start_requests_frame (s : state) :
  compatibility s <> Some false ->
  let started := startRecording Granted s in
  animationFrameRef started = Some (nextFrame s)
  /\ In (nextFrame s) (pendingFrames started)
  /\ previousDataRef started = previousDataRef s.
Proof.
  intros Hc. unfold startRecording. cbn [set_error compatibility].
  destruct (compatibility s) as [[|] |]; try congruence;
    cbn [animationFrameRef pendingFrames previousDataRef set_error];
    (split; [reflexivity | split; [now left | reflexivity]]).
Qed.

Lemma step_compatibility (s : state) (e : event) :
  compatibility (step s e) = compatibility s.
Proof.
  destruct e as [outcome | id f t | |]; cbn [step].
  - unfold startRecording. cbn [set_error compatibility].
    destruct (compatibility s) as [[|] |] eqn:E; destruct outcome;
      cbn [set_error compatibility]; congruence.
  - unfold frame. destruct (existsb _ _); [| reflexivity].
    unfold analyzeAudio. cbn [analyserRef dataArrayRef timeArrayRef previousDataRef].
    destruct (analyserRef s); [| reflexivity].
    destruct (dataArrayRef s); [| reflexivity].
    destruct (timeArrayRef s); [| reflexivity].
    destruct (previousDataRef s); reflexivity.
  - reflexivity.
  - reflexivity.
Qed.

Lemma run_compatibility (events : list event) (s : state) :
  compatibility (run s events) = compatibility s.
Proof.
  revert s. induction events as [| e events IH]; intros s; [reflexivity |].
  cbn [run fold_left]. fold (run (step s e) events).
  now rewrite IH, step_compatibility.
Qed.

Lemma run_app (s : state) (l1 l2 : list event) :
  run s (l1 ++ l2) = run (run s l1) l2.
Proof. unfold run. apply fold_left_app. Qed.

(** Once stopped, the hook stays without analyser and without previous
    buffer until an acquisition is granted. *)
Lemma quiet_step_keeps_reset (s : state) (e : event) :
  quiet e = true ->
  analyserRef s = false -> previousDataRef s = None ->
  analyserRef (step s e) = false /\ previousDataRef (step s e) = None.
Proof.
  intros Hq Ha Hp.
  destruct e as [[| name message] | id f t | |]; cbn [step];
    try discriminate Hq.
  - unfold startRecording. cbn [set_error compatibility].
    destruct (compatibility s) as [[|] |];
      cbn [set_error analyserRef previousDataRef]; now split.
  - unfold frame. destruct (existsb _ _); [| now split].
    unfold analyzeAudio. cbn [analyserRef]. rewrite Ha.
    cbn [analyserRef previousDataRef]. now split.
  - now split.
  - cbn [contextClosed analyserRef previousDataRef]. now split.
Qed.

Lemma quiet_run_keeps_reset (events : list event) :
  forall s,
    forallb quiet events = true ->
    analyserRef s = false -> previousDataRef s = None ->
    analyserRef (run s events) = false
    /\ previousDataRef (run s events) = None.
Proof.
  induction events as [| e events IH]; intros s Hq Ha Hp; [now split |].
  cbn [forallb] in Hq. apply andb_prop in Hq. destruct Hq as [Hq1 Hq2].
  cbn [run fold_left]. fold (run (step s e) events).
  destruct (@quiet_step_keeps_reset s e Hq1 Ha Hp) as [Ha' Hp'].
  now apply IH.
Qed.

(** A passive event leaves alone what the frames read and publish. *)
Lemma passive_step_keeps (s : state) (e : event) :
  passive e = true ->
  frequencyData (step s e) = frequencyData s
  /\ audioLevel (step s e) = audioLevel s
  /\ audioStats (step s e) = audioStats s
  /\ previousDataRef (step s e) = previousDataRef s
  /\ animationFrameRef (step s e) = animationFrameRef s
  /\ pendingFrames (step s e) = pendingFrames s.
Proof.
  intros Hq.
  destruct e as [[| name message] | id f t | |]; cbn [step];
    try discriminate Hq.
  - unfold startRecording. cbn [set_error compatibility].
    destruct (compatibility s) as [[|] |]; repeat split.
  - repeat split.
Qed.

Lemma passive_run_keeps (events : list event) :
  forall s,
    forallb passive events = true ->
    frequencyData (run s events) = frequencyData s
    /\ audioLevel (run s events) = audioLevel s
    /\ audioStats (run s events) = audioStats s
    /\ previousDataRef (run s events) = previousDataRef s
    /\ animationFrameRef (run s events) = animationFrameRef s
    /\ pendingFrames (run s events) = pendingFrames s.
Proof.
  induction events as [| e events IH]; intros s Hq; [repeat split |].
  cbn [forallb] in Hq. apply andb_prop in Hq. destruct Hq as [Hq1 Hq2].
  cbn [run fold_left]. fold (run (step s e) events).
  destruct (@passive_step_keeps s e Hq1) as (F & L & S & P & A & N).
  destruct (IH (step s e) Hq2) as (F' & L' & S' & P' & A' & N').
  repeat split; congruence.
Qed.

Lemma frame_set_error (id : nat) (f t : list Z) (s : state)
      (e : option string) :
  frame id f t (set_error s e) = set_error (frame id f t s) e.
Proof.
  unfold frame. cbn [set_error pendingFrames].
  destruct (existsb _ _); [| reflexivity].
  unfold analyzeAudio.
  cbn [analyserRef dataArrayRef timeArrayRef previousDataRef set_error].
  destruct (analyserRef s); [| reflexivity].
  destruct (dataArrayRef s); [| reflexivity].
  destruct (timeArrayRef s); [| reflexivity].
  destruct (previousDataRef s); reflexivity.
Qed.

Lemma frame_contextClosed (id : nat) (f t : list Z) (s : state) :
  frame id f t (contextClosed s) = contextClosed (frame id f t s).
Proof.
  unfold frame. cbn [contextClosed pendingFrames].
  destruct (existsb _ _); [| reflexivity].
  unfold analyzeAudio.
  cbn [analyserRef dataArrayRef timeArrayRef previousDataRef contextClosed].
  destruct (analyserRef s); [| reflexivity].
  destruct (dataArrayRef s); [| reflexivity].
  destruct (timeArrayRef s); [| reflexivity].
  destruct (previousDataRef s); reflexivity.
Qed.

(** A rejected acquisition only sets the error. *)
Lemma start_rejected (s : state) (name message : string) :
  startRecording (Rejected name message) s
  = set_error s
      (Some match compatibility s with
            | Some false =>
                "Browser does not support required audio features"%string
            | _ => error_message name message
            end).
Proof.
  unfold startRecording. cbn [set_error compatibility].
  destruct (compatibility s) as [[|] |]; reflexivity.
Qed.

(** A frame does the same whether a passive event comes before it or
    after it. *)
Lemma passive_step_commutes (s : state) (e : event) (id : nat)
      (frequencyBytes timeBytes : list Z) :
  passive e = true ->
  step (step s e) (Frame id frequencyBytes timeBytes)
  = step (step s (Frame id frequencyBytes timeBytes)) e.
Proof.
  intros Hq.
  destruct e as [[| name message] | id' f t | |]; cbn [step];
    try discriminate Hq.
  - rewrite !start_rejected, frame_set_error.
    pose proof (step_compatibility s (Frame id frequencyBytes timeBytes)) as C.
    cbn [step] in C. now rewrite C.
  - apply frame_contextClosed.
Qed.

Lemma passive_run_commutes (events : list event) :
  forall (s : state) (id : nat) (frequencyBytes timeBytes : list Z),
    forallb passive events = true ->
    step (run s events) (Frame id frequencyBytes timeBytes)
    = run (step s (Frame id frequencyBytes timeBytes)) events.
Proof.
  induction events as [| e events IH]; intros s id f t Hq; [reflexivity |].
  cbn [forallb] in Hq. apply andb_prop in Hq. destruct Hq as [Hq1 Hq2].
  cbn [run fold_left]. fold (run (step s e) events).
  rewrite IH by exact Hq2.
  rewrite (@passive_step_commutes s e id f t Hq1). reflexivity.
Qed.

(** C6.  Whatever happened before (any history of starts, frames, stops
    and closings), take a stop, then any events that do not start a
    session (the closing of the context that the stop asked for, frames
    still in flight, rejected acquisitions, further stops), then a
    granted acquisition, then any passive events before the first frame
    runs.  No previous buffer is held and a frame is requested; whichever
    requested frame runs first publishes the freshly captured frequency
    bytes unchanged, with the same frequency data, level and statistics
    as the first frame of the very first session on the same captured
    bytes. *)
Theorem restart_first_frame_is_unsmoothed :
  forall (compat : Compatibility) (history gap settle : list event)
         (frequencyBytes timeBytes : list Z),
    allSupported compat = true ->
    forallb quiet gap = true -> forallb passive settle = true ->
    length frequencyBytes = frequencyBinCount ->
    length timeBytes = frequencyBinCount ->
    let restarted :=
      run (mounted compat)
          (history ++ Stop :: gap ++ Start Granted :: settle) in
    let fresh := run (mounted compat) [Start Granted] in
    previousDataRef restarted = None
    /\ (exists id,
          animationFrameRef restarted = Some id
          /\ In id (pendingFrames restarted))
    /\ (forall id id0,
          In id (pendingFrames restarted) -> In id0 (pendingFrames fresh) ->
          let ticked := step restarted (Frame id frequencyBytes timeBytes) in
          let first := step fresh (Frame id0 frequencyBytes timeBytes) in
          frequencyData ticked = Some frequencyBytes
          /\ frequencyData ticked = frequencyData first
          /\ audioLevel ticked = audioLevel first
          /\ audioStats ticked = audioStats first).
Proof.
  intros compat history gap settle frequencyBytes timeBytes Hs Hgap Hsettle
         Hf Ht restarted fresh.
  set (s2 := run (stopRecording (run (mounted compat) history)) gap).
  assert (R : restarted = run (startRecording Granted s2) settle).
  { subst restarted s2. rewrite run_app. cbn [run fold_left step].
    fold (run (stopRecording (run (mounted compat) history))
              (gap ++ Start Granted :: settle)).
    rewrite run_app. reflexivity. }
  assert (C2 : compatibility s2 <> Some false).
  { subst s2. rewrite run_compatibility. cbn [stopRecording compatibility].
    rewrite run_compatibility. cbn [mounted compatibility]. rewrite Hs.
    discriminate. }
  assert (P2 : previousDataRef s2 = None).
  { subst s2. now apply quiet_run_keeps_reset. }
  assert (C1 : compatibility (mounted compat) <> Some false)
    by (cbn [mounted compatibility]; rewrite Hs; discriminate).
  destruct (start_requests_frame s2 C2) as (A1 & I1 & P1).
  destruct (@passive_run_keeps settle (startRecording Granted s2) Hsettle)
    as (_ & _ & _ & KP & KA & KN).
  rewrite R. split; [congruence |].
  split; [exists (nextFrame s2); rewrite KA, KN; split; assumption |].
  intros id id0 Hid Hid0. rewrite KN in Hid. cbv zeta.
  rewrite passive_run_commutes by exact Hsettle.
  destruct (@passive_run_keeps settle
              (step (startRecording Granted s2)
                    (Frame id frequencyBytes timeBytes)) Hsettle)
    as (KF & KL & KS & _).
  rewrite KF, KL, KS. cbn [step].
  destruct (@first_frame_after_start s2 id frequencyBytes
              timeBytes C2 P2 Hf Ht Hid) as (F1 & L1 & S1 & _).
  destruct (@first_frame_after_start (mounted compat) id0 frequencyBytes
              timeBytes C1 eq_refl Hf Ht Hid0) as (F2 & L2 & S2 & _).
  subst fresh. cbn [run fold_left step].
  split; [exact F1 |].
  split; [now rewrite F1, F2 |].
  split; [now rewrite L1, L2 | now rewrite S1, S2].
Qed.

Lemma restart_first_frame_is_unsmoothed_witness :
  previousDataRef
    (run (mounted supported)
         ([Start Granted; Frame 1 (repeat 90%Z 1024) (repeat 128%Z 1024)]
          ++ Stop :: [ContextClosed; Frame 2 [] []]
          ++ Start Granted :: [ContextClosed]))
  = None.
Proof.
  refine (proj1 (@restart_first_frame_is_unsmoothed
                   supported
                   [Start Granted; Frame 1 (repeat 90%Z 1024) (repeat 128%Z 1024)]
                   [ContextClosed; Frame 2 [] []]
                   [ContextClosed]
                   (repeat 200%Z 1024) (repeat 128%Z 1024) _ _ _ _ _)).
  - reflexivity.
  - reflexivity.
  - reflexivity.
  - vm_compute; reflexivity.
  - vm_compute; reflexivity.
Defined.

End Session.

(** * Further properties of the helpers *)

(** ** Bins and frequencies *)

Section Bins.

Import AudioHelpers.

Local Open Scope Q_scope.

(* Statements about [Binary64.rnd] take their arguments explicitly. *)
Unset Implicit Arguments.

(** In binary64, for an FFT size that is a power of two (an analyser
    accepts no other) and a whole sample rate below [2^53], the index of
    the frequency of bin [i] is [i] again, as long as [i * sampleRate]
    stays below [2^53]: every intermediate result is a double, so nothing
    rounds. *)
Theorem index_of_bin_frequency :
  forall (i k sampleRate : Z),
    (0 <= i)%Z -> (0 < sampleRate < 2 ^ 53)%Z -> (0 <= k <= 1023)%Z ->
    (i * sampleRate < 2 ^ 53)%Z ->
    getIndexForFrequency64
      (getFrequencyForIndex64 (inject_Z i) (inject_Z (2 ^ k))
                              (inject_Z sampleRate))
      (inject_Z (2 ^ k)) (inject_Z sampleRate)
    = i.
Proof.
  intros i k sampleRate Hi [Hs Hs53] Hk Hm.
  unfold getIndexForFrequency64, getFrequencyForIndex64,
    Binary64.div, Binary64.mul.
  set (m := (i * sampleRate)%Z).
  assert (M0 : (0 <= m)%Z) by (unfold m; nia).
  assert (I53 : (i < 2 ^ 53)%Z) by (unfold m in Hm; nia).
  assert (F : inject_Z (2 ^ k) == 2 ^ k)
    by (rewrite Zpower_Qpower by lia; reflexivity).
  assert (Fpos : 0 < 2 ^ k) by apply pow2_pos.
  assert (Spos : 0 < inject_Z sampleRate)
    by (change 0 with (inject_Z 0); now rewrite <- Zlt_Qlt).
  assert (One : 2 ^ 0 == 1) by reflexivity.
  assert (E1 : Binary64.rnd (inject_Z i * inject_Z sampleRate) == inject_Z m).
  { rewrite (rnd_comp _ (inject_Z m * 2 ^ 0))
      by (unfold m; rewrite inject_Z_mult, One; ring).
    rewrite rnd_exact by (rewrite ?Z.abs_eq; lia). rewrite One. ring. }
  assert (E2 : Binary64.rnd
                 (Binary64.rnd (inject_Z i * inject_Z sampleRate)
                  / inject_Z (2 ^ k))
               == inject_Z m * 2 ^ (- k)).
  { rewrite (rnd_comp _ (inject_Z m * 2 ^ (- k))).
    - apply rnd_exact; rewrite ?Z.abs_eq; lia.
    - rewrite E1, F, Qpower_opp. field. lra. }
  assert (E3 : Binary64.rnd
                 (Binary64.rnd
                    (Binary64.rnd (inject_Z i * inject_Z sampleRate)
                     / inject_Z (2 ^ k))
                  * inject_Z (2 ^ k))
               == inject_Z m).
  { rewrite (rnd_comp _ (inject_Z m * 2 ^ 0)).
    - rewrite rnd_exact by (rewrite ?Z.abs_eq; lia). rewrite One. ring.
    - rewrite E2, F, Qpower_opp, One. field. lra. }
  assert (E4 : Binary64.rnd
                 (Binary64.rnd
                    (Binary64.rnd
                       (Binary64.rnd (inject_Z i * inject_Z sampleRate)
                        / inject_Z (2 ^ k))
                     * inject_Z (2 ^ k))
                  / inject_Z sampleRate)
               == inject_Z i).
  { rewrite (rnd_comp _ (inject_Z i * 2 ^ 0)).
    - rewrite rnd_exact by (rewrite ?Z.abs_eq; lia). rewrite One. ring.
    - rewrite E3, One. unfold m. rewrite inject_Z_mult. field. lra. }
  rewrite (Qfloor_comp _ _ E4). apply Qfloor_Z.
Qed.

Lemma index_of_bin_frequency_witness :
  getIndexForFrequency64
    (getFrequencyForIndex64 (inject_Z 440) (inject_Z (2 ^ 11))
                            (inject_Z 44100))
    (inject_Z (2 ^ 11)) (inject_Z 44100)
  = 440%Z.
Proof.
  apply (index_of_bin_frequency 440 11 44100); lia.
Defined.

(** At the default rates the band limits of [FREQUENCY_BANDS] fall in the
    same bins in binary64 as in exact arithmetic. *)
Lemma band_limits_in_binary64 :
  map (fun band : string * (Q * Q) =>
         let '(_, (lowFreq, highFreq)) := band in
         (getIndexForFrequency64 lowFreq FFT_SIZE SAMPLE_RATE,
          getIndexForFrequency64 highFreq FFT_SIZE SAMPLE_RATE))
      FREQUENCY_BANDS
  = map (fun band : string * (Q * Q) =>
           let '(_, (lowFreq, highFreq)) := band in
           (getIndexForFrequency lowFreq FFT_SIZE SAMPLE_RATE,
            getIndexForFrequency highFreq FFT_SIZE SAMPLE_RATE))
        FREQUENCY_BANDS.
Proof. vm_compute; reflexivity. Qed.

End Bins.

Set Implicit Arguments.

(** ** What smoothing returns *)

Section SmoothingOutput.

Import AudioHelpers.

Lemma to_uint8_is_byte (z : Z) : is_byte (Js.to_uint8 z).
Proof.
  unfold is_byte, Js.to_uint8.
  pose proof (Z.mod_pos_bound z 256 ltac:(lia)). lia.
Qed.

(** Whatever the two buffers hold and whatever the factor is, smoothing
    against a previous buffer yields bytes, as many as the current buffer
    has: results outside the byte range wrap modulo 256. *)
Theorem smoothing_yields_bytes :
  forall (current previous : list Z) (a : Q),
    byte_buffer (smoothFrequencyData current (Some previous) a)
    /\ length (smoothFrequencyData current (Some previous) a) = length current.
Proof.
  intros current previous a. split; [| apply smooth_length].
  unfold byte_buffer. apply Forall_forall. intros x Hx.
  unfold smoothFrequencyData in Hx. apply in_tabulate in Hx.
  destruct Hx as (i & _ & ->). unfold smooth_sample.
  destruct (nth_error previous i); [apply to_uint8_is_byte |].
  unfold is_byte. lia.
Qed.

(** At the factor of the hook, a byte buffer smoothed against itself is
    unchanged. *)
Lemma live_smoothing_of_equal_buffers (data : list Z) :
  byte_buffer data -> smoothFrequencyData data (Some data) (6 # 10) = data.
Proof.
  intros Hb. apply (nth_ext _ _ 0%Z 0%Z).
  - apply smooth_length.
  - intros i Hi. rewrite smooth_length in Hi.
    rewrite smooth_nth by exact Hi.
    rewrite (nth_error_nth' data 0%Z) by exact Hi.
    unfold smooth_sample.
    assert (E : blend (nth i data 0%Z) (nth i data 0%Z) (6 # 10)
                == inject_Z (nth i data 0%Z)) by (unfold blend; ring).
    rewrite (round_Qeq E), round_inject_Z.
    apply to_uint8_byte, byte_nth, Hb.
Qed.

End SmoothingOutput.

(** ** Level of any buffer *)

Section Levels.

Import AudioHelpers.

Local Abbreviation peak_step :=
  (fun (peak : Q) (v : Z) =>
     if Qle_bool (Qabs (normalized_sample v)) peak then peak
     else Qabs (normalized_sample v)).

Local Abbreviation square_step :=
  (fun (sum : Q) (v : Z) => sum + normalized_sample v * normalized_sample v).

Lemma peak_fold_bounds (d : list Z) :
  forall a,
    a <= fold_left peak_step d a
    /\ forall v, In v d -> Qabs (normalized_sample v) <= fold_left peak_step d a.
Proof.
  induction d as [| w d IH]; intros a; cbn [fold_left].
  - split; [lra | intros v []].
  - destruct (Qle_bool (Qabs (normalized_sample w)) a) eqn:E.
    + apply Qle_bool_iff in E. destruct (IH a) as [I1 I2].
      split; [exact I1 |]. intros v [<- | Hv]; [lra | now apply I2].
    + assert (L : a < Qabs (normalized_sample w)).
      { apply Qnot_le_lt. intros C. apply Qle_bool_iff in C. congruence. }
      destruct (IH (Qabs (normalized_sample w))) as [I1 I2].
      split; [lra |]. intros v [<- | Hv]; [exact I1 | now apply I2].
Qed.

Lemma square_fold_bound (B : Q) (d : list Z) :
  (forall v, In v d -> normalized_sample v * normalized_sample v <= B) ->
  forall a,
    fold_left square_step d a <= a + inject_Z (Z.of_nat (length d)) * B.
Proof.
  induction d as [| w d IH]; intros H a; cbn [fold_left length].
  - change (inject_Z (Z.of_nat 0)) with 0. lra.
  - rewrite inject_Z_succ.
    specialize (IH (fun v Hv => H v (or_intror Hv))
                   (a + normalized_sample w * normalized_sample w)).
    pose proof (H w (or_introl eq_refl)). lra.
Qed.

Lemma square_fold_grows (d : list Z) :
  forall a,
    a <= fold_left square_step d a
    /\ ((exists v, In v d /\ v <> 128%Z) -> a < fold_left square_step d a).
Proof.
  induction d as [| w d IH]; intros a; cbn [fold_left].
  - split; [lra | intros (v & [] & _)].
  - destruct (IH (a + normalized_sample w * normalized_sample w)) as [I1 I2].
    assert (S0 : 0 <= normalized_sample w * normalized_sample w) by nra.
    split; [lra |].
    intros (v & [<- | Hv] & Hne).
    + assert (N : ~ normalized_sample w == 0).
      { unfold normalized_sample. intros C.
        assert (C' : inject_Z w == inject_Z 128).
        { change (inject_Z 128) with 128.
          assert (D : inject_Z w - 128 == (inject_Z w - 128) / 128 * 128)
            by field.
          rewrite C in D. lra. }
        rewrite inject_Z_injective in C'. congruence. }
      assert (0 < normalized_sample w * normalized_sample w) by nra. lra.
    + assert (a + normalized_sample w * normalized_sample w
              < fold_left square_step d
                          (a + normalized_sample w * normalized_sample w))
        by (apply I2; eauto).
      lra.
Qed.

Lemma Q2R_zero : Q2R 0 = 0%R.
Proof. unfold Q2R. simpl. lra. Qed.

Lemma Q2R_one : Q2R 1 = 1%R.
Proof. unfold Q2R. simpl. lra. Qed.

Lemma Q2R_min_one (x : Q) : Q2R (Qmin x 1) = Rmin (Q2R x) 1.
Proof.
  destruct (Q.min_spec x 1) as [[C E] | [C E]]; rewrite (Qeq_eqR _ _ E).
  - apply Qlt_Rlt in C. rewrite Q2R_one in C. symmetry. apply Rmin_left. lra.
  - apply Qle_Rle in C. rewrite Q2R_one in *. symmetry. now apply Rmin_right.
Qed.

(** The value before the final clamp of [calculateRMS] is at most the one
    before the final clamp of [calculatePeak]. *)
Lemma rms_below_peak_unclamped (d : list Z) :
  d <> [] ->
  (sqrt (Q2R (sum_squares d / inject_Z (Z.of_nat (length d)))%Q)
   <= Q2R (fold_left peak_step d 0%Q))%R.
Proof.
  intros Hd. set (P := fold_left peak_step d 0).
  destruct (peak_fold_bounds d 0) as [P0 Pv]. fold P in P0, Pv.
  assert (Hn : 0 < inject_Z (Z.of_nat (length d))).
  { change 0 with (inject_Z 0). rewrite <- Zlt_Qlt.
    destruct d; [contradiction | simpl; lia]. }
  assert (B : sum_squares d <= 0 + inject_Z (Z.of_nat (length d)) * (P * P)).
  { apply square_fold_bound. intros v Hv. specialize (Pv v Hv).
    apply Qabs_Qle_condition in Pv. destruct Pv as [L U].
    set (x := normalized_sample v) in *.
    assert (0 <= (P - x) * (P + x)) by (apply Qmult_le_0_compat; lra).
    lra. }
  assert (M : sum_squares d / inject_Z (Z.of_nat (length d)) <= P * P).
  { apply Qle_shift_div_r; [exact Hn | lra]. }
  apply Qle_Rle in M. rewrite Q2R_mult in M.
  pose proof (Q2R_nonneg P0) as RP.
  rewrite <- (sqrt_square (Q2R P)) by exact RP.
  apply sqrt_le_1_alt. exact M.
Qed.

(** The level functions are ordered and bounded. *)
Lemma rms_below_peak :
  forall dataArray : option (list Z),
    (0 <= calculateRMS dataArray <= Q2R (calculatePeak dataArray))%R
    /\ (Q2R (calculatePeak dataArray) <= 1)%R.
Proof.
  intros [[| v d] |]; cbn [calculateRMS calculatePeak];
    rewrite ?Q2R_zero; try (split; lra).
  rewrite Q2R_min_one. set (l := v :: d).
  assert (Hl : l <> []) by discriminate.
  pose proof (rms_below_peak_unclamped Hl) as H.
  pose proof (sqrt_pos (Q2R (sum_squares l / inject_Z (Z.of_nat (length l))))).
  split; [split |].
  - apply Rmin_glb; lra.
  - apply Rle_min_compat_r. exact H.
  - apply Rmin_r.
Qed.

(** For every buffer, present or not, empty or not:
    [0 <= RMS <= peak <= 1]. *)
Theorem rms_and_peak_ordered :
  forall dataArray : option (list Z),
    (0 <= calculateRMS dataArray <= Q2R (calculatePeak dataArray))%R
    /\ (Q2R (calculatePeak dataArray) <= 1)%R.
Proof. exact rms_below_peak. Qed.

(** A non-empty buffer has RMS 0 exactly when every sample is 128, and
    peak 0 in exactly the same case. *)
Theorem silence_is_all_128 :
  forall d : list Z,
    d <> [] ->
    (calculateRMS (Some d) = 0%R <-> forall v, In v d -> v = 128%Z)
    /\ (calculatePeak (Some d) == 0 <-> forall v, In v d -> v = 128%Z).
Proof.
  intros d Hd.
  assert (Hn : 0 < inject_Z (Z.of_nat (length d))).
  { change 0 with (inject_Z 0). rewrite <- Zlt_Qlt.
    destruct d; [contradiction | simpl; lia]. }
  assert (A : (forall v, In v d -> v = 128%Z) -> calculatePeak (Some d) == 0).
  { intros H. destruct d as [| w d]; [contradiction |].
    cbn [calculatePeak]. set (l := w :: d) in *.
    assert (G : fold_left peak_step l 0 = 0).
    { clearbody l. clear Hd Hn. induction l as [| x l IH]; [reflexivity |].
      cbn [fold_left]. rewrite (H x) by now left.
      apply IH. intros v Hv. apply H. now right. }
    rewrite G. reflexivity. }
  assert (B : calculatePeak (Some d) == 0 -> calculateRMS (Some d) = 0%R).
  { intros H. destruct (rms_below_peak (Some d)) as [[L U] _].
    rewrite (Qeq_eqR _ _ H), Q2R_zero in U. lra. }
  assert (C : calculateRMS (Some d) = 0%R -> forall v, In v d -> v = 128%Z).
  { intros H v Hv. destruct (Z.eq_dec v 128) as [E | N]; [exact E |].
    exfalso. destruct d as [| w d]; [contradiction |].
    cbn [calculateRMS] in H. set (l := w :: d) in *.
    destruct (square_fold_grows l 0) as [_ G].
    assert (S0 : 0 < sum_squares l) by (apply G; eauto).
    assert (M : 0 < sum_squares l / inject_Z (Z.of_nat (length l))).
    { apply Qlt_shift_div_l; [exact Hn | lra]. }
    apply Qlt_Rlt in M. rewrite Q2R_zero in M.
    apply sqrt_lt_R0 in M.
    revert H. apply Rgt_not_eq. apply Rmin_glb_lt; lra. }
  split; split; auto.
Qed.

Lemma silence_is_all_128_witness :
  calculateRMS (Some [128; 128; 128]%Z) = 0%R
  <-> forall v, In v [128; 128; 128]%Z -> v = 128%Z.
Proof.
  apply (@silence_is_all_128 [128; 128; 128]%Z). discriminate.
Defined.

End Levels.

(** ** Logarithmic scaling *)

Section LogScaling.

Import AudioHelpers.

Lemma ln_above_one (x : R) : (1 < x)%R -> (0 < ln x)%R.
Proof. intros H. rewrite <- ln_1. apply ln_increasing; lra. Qed.

Lemma log10_one : Js.log10 1 = 0%R.
Proof. unfold Js.log10. rewrite ln_1. unfold Rdiv. ring. Qed.

Lemma log10_ratio_self (x : R) :
  (1 < x)%R -> (Js.log10 x / Js.log10 x = 1)%R.
Proof.
  intros H. unfold Js.log10.
  pose proof (ln_above_one H). pose proof (ln_above_one (x := 10) ltac:(lra)).
  field. split; lra.
Qed.

(** The scaled buffer has the length of the input and holds only zeros and
    samples of the input.  For two samples or more its first element is
    the first sample and its last element is 0, the last index being
    mapped one past the end of the input; a buffer of one sample is
    mapped to a single 0. *)
Theorem log_scaling_shape :
  forall dataArray : list Z,
    length (applyLogScaling dataArray) = length dataArray
    /\ (forall x, In x (applyLogScaling dataArray) -> x = 0%Z \/ In x dataArray)
    /\ ((2 <= length dataArray)%nat ->
        nth 0 (applyLogScaling dataArray) 0%Z = nth 0 dataArray 0%Z
        /\ nth (length dataArray - 1) (applyLogScaling dataArray) 0%Z = 0%Z)
    /\ (length dataArray = 1%nat -> applyLogScaling dataArray = [0%Z]).
Proof.
  intros dataArray. split; [apply applyLogScaling_length |]. split; [| split].
  - intros x Hx. unfold applyLogScaling in Hx. apply in_tabulate in Hx.
    destruct Hx as (i & _ & ->).
    destruct (Nat.eqb _ 1); [now left |].
    destruct (_ <? 0)%Z; [now left |].
    match goal with
    | |- nth ?k _ _ = _ \/ _ =>
        destruct (Nat.lt_ge_cases k (length dataArray)) as [Hk | Hk]
    end.
    + right. now apply nth_In.
    + left. now apply nth_overflow.
  - intros Hlen. unfold applyLogScaling.
    assert (N1 : Nat.eqb (length dataArray) 1 = false)
      by (apply Nat.eqb_neq; lia).
    assert (Big : (1 < INR (length dataArray))%R)
      by (change 1%R with (INR 1); apply lt_INR; lia).
    split; rewrite nth_tabulate by lia; rewrite N1.
    + cbn [Nat.add INR]. rewrite log10_one.
      replace (0 / Js.log10 (INR (length dataArray))
               * INR (length dataArray))%R with (INR 0)
        by (simpl; unfold Rdiv; ring).
      rewrite Int_part_INR. reflexivity.
    + replace (length dataArray - 1 + 1)%nat with (length dataArray) by lia.
      rewrite (log10_ratio_self Big), Rmult_1_l, Int_part_INR.
      destruct (Z.ltb_spec (Z.of_nat (length dataArray)) 0); [lia |].
      rewrite Nat2Z.id. now apply nth_overflow.
  - intros Hlen. unfold applyLogScaling. rewrite Hlen. reflexivity.
Qed.

End LogScaling.

(** ** The bin at which the rolloff scan stops *)

Section RolloffBin.

Import AudioHelpers.

Lemma rolloff_scan_reaches (l : list Z) :
  forall i cum t,
    l <> [] -> t <= inject_Z (cum + sum_Z l) ->
    exists j,
      (j < length l)%nat
      /\ rolloff_scan l i cum t = Some (i + j)%nat
      /\ t <= inject_Z (cum + sum_Z (firstn (S j) l))
      /\ forall j', (j' < j)%nat ->
                    inject_Z (cum + sum_Z (firstn (S j') l)) < t.
Proof.
  induction l as [| v l IH]; intros i cum t Hl Ht; [contradiction |].
  cbn [rolloff_scan].
  destruct (Qle_bool t (inject_Z (cum + v))) eqn:E.
  - apply Qle_bool_iff in E. exists 0%nat.
    split; [simpl; lia |]. split; [now rewrite Nat.add_0_r |].
    split; [| intros j' Hj'; lia].
    rewrite firstn_cons, ?firstn_0, sum_Z_cons.
    replace (cum + (v + sum_Z []))%Z with (cum + v)%Z
      by (unfold sum_Z; simpl; lia).
    exact E.
  - assert (L : inject_Z (cum + v) < t).
    { apply Qnot_le_lt. intros C. apply Qle_bool_iff in C. congruence. }
    rewrite sum_Z_cons in Ht.
    assert (Hl' : l <> []).
    { intros ->. replace (cum + (v + sum_Z []))%Z with (cum + v)%Z in Ht
        by (unfold sum_Z; simpl; lia). lra. }
    replace (cum + (v + sum_Z l))%Z with (cum + v + sum_Z l)%Z in Ht by lia.
    destruct (IH (S i) (cum + v)%Z t Hl' Ht) as (j & Hj & Hs & Hr & Hb).
    exists (S j). split; [simpl; lia |].
    split; [etransitivity; [exact Hs | f_equal; lia] |]. split.
    + rewrite firstn_cons, ?firstn_0, sum_Z_cons.
      replace (cum + (v + sum_Z (firstn (S j) l)))%Z
        with (cum + v + sum_Z (firstn (S j) l))%Z by lia.
      exact Hr.
    + intros [| j'] Hj'.
      * rewrite firstn_cons, ?firstn_0, sum_Z_cons.
        replace (cum + (v + sum_Z []))%Z with (cum + v)%Z
          by (unfold sum_Z; simpl; lia).
        exact L.
      * rewrite firstn_cons, ?firstn_0, sum_Z_cons.
        replace (cum + (v + sum_Z (firstn (S j') l)))%Z
          with (cum + v + sum_Z (firstn (S j') l))%Z by lia.
        apply Hb. lia.
Qed.

(** For a non-empty byte buffer and a percentile of at most 1, the rolloff
    is the frequency of a bin of the buffer: the first bin up to which the
    magnitudes sum to at least [percentile * total].  The fall-through
    return of the source is not reached. *)
Theorem rolloff_is_first_bin_reaching_target :
  forall (frequencyData : list Z) (sampleRate fftSize percentile : Q),
    byte_buffer frequencyData -> frequencyData <> [] -> percentile <= 1 ->
    let target := inject_Z (sum_Z frequencyData) * percentile in
    exists j,
      (j < length frequencyData)%nat
      /\ calculateSpectralRolloff frequencyData sampleRate fftSize percentile
         = getFrequencyForIndex (inject_Z (Z.of_nat j)) fftSize sampleRate
      /\ target <= inject_Z (sum_Z (firstn (S j) frequencyData))
      /\ forall j', (j' < j)%nat ->
                    inject_Z (sum_Z (firstn (S j') frequencyData)) < target.
Proof.
  intros frequencyData sampleRate fftSize percentile Hb Hne Hp target.
  pose proof (sum_Z_nonneg Hb) as Hs. rewrite Zle_Qle in Hs.
  change (0 <= inject_Z (sum_Z frequencyData)) in Hs.
  assert (Ht : target <= inject_Z (0 + sum_Z frequencyData)).
  { rewrite Z.add_0_l. unfold target. nra. }
  destruct (rolloff_scan_reaches 0 0%Z Hne Ht) as (j & Hj & Hscan & Hr & Hbelow).
  exists j. split; [exact Hj |]. split; [| split].
  - unfold calculateSpectralRolloff, rolloff_index. fold target.
    rewrite Hscan. reflexivity.
  - now rewrite Z.add_0_l in Hr.
  - intros j' Hj'. specialize (Hbelow j' Hj'). now rewrite Z.add_0_l in Hbelow.
Qed.

Lemma rolloff_is_first_bin_reaching_target_witness :
  exists j,
    (j < length [10; 0; 200; 30; 5]%Z)%nat
    /\ calculateSpectralRolloff [10; 0; 200; 30; 5]%Z 44100 2048 (85 # 100)
       = getFrequencyForIndex (inject_Z (Z.of_nat j)) 2048 44100
    /\ inject_Z (sum_Z [10; 0; 200; 30; 5]%Z) * (85 # 100)
       <= inject_Z (sum_Z (firstn (S j) [10; 0; 200; 30; 5]%Z))
    /\ forall j', (j' < j)%nat ->
                  inject_Z (sum_Z (firstn (S j') [10; 0; 200; 30; 5]%Z))
                  < inject_Z (sum_Z [10; 0; 200; 30; 5]%Z) * (85 # 100).
Proof.
  apply (@rolloff_is_first_bin_reaching_target [10; 0; 200; 30; 5]%Z
           44100 2048 (85 # 100)).
  - closed_bytes.
  - discriminate.
  - closed_Qle.
Defined.

End RolloffBin.

(** ** Band averages *)

Section Bands.

Import AudioHelpers.

(** The seven bands under the default rates, with their bin ranges. *)
Lemma bands_by_bins (d : list Z) :
  calculateBandAverages d 44100 2048
  = [ ("subbass"%string, band_average d 0 2);
      ("bass"%string, band_average d 2 11);
      ("lowmid"%string, band_average d 11 23);
      ("mid"%string, band_average d 23 92);
      ("highmid"%string, band_average d 92 185);
      ("presence"%string, band_average d 185 278);
      ("brilliance"%string, band_average d 278 928) ]%Z.
Proof. reflexivity. Qed.

Lemma sum_Z_byte_bounds (l : list Z) :
  byte_buffer l -> (0 <= sum_Z l <= 255 * Z.of_nat (length l))%Z.
Proof.
  induction 1 as [| v l Hv _ IH].
  - unfold sum_Z; simpl; lia.
  - rewrite sum_Z_cons. cbn [length]. unfold is_byte in Hv. lia.
Qed.

Lemma sum_Z_constant (v : Z) (l : list Z) :
  (forall x, In x l -> x = v) -> sum_Z l = (Z.of_nat (length l) * v)%Z.
Proof.
  induction l as [| w l IH]; intros H; [reflexivity |].
  rewrite sum_Z_cons, IH by (intros; apply H; now right).
  rewrite (H w) by now left. cbn [length]. lia.
Qed.

Lemma byte_segment (l : list Z) (j k : nat) :
  byte_buffer l -> byte_buffer (firstn k (skipn j l)).
Proof.
  unfold byte_buffer. rewrite !Forall_forall.
  intros H x Hx. apply H. eapply in_segment, Hx.
Qed.

Lemma band_average_bytes (d : list Z) (lowIndex highIndex : Z) :
  byte_buffer d -> (0 <= lowIndex)%Z ->
  exists q, band_average d lowIndex highIndex = Js.Fin q /\ 0 <= q /\ q <= 255.
Proof.
  intros Hb Hlo. unfold band_average.
  replace (lowIndex <? 0)%Z with false by (symmetry; apply Z.ltb_ge, Hlo).
  cbn [andb]. set (segment := firstn _ (skipn _ _)).
  pose proof (sum_Z_byte_bounds
                (byte_segment (Z.to_nat lowIndex)
                              (Z.to_nat (highIndex - lowIndex + 1)) Hb))
    as [L U].
  fold segment in L, U.
  destruct (Z.ltb_spec 0 (Z.of_nat (length segment))) as [P | _].
  - eexists. split; [reflexivity |].
    assert (PQ : 0 < inject_Z (Z.of_nat (length segment)))
      by (change 0 with (inject_Z 0); now rewrite <- Zlt_Qlt).
    rewrite Zle_Qle in L, U. rewrite inject_Z_mult in U.
    change (inject_Z 0) with 0 in L. change (inject_Z 255) with 255 in U.
    split.
    + apply Qle_shift_div_l; [exact PQ | lra].
    + apply Qle_shift_div_r; [exact PQ | lra].
  - exists 0. split; [reflexivity | split; [lra | closed_Qle]].
Qed.

Lemma band_average_outside (d : list Z) (lowIndex highIndex : Z) :
  (0 <= lowIndex)%Z -> (Z.of_nat (length d) <= lowIndex)%Z ->
  band_average d lowIndex highIndex = Js.Fin 0.
Proof.
  intros Hlo Hout. unfold band_average.
  replace (lowIndex <? 0)%Z with false by (symmetry; apply Z.ltb_ge, Hlo).
  cbn [andb]. rewrite skipn_all2 by lia. rewrite firstn_nil. reflexivity.
Qed.

Lemma band_average_uniform (v : Z) (n : nat) (lowIndex highIndex : Z) :
  (0 <= lowIndex <= highIndex)%Z -> (lowIndex < Z.of_nat n)%Z ->
  exists q,
    band_average (repeat v n) lowIndex highIndex = Js.Fin q /\ q == inject_Z v.
Proof.
  intros [Hlo Hhi] Hin. unfold band_average.
  replace (lowIndex <? 0)%Z with false by (symmetry; apply Z.ltb_ge, Hlo).
  cbn [andb]. set (segment := firstn _ (skipn _ _)).
  assert (Hlen : (0 < length segment)%nat).
  { unfold segment. rewrite length_firstn, length_skipn, repeat_length. lia. }
  assert (Hsum : sum_Z segment = (Z.of_nat (length segment) * v)%Z).
  { apply sum_Z_constant. intros x Hx. apply in_segment in Hx.
    now apply repeat_spec in Hx. }
  destruct (Z.ltb_spec 0 (Z.of_nat (length segment))) as [_ | C]; [| lia].
  eexists. split; [reflexivity |].
  rewrite Hsum, inject_Z_mult. field.
  change 0 with (inject_Z 0). rewrite inject_Z_injective. lia.
Qed.

(** For a byte buffer of any length, the result has the seven keys in the
    order of the table and every band average is a finite number between
    0 and 255. *)
Theorem band_averages_of_bytes :
  forall frequencyData : list Z,
    byte_buffer frequencyData ->
    map fst (calculateBandAverages frequencyData 44100 2048)
    = ["subbass"; "bass"; "lowmid"; "mid"; "highmid"; "presence";
       "brilliance"]%string
    /\ forall key value,
        In (key, value) (calculateBandAverages frequencyData 44100 2048) ->
        exists q, value = Js.Fin q /\ 0 <= q /\ q <= 255.
Proof.
  intros d Hb. rewrite bands_by_bins. split; [reflexivity |].
  intros key value H. cbn [In] in H.
  repeat (destruct H as [H | H];
          [injection H as _ <-; apply band_average_bytes; [exact Hb | lia] |]).
  destruct H.
Qed.

Lemma band_averages_of_bytes_witness :
  map fst (calculateBandAverages [12; 200; 7]%Z 44100 2048)
  = ["subbass"; "bass"; "lowmid"; "mid"; "highmid"; "presence";
     "brilliance"]%string.
Proof.
  refine (proj1 (@band_averages_of_bytes [12; 200; 7]%Z _)). closed_bytes.
Defined.

(** A buffer of at least 279 bins whose samples all equal [v] has every
    band average equal to [v]: all-255 gives 255 in all seven bands. *)
Theorem band_averages_of_uniform_buffer :
  forall (v : Z) (n : nat),
    (279 <= n)%nat ->
    forall key value,
      In (key, value) (calculateBandAverages (repeat v n) 44100 2048) ->
      exists q, value = Js.Fin q /\ q == inject_Z v.
Proof.
  intros v n Hn key value H. rewrite bands_by_bins in H. cbn [In] in H.
  repeat (destruct H as [H | H];
          [injection H as _ <-; apply band_average_uniform; lia |]).
  destruct H.
Qed.

Lemma band_averages_of_uniform_buffer_witness :
  exists q,
    band_average (repeat 255%Z 1024) 278 928 = Js.Fin q /\ q == inject_Z 255.
Proof.
  apply (@band_averages_of_uniform_buffer 255 1024 ltac:(lia)
           "brilliance"%string).
  rewrite bands_by_bins. cbn [In]. do 6 right. left. reflexivity.
Defined.

(** Below 279 samples the brilliance band is empty. *)
Lemma short_buffer_has_no_brilliance :
  forall frequencyData : list Z,
    (length frequencyData <= 278)%nat ->
    In ("brilliance"%string, Js.Fin 0)
       (calculateBandAverages frequencyData 44100 2048).
Proof.
  intros d Hlen. rewrite bands_by_bins. cbn [In]. do 6 right. left.
  f_equal. apply band_average_outside; lia.
Qed.

(** The brilliance band starts at bin 278: on a buffer of at most 278
    samples its average is 0, whatever the samples are. *)
Theorem brilliance_of_short_buffer :
  forall frequencyData : list Z,
    (length frequencyData <= 278)%nat ->
    In ("brilliance"%string, Js.Fin 0)
       (calculateBandAverages frequencyData 44100 2048).
Proof. exact short_buffer_has_no_brilliance. Qed.

Lemma brilliance_of_short_buffer_witness :
  In ("brilliance"%string, Js.Fin 0)
     (calculateBandAverages (repeat 255%Z 256) 44100 2048).
Proof.
  apply (@brilliance_of_short_buffer (repeat 255%Z 256)).
  simpl; lia.
Defined.

End Bands.

(** ** Beat detection *)

Section Beat.

Import AudioHelpers.

Lemma Qeq_bool_false (x y : Q) : ~ x == y -> Qeq_bool x y = false.
Proof.
  intros H. destruct (Qeq_bool x y) eqn:E; [| reflexivity].
  apply Qeq_bool_iff in E. contradiction.
Qed.

Lemma gt_fin (x t : Q) : Js.gt (Js.Fin x) t = true <-> t < x.
Proof.
  cbn [Js.gt]. rewrite negb_true_iff. split.
  - intros E. apply Qnot_le_lt. intros C. apply Qle_bool_iff in C. congruence.
  - intros L. destruct (Qle_bool x t) eqn:E; [| reflexivity].
    apply Qle_bool_iff in E. lra.
Qed.

(** The result in exact arithmetic, for a non-empty current buffer and a
    previous buffer of the same length: with a positive previous sum the
    intensity is the ratio of the two sums; with a previous sum of 0 the
    divisor falls back to 1 and the intensity is the average of the
    current buffer. *)
Lemma detectBeat_equal_lengths :
  forall (currentData previousData : list Z) (threshold : Q),
    currentData <> [] -> length previousData = length currentData ->
    let beat := detectBeat currentData (Some previousData) threshold in
    let sc := inject_Z (sum_Z currentData) in
    let sp := inject_Z (sum_Z previousData) in
    let n := inject_Z (Z.of_nat (length currentData)) in
    ((0 < sum_Z previousData)%Z ->
     (isBeat beat = true <-> threshold * sp < sc)
     /\ exists q, intensity beat = Js.Fin q /\ q == sc / sp)
    /\ (sum_Z previousData = 0%Z ->
        (isBeat beat = true <-> threshold < sc / n)
        /\ exists q, intensity beat = Js.Fin q /\ q == sc / n).
Proof.
  intros cur prev threshold Hne Hlen beat sc sp n.
  assert (Hn : 0 < n).
  { unfold n. change 0 with (inject_Z 0). rewrite <- Zlt_Qlt.
    destruct cur; [contradiction | simpl length; lia]. }
  assert (Hn0 : Qeq_bool n 0 = false) by (apply Qeq_bool_false; lra).
  assert (B : beat
              = let avgPrev := Js.div (Js.Fin sp) (Js.Fin n) in
                let i := Js.div (Js.Fin (sc / n)) (Js.or avgPrev (Js.Fin 1)) in
                {| isBeat := Js.gt i threshold; intensity := i;
                   energy := Some (Js.Fin (sc / n));
                   previousEnergy := Some avgPrev |}).
  { unfold beat, detectBeat. rewrite Hlen, Nat.ltb_irrefl.
    rewrite <- Hlen, firstn_all, Hlen. unfold Js.div_int.
    replace (Z.of_nat (length cur) =? 0)%Z with false
      by (symmetry; apply Z.eqb_neq; destruct cur; [contradiction | simpl length; lia]).
    reflexivity. }
  rewrite B. clear B. cbn [Js.div]. fold n. rewrite Hn0. split.
  - intros Hp.
    assert (Psp : 0 < sp)
      by (unfold sp; change 0 with (inject_Z 0); now rewrite <- Zlt_Qlt).
    assert (Q0 : 0 < sp / n) by (apply Qlt_shift_div_l; lra).
    assert (E0 : Qeq_bool (sp / n) 0 = false) by (apply Qeq_bool_false; lra).
    cbn [Js.or]. rewrite E0. cbn [Js.div]. rewrite E0.
    cbn [isBeat intensity].
    assert (R : sc / n / (sp / n) == sc / sp) by (field; split; lra).
    split.
    + rewrite gt_fin, R. split; intros H.
      * assert (threshold * sp < sc / sp * sp)
          by (apply Qmult_lt_compat_r; assumption).
        assert (sc / sp * sp == sc) by (field; lra). lra.
      * apply Qlt_shift_div_l; [exact Psp | exact H].
    + eexists. split; [reflexivity | exact R].
  - intros Hz.
    assert (Zsp : sp == 0) by (unfold sp; rewrite Hz; reflexivity).
    assert (E0 : Qeq_bool (sp / n) 0 = true).
    { apply Qeq_bool_iff. rewrite Zsp. unfold Qdiv. ring. }
    cbn [Js.or]. rewrite E0. cbn [Js.div].
    change (Qeq_bool 1 0) with false. cbn [isBeat intensity].
    assert (R : sc / n / 1 == sc / n) by (field; lra).
    split; [rewrite gt_fin, R; reflexivity |].
    eexists. split; [reflexivity | exact R].
Qed.

(** With a threshold of at least 1, a beat means that the sum went up. *)
Lemma beat_implies_increase (currentData previousData : list Z)
      (threshold : Q) :
  byte_buffer previousData ->
  currentData <> [] -> length previousData = length currentData ->
  1 <= threshold ->
  isBeat (detectBeat currentData (Some previousData) threshold) = true ->
  (sum_Z previousData < sum_Z currentData)%Z.
Proof.
  intros Hp Hne Hlen Ht B.
  destruct (@detectBeat_equal_lengths currentData previousData threshold
              Hne Hlen) as [Hpos Hzero].
  assert (P0 : (0 <= sum_Z previousData)%Z) by (apply sum_Z_nonneg, Hp).
  assert (Hn : 0 < inject_Z (Z.of_nat (length currentData))).
  { change 0 with (inject_Z 0). rewrite <- Zlt_Qlt.
    destruct currentData; [contradiction | simpl length; lia]. }
  destruct (Z.eq_dec (sum_Z previousData) 0) as [Z0 | NZ].
  - destruct (Hzero Z0) as [I _]. apply I in B. rewrite Z0.
    rewrite Zlt_Qlt. change (inject_Z 0) with 0.
    set (n := inject_Z (Z.of_nat (length currentData))) in *.
    set (sc := inject_Z (sum_Z currentData)) in *.
    assert (E : sc == sc / n * n) by (field; lra).
    assert (M : 0 < sc / n * n) by (apply Qmult_lt_0_compat; lra).
    lra.
  - assert (P1 : (0 < sum_Z previousData)%Z) by lia.
    destruct (Hpos P1) as [I _]. apply I in B.
    rewrite Zlt_Qlt.
    set (sp := inject_Z (sum_Z previousData)) in *.
    assert (Psp : 0 < sp)
      by (unfold sp; change 0 with (inject_Z 0); now rewrite <- Zlt_Qlt).
    assert (M : 0 <= (threshold - 1) * sp)
      by (apply Qmult_le_0_compat; lra).
    lra.
Qed.

(** For byte buffers of one length, not empty, and a threshold of at
    least 1 (the default is 1.3): a beat is reported only when the current
    buffer sums to more than the previous one.  So a buffer compared with
    itself never gives a beat, and when it is not silent its intensity
    is 1. *)
Theorem beat_needs_more_energy :
  forall (currentData previousData : list Z) (threshold : Q),
    byte_buffer currentData -> byte_buffer previousData ->
    currentData <> [] -> length previousData = length currentData ->
    1 <= threshold ->
    (isBeat (detectBeat currentData (Some previousData) threshold) = true ->
     (sum_Z previousData < sum_Z currentData)%Z)
    /\ isBeat (detectBeat currentData (Some currentData) threshold) = false
    /\ ((0 < sum_Z currentData)%Z ->
        exists q,
          intensity (detectBeat currentData (Some currentData) threshold)
          = Js.Fin q
          /\ q == 1).
Proof.
  intros cur prev threshold Hc Hp Hne Hlen Ht.
  split; [now apply beat_implies_increase |]. split.
  - destruct (isBeat (detectBeat cur (Some cur) threshold)) eqn:B;
      [| reflexivity].
    apply beat_implies_increase in B; try assumption; [lia | reflexivity].
  - intros Pos.
    destruct (@detectBeat_equal_lengths cur cur threshold Hne eq_refl)
      as [Hpos _].
    destruct (Hpos Pos) as [_ (q & Eq & Hq)].
    exists q. split; [exact Eq |]. rewrite Hq.
    assert (PosQ : 0 < inject_Z (sum_Z cur))
      by (change 0 with (inject_Z 0); now rewrite <- Zlt_Qlt).
    field. lra.
Qed.

Lemma beat_needs_more_energy_witness :
  isBeat (detectBeat [30; 60]%Z (Some [30; 60]%Z) (13 # 10)) = false.
Proof.
  refine (proj1 (proj2 (@beat_needs_more_energy [30; 60]%Z [20; 40]%Z
                          (13 # 10) _ _ _ _ _))).
  - closed_bytes.
  - closed_bytes.
  - discriminate.
  - reflexivity.
  - closed_Qle.
Defined.

End Beat.

(** ** Colour in RGB mode *)

Section RgbRange.

Import AudioHelpers.

Lemma round_unit_byte (y : Q) :
  0 <= y -> y <= 1 -> is_byte (Js.round (y * 255)).
Proof.
  intros L U.
  assert (A : inject_Z 0 <= y * 255) by (change (inject_Z 0) with 0; lra).
  assert (B : y * 255 <= inject_Z 255) by (change (inject_Z 255) with 255; lra).
  apply round_le in A, B. rewrite round_inject_Z in A, B.
  unfold is_byte. lia.
Qed.

(** For [0 <= x], [x % 2] lies in [0, 2). *)
Lemma rem_two_range (x : Q) :
  0 <= x -> 0 <= Js.rem x 2 /\ Js.rem x 2 < 2.
Proof.
  intros Hx. unfold Js.rem, Js.trunc.
  assert (H2 : 0 <= x / 2) by (apply Qle_shift_div_l; lra).
  assert (E : Qle_bool 0 (x / 2) = true) by now apply Qle_bool_iff.
  rewrite E.
  pose proof (Qfloor_le (x / 2)) as L. pose proof (Qlt_floor (x / 2)) as U.
  rewrite inject_Z_plus in U. change (inject_Z 1) with 1 in U.
  set (k := inject_Z (Qfloor (x / 2))) in *.
  assert (D : x == x / 2 * 2) by (field; lra).
  set (h := x / 2) in *. split; lra.
Qed.

(** For a non-negative frequency and an intensity in [0, 1], each of the
    three components of the colour in mode ["rgb"] is an integer between 0
    and 255. *)
Theorem rgb_components_are_bytes :
  forall frequency intensity : Q,
    0 <= frequency -> 0 <= intensity -> intensity <= 1 ->
    exists r g b,
      getFrequencyColor frequency intensity "rgb" = Rgb r g b
      /\ is_byte r /\ is_byte g /\ is_byte b.
Proof.
  intros frequency intensity Hf Hi0 Hi1.
  unfold getFrequencyColor.
  change (String.eqb "rgb" "hsl") with false.
  change (String.eqb "rgb" "rgb") with true. cbv iota.
  set (h := frequency / 20000 * 360 / 360).
  set (s := (70 + intensity * 30) / 100).
  set (l := (40 + intensity * 40) / 100).
  cbv zeta.
  assert (Hs : 0 <= s /\ s <= 1)
    by (unfold s; split; [apply Qle_shift_div_l | apply Qle_shift_div_r]; lra).
  assert (Hl : 0 <= l /\ l <= 1)
    by (unfold l; split; [apply Qle_shift_div_l | apply Qle_shift_div_r]; lra).
  assert (Hh : 0 <= h * 6).
  { assert (E : h * 6 == frequency * (6 # 20000)) by (unfold h; field).
    rewrite E. lra. }
  destruct (rem_two_range Hh) as [R0 R2].
  set (rm := Js.rem (h * 6) 2) in *.
  (* the two absolute values *)
  assert (A1 : 0 <= Qabs (2 * l - 1)) by apply Qabs_nonneg.
  assert (A2 : 2 * l - 1 <= Qabs (2 * l - 1)) by apply Qle_Qabs.
  assert (A3 : - (2 * l - 1) <= Qabs (2 * l - 1))
    by (rewrite <- Qabs_opp; apply Qle_Qabs).
  assert (A4 : Qabs (2 * l - 1) <= 1)
    by (apply Qabs_Qle_condition; split; lra).
  assert (B1 : 0 <= Qabs (rm - 1)) by apply Qabs_nonneg.
  assert (B2 : Qabs (rm - 1) <= 1)
    by (apply Qabs_Qle_condition; split; lra).
  set (u := 1 - Qabs (2 * l - 1)) in *.
  set (t := 1 - Qabs (rm - 1)) in *.
  assert (Hu : 0 <= u /\ u <= 2 * l /\ u <= 2 - 2 * l) by (unfold u; lra).
  assert (Ht : 0 <= t /\ t <= 1) by (unfold t; lra).
  set (chroma := u * s).
  assert (Hc : 0 <= chroma /\ chroma <= u).
  { unfold chroma. split; [apply Qmult_le_0_compat; lra |].
    assert (0 <= u * (1 - s)) by (apply Qmult_le_0_compat; lra). lra. }
  set (x := chroma * t).
  assert (Hx : 0 <= x /\ x <= chroma).
  { unfold x. split; [apply Qmult_le_0_compat; lra |].
    assert (0 <= chroma * (1 - t)) by (apply Qmult_le_0_compat; lra). lra. }
  set (m := l - chroma / 2).
  assert (Hm : 0 <= m /\ m + chroma <= 1).
  { assert (E : chroma / 2 == chroma * (1 # 2)) by (field).
    unfold m. rewrite E. split; lra. }
  assert (Z0 : is_byte (Js.round ((0 + m) * 255)))
    by (apply round_unit_byte; lra).
  assert (ZC : is_byte (Js.round ((chroma + m) * 255)))
    by (apply round_unit_byte; lra).
  assert (ZX : is_byte (Js.round ((x + m) * 255)))
    by (apply round_unit_byte; lra).
  destruct (Qlt_le_dec h (1 # 6)); [eauto 7 |].
  destruct (Qlt_le_dec h (2 # 6)); [eauto 7 |].
  destruct (Qlt_le_dec h (3 # 6)); [eauto 7 |].
  destruct (Qlt_le_dec h (4 # 6)); [eauto 7 |].
  destruct (Qlt_le_dec h (5 # 6)); eauto 7.
Qed.

Lemma rgb_components_are_bytes_witness :
  exists r g b,
    getFrequencyColor 440 (8 # 10) "rgb" = Rgb r g b
    /\ is_byte r /\ is_byte g /\ is_byte b.
Proof.
  apply (@rgb_components_are_bytes 440 (8 # 10)); closed_Qle.
Defined.

End RgbRange.

(** ** Test patterns *)

Section TestData.

Import AudioHelpers.

Local Open Scope R_scope.

Lemma Int_part_range (x : R) (k : Z) :
  0 <= x -> x < IZR (k + 1) -> (0 <= Int_part x <= k)%Z.
Proof.
  intros L U. destruct (base_Int_part x) as [A B].
  split.
  - assert (H : IZR (-1) < IZR (Int_part x)) by (simpl; lra).
    apply lt_IZR in H. lia.
  - assert (H : IZR (Int_part x) < IZR (k + 1)) by lra.
    apply lt_IZR in H. lia.
Qed.

Lemma half_sine_unit (a : R) : 0 <= sin a * (5 / 10) + 5 / 10 <= 1.
Proof. pose proof (SIN_bound a) as [L U]. split; lra. Qed.

Lemma forall_tabulate (A : Type) (P : A -> Prop) (n : nat) (f : nat -> A) :
  (forall i, P (f i)) -> Forall P (Js.tabulate n f).
Proof.
  intros H. apply Forall_forall. intros x Hx.
  apply in_tabulate in Hx. destruct Hx as (i & _ & ->). apply H.
Qed.

(** Length and ranges of the test patterns. *)
Lemma test_data_bounds :
  forall (length : nat) (type : string) (frequency : Q) (random : nat -> R),
    (forall k, 0 <= random k < 1) ->
    let data := generateTestData length type frequency random in
    List.length data = length
    /\ byte_buffer data
    /\ (type = "random"%string -> Forall (fun v => (0 <= v <= 254)%Z) data)
    /\ (type = "pulse"%string -> Forall (fun v => (0 <= v <= 165)%Z) data)
    /\ (type <> "sine"%string -> type <> "random"%string ->
        type <> "pulse"%string -> data = repeat 128%Z length).
Proof.
  intros n type frequency random Hr data.
  (* the samples of the random and pulse patterns, before the store *)
  assert (S2 : forall k, (0 <= Int_part (random k * 255) <= 254)%Z).
  { intros k. destruct (Hr k) as [L U].
    apply Int_part_range; [nra |].
    replace (IZR (254 + 1)) with 255 by (simpl; lra). nra. }
  assert (S3 : forall a k,
             (0 <= Int_part ((sin a * (5 / 10) + 5 / 10 + random k * (3 / 10))
                             * (1275 / 10)) <= 165)%Z).
  { intros a k. pose proof (half_sine_unit a) as [L U].
    destruct (Hr k) as [L' U'].
    apply Int_part_range; [nra |].
    replace (IZR (165 + 1)) with 166 by (simpl; lra). nra. }
  assert (U8 : forall z hi, (0 <= z <= hi)%Z -> (hi <= 255)%Z ->
                            (0 <= Js.to_uint8 z <= hi)%Z).
  { intros z hi Hz Hhi. rewrite to_uint8_byte; [exact Hz |].
    unfold is_byte. lia. }
  subst data. unfold generateTestData.
  destruct (String.eqb_spec type "sine") as [-> | N1].
  { split; [apply length_tabulate |]. split; [| split; [| split]];
      try discriminate; [| congruence].
    apply forall_tabulate. intros i. apply to_uint8_is_byte. }
  destruct (String.eqb_spec type "random") as [-> | N2].
  { split; [apply length_tabulate |]. split; [| split; [| split]];
      try discriminate; [| | congruence].
    - apply forall_tabulate. intros i. apply to_uint8_is_byte.
    - intros _. apply forall_tabulate. intros i. apply U8; [apply S2 | lia]. }
  destruct (String.eqb_spec type "pulse") as [-> | N3].
  { split; [apply length_tabulate |]. split; [| split; [| split]];
      try discriminate; [| | congruence].
    - apply forall_tabulate. intros i. apply to_uint8_is_byte.
    - intros _. apply forall_tabulate. intros i. apply U8; [apply S3 | lia]. }
  split; [apply length_tabulate |]. split; [| split; [| split]];
    try congruence.
  - apply forall_tabulate. intros i. unfold is_byte. lia.
  - intros _ _ _. now apply tabulate_constant.
Qed.

(** Whatever the pattern, [generateTestData] returns [length] bytes,
    provided [Math.random] returns numbers in [0, 1).  The random pattern
    never holds 255, the pulse pattern never exceeds 165, and any other
    type than sine, random and pulse gives 128 everywhere. *)
Theorem test_data_ranges :
  forall (length : nat) (type : string) (frequency : Q) (random : nat -> R),
    (forall k, 0 <= random k < 1) ->
    let data := generateTestData length type frequency random in
    List.length data = length
    /\ byte_buffer data
    /\ (type = "random"%string -> Forall (fun v => (0 <= v <= 254)%Z) data)
    /\ (type = "pulse"%string -> Forall (fun v => (0 <= v <= 165)%Z) data)
    /\ (type <> "sine"%string -> type <> "random"%string ->
        type <> "pulse"%string -> data = repeat 128%Z length).
Proof. exact test_data_bounds. Qed.

Lemma test_data_ranges_witness :
  List.length (generateTestData 256 "sine" 440 (fun _ => 0)) = 256%nat.
Proof.
  refine (proj1 (@test_data_ranges 256 "sine" 440 (fun _ => 0) _)).
  intros k. split; lra.
Defined.

End TestData.

(** ** Statistics of a non-empty buffer *)

Section Stats.

Import AudioHelpers.

Local Abbreviation min_step :=
  (fun (m : Js.jsnum) (value : Z) => Js.min m (Js.Fin (inject_Z value))).
Local Abbreviation max_step :=
  (fun (m : Js.jsnum) (value : Z) => Js.max m (Js.Fin (inject_Z value))).

Lemma min_fold (l : list Z) :
  forall m,
  exists m',
    fold_left min_step l (Js.Fin m) = Js.Fin m'
    /\ m' <= m
    /\ (forall v, In v l -> m' <= inject_Z v)
    /\ (m' == m \/ exists v, In v l /\ m' == inject_Z v).
Proof.
  induction l as [| w l IH]; intros m; cbn [fold_left Js.min].
  - exists m. split; [reflexivity |]. split; [lra |].
    split; [intros v [] | now left].
  - destruct (IH (Qmin m (inject_Z w))) as (m' & E & L & A & M).
    exists m'. split; [exact E |].
    pose proof (Q.le_min_l m (inject_Z w)).
    pose proof (Q.le_min_r m (inject_Z w)).
    split; [lra |]. split.
    + intros v [<- | Hv]; [lra | now apply A].
    + destruct M as [M | (v & Hv & M)].
      * destruct (Q.min_spec m (inject_Z w)) as [[_ S] | [_ S]].
        -- left. lra.
        -- right. exists w. split; [now left | lra].
      * right. exists v. split; [now right | exact M].
Qed.

Lemma max_fold (l : list Z) :
  forall m,
  exists m',
    fold_left max_step l (Js.Fin m) = Js.Fin m'
    /\ m <= m'
    /\ (forall v, In v l -> inject_Z v <= m')
    /\ (m' == m \/ exists v, In v l /\ m' == inject_Z v).
Proof.
  induction l as [| w l IH]; intros m; cbn [fold_left Js.max].
  - exists m. split; [reflexivity |]. split; [lra |].
    split; [intros v [] | now left].
  - destruct (IH (Qmax m (inject_Z w))) as (m' & E & L & A & M).
    exists m'. split; [exact E |].
    pose proof (Q.le_max_l m (inject_Z w)).
    pose proof (Q.le_max_r m (inject_Z w)).
    split; [lra |]. split.
    + intros v [<- | Hv]; [lra | now apply A].
    + destruct M as [M | (v & Hv & M)].
      * destruct (Q.max_spec m (inject_Z w)) as [[_ S] | [_ S]].
        -- right. exists w. split; [now left | lra].
        -- left. lra.
      * right. exists v. split; [now right | exact M].
Qed.

Lemma sum_Z_between (lo hi : Q) (l : list Z) :
  (forall v, In v l -> lo <= inject_Z v /\ inject_Z v <= hi) ->
  inject_Z (Z.of_nat (length l)) * lo <= inject_Z (sum_Z l)
  /\ inject_Z (sum_Z l) <= inject_Z (Z.of_nat (length l)) * hi.
Proof.
  induction l as [| w l IH]; intros H.
  - change (inject_Z (Z.of_nat (length []))) with 0.
    change (inject_Z (sum_Z [])) with 0. split; lra.
  - rewrite sum_Z_cons, inject_Z_plus. cbn [length]. rewrite inject_Z_succ.
    destruct (IH (fun v Hv => H v (or_intror Hv))) as [L U].
    destruct (H w (or_introl eq_refl)) as [Lw Uw]. split; lra.
Qed.

(** For a non-empty buffer, the frequency block of the snapshot holds
    finite numbers: the minimum and the maximum are samples of the buffer,
    the average lies between them, and the total is the sum of the
    samples. *)
Theorem frequency_stats_of_nonempty_buffer :
  forall (frequencyData : list Z) (timeDomainData : option (list Z)),
    frequencyData <> [] ->
    let stats :=
      stats_frequency (calculateAudioStats frequencyData timeDomainData) in
    exists mn mx avg,
      freq_min stats = Js.Fin mn /\ freq_max stats = Js.Fin mx
      /\ freq_avg stats = Js.Fin avg
      /\ freq_total stats = sum_Z frequencyData
      /\ (exists v, In v frequencyData /\ mn == inject_Z v)
      /\ (exists v, In v frequencyData /\ mx == inject_Z v)
      /\ (forall v, In v frequencyData -> mn <= inject_Z v <= mx)
      /\ mn <= avg /\ avg <= mx.
Proof.
  intros d t Hne stats. subst stats.
  destruct d as [| w d]; [contradiction |].
  unfold calculateAudioStats.
  cbn [stats_frequency freq_min freq_max freq_avg freq_total].
  set (l := w :: d) in *.
  assert (Hn : 0 < inject_Z (Z.of_nat (length l))).
  { change 0 with (inject_Z 0). rewrite <- Zlt_Qlt. simpl length. lia. }
  destruct (min_fold d (inject_Z w)) as (mn & Emn & Lmn & Amn & Mmn).
  destruct (max_fold d (inject_Z w)) as (mx & Emx & Lmx & Amx & Mmx).
  assert (Bounds : forall v, In v l -> mn <= inject_Z v /\ inject_Z v <= mx).
  { intros v [<- | Hv]; [lra |]. split; [now apply Amn | now apply Amx]. }
  exists mn, mx, (inject_Z (sum_Z l) / inject_Z (Z.of_nat (length l))).
  split; [exact Emn |]. split; [exact Emx |]. split.
  { unfold Js.div_int.
    replace (Z.of_nat (length l) =? 0)%Z with false
      by (symmetry; apply Z.eqb_neq; simpl length; lia).
    reflexivity. }
  split; [reflexivity |]. split.
  { destruct Mmn as [M | (v & Hv & M)].
    - exists w. split; [now left | exact M].
    - exists v. split; [now right | exact M]. }
  split.
  { destruct Mmx as [M | (v & Hv & M)].
    - exists w. split; [now left | exact M].
    - exists v. split; [now right | exact M]. }
  split; [exact Bounds |].
  destruct (sum_Z_between l Bounds) as [L U]. split.
  - apply Qle_shift_div_l; [exact Hn | lra].
  - apply Qle_shift_div_r; [exact Hn | lra].
Qed.

Lemma frequency_stats_of_nonempty_buffer_witness :
  freq_total (stats_frequency (calculateAudioStats [4; 9; 2]%Z None))
  = sum_Z [4; 9; 2]%Z.
Proof.
  destruct (@frequency_stats_of_nonempty_buffer [4; 9; 2]%Z None
              ltac:(discriminate))
    as (mn & mx & avg & _ & _ & _ & T & _).
  exact T.
Defined.

End Stats.

(** ** Raw values and frequencies of the bars *)

Section BarValues.

Import AudioHelpers.

Lemma fold_Qplus_between (lo hi : Q) (l : list Q) :
  (forall q, In q l -> lo <= q /\ q <= hi) ->
  forall a,
    a + inject_Z (Z.of_nat (length l)) * lo <= fold_left Qplus l a
    /\ fold_left Qplus l a <= a + inject_Z (Z.of_nat (length l)) * hi.
Proof.
  induction l as [| q l IH]; intros H a; cbn [fold_left length].
  - change (inject_Z (Z.of_nat 0)) with 0. split; lra.
  - rewrite inject_Z_succ.
    destruct (IH (fun x Hx => H x (or_intror Hx)) (a + q)) as [L U].
    destruct (H q (or_introl eq_refl)) as [Lq Uq]. split; lra.
Qed.

(** The array that the bars are cut from holds numbers of [0, 1],
    whatever the input is: the input goes through a [Uint8Array]. *)
Lemma normalized_in_unit (frequencyData : list Z) (useLog : bool) :
  forall q,
    In q (normalizeFrequencyData
            (map (fun v => Js.to_uint8 (Js.round (inject_Z v)))
                 (if useLog then applyLogScaling frequencyData
                  else frequencyData))
            255) ->
    0 <= q /\ q <= 1.
Proof.
  intros q Hq. unfold normalizeFrequencyData in Hq.
  apply in_map_iff in Hq. destruct Hq as (b & <- & Hb).
  apply in_map_iff in Hb. destruct Hb as (v & <- & _).
  pose proof (to_uint8_is_byte (Js.round (inject_Z v))) as [L U].
  rewrite Zle_Qle in L, U.
  change (inject_Z 0) with 0 in L. change (inject_Z 255) with 255 in U.
  split; [apply Qle_shift_div_l | apply Qle_shift_div_r]; lra.
Qed.

Lemma make_bar_raw_in_unit (normalizedData : list Q) (numBars step : nat)
      (options : VisualizationOptions) (i : nat) :
  (forall q, In q normalizedData -> 0 <= q /\ q <= 1) ->
  0 <= rawValue (make_bar normalizedData numBars step options i)
  /\ rawValue (make_bar normalizedData numBars step options i) <= 1.
Proof.
  intros H. unfold make_bar. cbn [rawValue].
  set (segment := firstn _ (skipn _ _)).
  assert (Hs : forall q, In q segment -> 0 <= q /\ q <= 1)
    by (intros q Hq; apply H; eapply in_segment, Hq).
  destruct (fold_Qplus_between segment Hs 0) as [L U].
  destruct (Nat.ltb_spec 0 (length segment)) as [P | _]; [| split; lra].
  assert (PQ : 0 < inject_Z (Z.of_nat (length segment)))
    by (change 0 with (inject_Z 0); rewrite <- Zlt_Qlt; lia).
  split; [apply Qle_shift_div_l | apply Qle_shift_div_r]; lra.
Qed.

Lemma bars_nth_error_exact (frequencyData : list Z) (numBars : nat)
      (options : VisualizationOptions) (i : nat) (bar : BarDatum) :
  nth_error (createCircularVisualizationData frequencyData numBars options) i
  = Some bar ->
  (i < numBars)%nat
  /\ exists normalizedData,
      (forall q, In q normalizedData -> 0 <= q /\ q <= 1)
      /\ bar = make_bar normalizedData numBars
                        (length frequencyData / numBars) options i.
Proof.
  intros H.
  assert (Hi : (i < numBars)%nat).
  { rewrite <- (bars_length frequencyData numBars options).
    apply nth_error_Some. congruence. }
  split; [exact Hi |].
  unfold createCircularVisualizationData in H.
  rewrite nth_error_tabulate in H by exact Hi.
  rewrite normalized_length in H. injection H as <-.
  eexists. split; [apply normalized_in_unit | reflexivity].
Qed.

(** Whatever the input holds, every bar has a raw value in [0, 1].  When
    the buffer has at least [numBars] samples, the frequencies of the bars
    are non-negative, strictly increasing with the bar index, and below
    the frequency of the index one past the buffer. *)
Theorem bars_raw_values_and_frequencies :
  forall (frequencyData : list Z) (numBars : nat)
         (options : VisualizationOptions),
    let bars := createCircularVisualizationData frequencyData numBars options in
    (forall bar, In bar bars -> 0 <= rawValue bar /\ rawValue bar <= 1)
    /\ ((numBars <= length frequencyData)%nat ->
        (forall i j bi bj,
            (i < j)%nat -> nth_error bars i = Some bi ->
            nth_error bars j = Some bj -> frequency bi < frequency bj)
        /\ (forall bar,
               In bar bars ->
               0 <= frequency bar
               /\ frequency bar
                  < getFrequencyForIndex
                      (inject_Z (Z.of_nat (length frequencyData)))
                      2048 44100)).
Proof.
  intros d N options bars. split.
  - intros bar Hb. apply In_nth_error in Hb. destruct Hb as (i & Hi).
    apply bars_nth_error_exact in Hi. destruct Hi as (_ & nd & Hnd & ->).
    now apply make_bar_raw_in_unit.
  - intros Hlen.
    assert (F : forall k : Q,
               getFrequencyForIndex k 2048 44100 == k * (44100 # 2048))
      by (intros k; unfold getFrequencyForIndex; field).
    set (step := (length d / N)%nat).
    assert (Key : forall i, (i < N)%nat ->
                            (1 <= step /\ i * step + step <= length d)%nat).
    { intros i Hi. assert (N0 : N <> 0%nat) by lia.
      assert (S1 : (1 <= step)%nat).
      { unfold step. apply Nat.div_le_lower_bound; lia. }
      split; [exact S1 |].
      pose proof (Nat.Div0.mul_div_le (length d) N) as M. fold step in M.
      nia. }
    assert (Idx : forall i : nat,
               inject_Z (Z.of_nat (i * step)) + inject_Z (Z.of_nat step) / 2
               == inject_Z (Z.of_nat i) * inject_Z (Z.of_nat step)
                  + inject_Z (Z.of_nat step) * (1 # 2)).
    { intros i. rewrite Nat2Z.inj_mul, inject_Z_mult. field. }
    assert (PosS : 1 <= inject_Z (Z.of_nat step) \/ N = 0%nat).
    { destruct N as [| N']; [now right | left].
      destruct (Key 0%nat ltac:(lia)) as [S1 _].
      change 1 with (inject_Z 1). rewrite <- Zle_Qle. lia. }
    split.
    + intros i j bi bj Hij Ei Ej.
      apply bars_nth_error_exact in Ei. destruct Ei as (Hi & ndi & _ & ->).
      apply bars_nth_error_exact in Ej. destruct Ej as (Hj & ndj & _ & ->).
      cbn [frequency make_bar]. fold step. rewrite !F, !Idx.
      destruct PosS as [PosS | ->]; [| lia].
      assert (IJ : inject_Z (Z.of_nat i) + 1 <= inject_Z (Z.of_nat j)).
      { change 1 with (inject_Z 1). rewrite <- inject_Z_plus, <- Zle_Qle. lia. }
      set (s := inject_Z (Z.of_nat step)) in *.
      set (a := inject_Z (Z.of_nat i)) in *.
      set (b := inject_Z (Z.of_nat j)) in *.
      assert (0 <= (b - a - 1) * s) by (apply Qmult_le_0_compat; lra).
      lra.
    + intros bar Hb. apply In_nth_error in Hb. destruct Hb as (i & Hi).
      apply bars_nth_error_exact in Hi. destruct Hi as (Hi & nd & _ & ->).
      cbn [frequency make_bar]. fold step. rewrite !F, !Idx.
      destruct PosS as [PosS | ->]; [| lia].
      destruct (Key i Hi) as [_ K].
      assert (KQ : inject_Z (Z.of_nat i) * inject_Z (Z.of_nat step)
                   + inject_Z (Z.of_nat step)
                   <= inject_Z (Z.of_nat (length d))).
      { rewrite <- inject_Z_mult, <- inject_Z_plus, <- Zle_Qle. lia. }
      assert (I0 : 0 <= inject_Z (Z.of_nat i))
        by (change 0 with (inject_Z 0); rewrite <- Zle_Qle; lia).
      set (s := inject_Z (Z.of_nat step)) in *.
      set (a := inject_Z (Z.of_nat i)) in *.
      assert (0 <= a * s) by (apply Qmult_le_0_compat; lra).
      split; lra.
Qed.

End BarValues.

(** * Further properties of the recording session *)

Section Idle.

Import AudioHelpers UseAudioAnalyzer.

Lemma idle_step (s : state) (e : event) :
  idle s -> quiet e = true \/ compatibility s = Some false ->
  idle (step s e)
  /\ store (step s e) = store s
  /\ nextFrame (step s e) = nextFrame s.
Proof.
  intros (I1 & I2 & I3 & I4 & I5) Hq. unfold idle.
  destruct e as [outcome | id f t | |]; cbn [step].
  - unfold startRecording. cbn [set_error compatibility].
    destruct (compatibility s) as [[|] |] eqn:C;
      destruct outcome as [| name message];
      try (destruct Hq as [Hq | Hq]; discriminate Hq);
      cbn [set_error isRecording frequencyData audioLevel audioStats
           analyserRef store nextFrame];
      repeat split; auto.
  - unfold frame. destruct (existsb _ _);
      [| repeat split; auto].
    unfold analyzeAudio. cbn [analyserRef]. rewrite I5.
    cbn [isRecording frequencyData audioLevel audioStats analyserRef store
         nextFrame].
    repeat split; auto.
  - cbn [stopRecording isRecording frequencyData audioLevel audioStats
         analyserRef store nextFrame].
    repeat split; auto.
  - cbn [contextClosed isRecording frequencyData audioLevel audioStats
         analyserRef store nextFrame].
    repeat split; auto.
Qed.

Lemma idle_run (events : list event) :
  forall s,
    idle s ->
    forallb quiet events = true \/ compatibility s = Some false ->
    idle (run s events)
    /\ store (run s events) = store s
    /\ nextFrame (run s events) = nextFrame s.
Proof.
  induction events as [| e events IH]; intros s Hi Hq.
  - split; [exact Hi | split; reflexivity].
  - cbn [run fold_left]. fold (run (step s e) events).
    assert (Hq1 : quiet e = true \/ compatibility s = Some false).
    { destruct Hq as [Hq | Hq]; [left | now right].
      cbn [forallb] in Hq. now apply andb_prop in Hq. }
    assert (Hq2 : forallb quiet events = true
                  \/ compatibility (step s e) = Some false).
    { destruct Hq as [Hq | Hq]; [left | right].
      - cbn [forallb] in Hq. now apply andb_prop in Hq.
      - now rewrite step_compatibility. }
    destruct (@idle_step s e Hi Hq1) as (I & S & N).
    destruct (IH (step s e) I Hq2) as (I' & S' & N').
    split; [exact I' |]. split; congruence.
Qed.

Lemma idle_after_stop (s : state) : idle (stopRecording s).
Proof. repeat split. Qed.

Lemma idle_when_mounted (compat : Compatibility) : idle (mounted compat).
Proof. repeat split. Qed.

(** After a stop, and from the mount on, nothing is analysed or published
    until an acquisition is granted: frames that still run, rejected
    acquisitions, further stops and the closing of the context leave the
    hook not recording, with no frequency data, level 0 and no statistics;
    no array is allocated and no frame is requested.  Stopping twice is
    the same as stopping once. *)
Theorem nothing_published_until_granted :
  forall (s : state) (compat : Compatibility) (events : list event),
    forallb quiet events = true ->
    (idle (run (stopRecording s) events)
     /\ store (run (stopRecording s) events) = store s
     /\ nextFrame (run (stopRecording s) events) = nextFrame s)
    /\ (idle (run (mounted compat) events)
        /\ store (run (mounted compat) events) = []
        /\ nextFrame (run (mounted compat) events) = 1%nat)
    /\ stopRecording (stopRecording s) = stopRecording s.
Proof.
  intros s compat events Hq. split; [| split].
  - apply (@idle_run events (stopRecording s) (idle_after_stop s)). now left.
  - apply (@idle_run events (mounted compat)
                     (idle_when_mounted compat)). now left.
  - unfold stopRecording.
    cbn [isRecording frequencyData audioLevel audioStats audioContext error
         compatibility audioContextRef analyserRef sourceRef streamRef
         animationFrameRef dataArrayRef timeArrayRef previousDataRef store
         pendingFrames nextFrame].
    destruct (audioContextRef s); reflexivity.
Qed.

Lemma nothing_published_until_granted_witness :
  idle (run (stopRecording
               (run (mounted supported) [Start Granted; Frame 1 [] []]))
            [Frame 2 (repeat 9%Z 1024) (repeat 128%Z 1024);
             Start (Rejected "NotAllowedError" "denied"); Stop]).
Proof.
  refine (proj1 (proj1 (@nothing_published_until_granted
                          (run (mounted supported)
                               [Start Granted; Frame 1 [] []])
                          supported
                          [Frame 2 (repeat 9%Z 1024) (repeat 128%Z 1024);
                           Start (Rejected "NotAllowedError" "denied"); Stop]
                          _))).
  reflexivity.
Defined.

(** In a browser found incompatible at mount, no sequence of events, granted
    acquisitions included, ever makes the hook record, publish data or
    allocate a buffer. *)
Theorem incompatible_browser_never_records :
  forall (compat : Compatibility) (events : list event),
    allSupported compat = false ->
    idle (run (mounted compat) events)
    /\ store (run (mounted compat) events) = []
    /\ compatibility (run (mounted compat) events) = Some false.
Proof.
  intros compat events Hc.
  assert (C : compatibility (mounted compat) = Some false)
    by (cbn [mounted compatibility]; now rewrite Hc).
  destruct (@idle_run events (mounted compat) (idle_when_mounted compat)
                      (or_intror C))
    as (I & S & _).
  split; [exact I |]. split; [exact S | now rewrite run_compatibility].
Qed.

Lemma incompatible_browser_never_records_witness :
  idle (run (mounted
               (checkAudioCompatibility
                  {| has_AudioContext := true;
                     has_webkitAudioContext := false;
                     has_getUserMedia := false;
                     has_CanvasRenderingContext2D := true;
                     has_requestAnimationFrame := true |}))
            [Start Granted; Frame 1 (repeat 9%Z 1024) (repeat 128%Z 1024)]).
Proof.
  refine (proj1 (@incompatible_browser_never_records
                   (checkAudioCompatibility
                      {| has_AudioContext := true;
                         has_webkitAudioContext := false;
                         has_getUserMedia := false;
                         has_CanvasRenderingContext2D := true;
                         has_requestAnimationFrame := true |})
                   [Start Granted;
                    Frame 1 (repeat 9%Z 1024) (repeat 128%Z 1024)] _)).
  reflexivity.
Defined.

End Idle.

(** ** The frames of a session *)

Section Frames.

Import AudioHelpers UseAudioAnalyzer.

Lemma nth_at_length (A : Type) (st : list A) (x d : A) (r : list A) :
  nth (length st) (st ++ x :: r) d = x.
Proof. induction st as [| y st IH]; [reflexivity | exact IH]. Qed.

Lemma nth_after_length (A : Type) (st : list A) (x y d : A) (r : list A) :
  nth (S (length st)) (st ++ x :: y :: r) d = y.
Proof. induction st as [| z st IH]; [reflexivity | exact IH]. Qed.

Lemma write_at_length (A : Type) (st : list A) (x v : A) (r : list A) :
  write_at (length st) v (st ++ x :: r) = st ++ v :: r.
Proof.
  induction st as [| z st IH]; [reflexivity |].
  cbn [length app write_at]. now rewrite IH.
Qed.

Lemma write_after_length (A : Type) (st : list A) (x y v : A) (r : list A) :
  write_at (S (length st)) v (st ++ x :: y :: r) = st ++ x :: v :: r.
Proof.
  induction st as [| z st IH]; [reflexivity |].
  cbn [length app write_at]. now rewrite IH.
Qed.

(** One frame of a running session whose two capture arrays sit at the
    locations [length st] and [S (length st)] of the store. *)
Lemma one_frame (s : state) (id : nat) (f t : list Z)
      (st : list (list Z)) (a b : list Z) (rest : list (list Z)) :
  analyserRef s = true ->
  dataArrayRef s = Some (length st) ->
  timeArrayRef s = Some (S (length st)) ->
  store s = st ++ a :: b :: rest ->
  length f = length a -> length t = length b ->
  In id (pendingFrames s) ->
  let s' := frame id f t s in
  let base := st ++ f :: t :: rest in
  analyserRef s' = true
  /\ dataArrayRef s' = Some (length st)
  /\ timeArrayRef s' = Some (S (length st))
  /\ In (nextFrame s) (pendingFrames s')
  /\ nextFrame s' = S (nextFrame s)
  /\ match previousDataRef s with
     | None =>
         store s' = base
         /\ frequencyData s' = Some f
         /\ previousDataRef s' = Some (length st)
     | Some p =>
         let out := smoothFrequencyData f (Some (nth p base [])) (6 # 10) in
         store s' = base ++ [out]
         /\ frequencyData s' = Some out
         /\ previousDataRef s' = Some (length base)
     end.
Proof.
  intros Ha Hd Ht Hs Lf Lt Hid s' base.
  assert (P : existsb (Nat.eqb id) (pendingFrames s) = true).
  { apply existsb_exists. exists id. split; [exact Hid | apply Nat.eqb_refl]. }
  subst s'. unfold frame. rewrite P. unfold analyzeAudio.
  cbn [analyserRef dataArrayRef timeArrayRef previousDataRef store nextFrame].
  rewrite Ha, Hd, Ht, Hs.
  rewrite nth_at_length, (fill_whole _ _ Lf), write_at_length,
    nth_after_length, (fill_whole _ _ Lt), write_after_length.
  fold base.
  assert (E : nth (length st) base [] = f) by apply nth_at_length.
  destruct (previousDataRef s) as [p |];
    cbn [analyserRef dataArrayRef timeArrayRef previousDataRef store
         frequencyData pendingFrames nextFrame];
    (split; [reflexivity |]); (split; [reflexivity |]);
    (split; [reflexivity |]); (split; [now left |]);
    (split; [reflexivity |]).
  - cbv zeta. rewrite nth_middle, E. repeat split.
  - rewrite E. repeat split.
Qed.

Lemma started_shape (s : state) :
  compatibility s <> Some false ->
  let started := startRecording Granted s in
  analyserRef started = true
  /\ dataArrayRef started = Some (length (store s))
  /\ timeArrayRef started = Some (S (length (store s)))
  /\ store started
     = store s ++ [repeat 0%Z frequencyBinCount; repeat 0%Z frequencyBinCount]
  /\ In (nextFrame s) (pendingFrames started)
  /\ nextFrame started = S (nextFrame s)
  /\ previousDataRef started = previousDataRef s.
Proof.
  intros Hc. unfold startRecording. cbn [set_error compatibility].
  destruct (compatibility s) as [[|] |]; try congruence;
    cbn [analyserRef dataArrayRef timeArrayRef store pendingFrames nextFrame
         previousDataRef set_error];
    repeat split; now left.
Qed.

(** In a session started with no previous buffer, the first two frames
    publish the captured bytes as they are: after the first frame the
    previous buffer is the capture array itself, which the second frame
    overwrites before blending it with itself.  Blending with the factor
    0.6 begins at the third frame. *)
Theorem smoothing_begins_at_third_frame :
  forall (s : state) (f1 t1 f2 t2 f3 t3 : list Z),
    compatibility s <> Some false ->
    previousDataRef s = None ->
    length f1 = frequencyBinCount -> length t1 = frequencyBinCount ->
    length f2 = frequencyBinCount -> length t2 = frequencyBinCount ->
    length f3 = frequencyBinCount -> length t3 = frequencyBinCount ->
    byte_buffer f2 ->
    let n := nextFrame s in
    let s1 := startRecording Granted s in
    let s2 := frame n f1 t1 s1 in
    let s3 := frame (S n) f2 t2 s2 in
    let s4 := frame (S (S n)) f3 t3 s3 in
    frequencyData s2 = Some f1
    /\ previousDataRef s2 = dataArrayRef s2
    /\ frequencyData s3 = Some f2
    /\ frequencyData s4 = Some (smoothFrequencyData f3 (Some f2) (6 # 10)).
Proof.
  intros s f1 t1 f2 t2 f3 t3 Hc Hp L1 M1 L2 M2 L3 M3 B2 n s1 s2 s3 s4.
  set (st := store s).
  set (z := repeat 0%Z frequencyBinCount).
  assert (Lz : length z = frequencyBinCount) by apply repeat_length.
  destruct (started_shape s Hc) as (A1 & D1 & T1 & S1 & P1 & N1 & V1).
  fold s1 st z in A1, D1, T1, S1, P1, N1, V1. rewrite Hp in V1.
  (* first frame *)
  destruct (@one_frame s1 n f1 t1 st z z [] A1 D1 T1 S1
              ltac:(congruence) ltac:(congruence) P1)
    as (A2 & D2 & T2 & P2 & N2 & R2).
  fold s2 in A2, D2, T2, P2, N2, R2. rewrite V1 in R2.
  destruct R2 as (S2 & F2 & V2). rewrite N1 in P2, N2.
  (* second frame *)
  destruct (@one_frame s2 (S n) f2 t2 st f1 t1 [] A2 D2 T2 S2
              ltac:(congruence) ltac:(congruence) P2)
    as (A3 & D3 & T3 & P3 & N3 & R3).
  fold s3 in A3, D3, T3, P3, N3, R3. rewrite V2 in R3. cbv zeta in R3.
  rewrite nth_at_length, (live_smoothing_of_equal_buffers B2) in R3.
  destruct R3 as (S3 & F3 & V3). rewrite N2 in P3, N3.
  rewrite <- app_assoc in S3. cbn [app] in S3.
  (* third frame *)
  destruct (@one_frame s3 (S (S n)) f3 t3 st f2 t2 [f2] A3 D3 T3 S3
              ltac:(congruence) ltac:(congruence) P3)
    as (_ & _ & _ & _ & _ & R4).
  fold s4 in R4. rewrite V3 in R4. cbv zeta in R4.
  destruct R4 as (_ & F4 & _).
  replace (nth (length (st ++ [f2; t2])) (st ++ [f3; t3; f2]) []) with f2
    in F4.
  - split; [exact F2 |]. split; [congruence |]. split; [exact F3 | exact F4].
  - rewrite length_app. cbn [length].
    rewrite app_nth2_plus. reflexivity.
Qed.

Lemma smoothing_begins_at_third_frame_witness :
  frequencyData
    (frame 2 (repeat 200%Z 1024) (repeat 128%Z 1024)
       (frame 1 (repeat 10%Z 1024) (repeat 128%Z 1024)
          (startRecording Granted (mounted supported))))
  = Some (repeat 200%Z 1024).
Proof.
  refine (proj1 (proj2 (proj2
    (@smoothing_begins_at_third_frame (mounted supported)
       (repeat 10%Z 1024) (repeat 128%Z 1024)
       (repeat 200%Z 1024) (repeat 128%Z 1024)
       (repeat 50%Z 1024) (repeat 128%Z 1024) _ _ _ _ _ _ _ _ _)))).
  - discriminate.
  - reflexivity.
  - vm_compute; reflexivity.
  - vm_compute; reflexivity.
  - vm_compute; reflexivity.
  - vm_compute; reflexivity.
  - vm_compute; reflexivity.
  - vm_compute; reflexivity.
  - apply Forall_forall. intros x Hx. apply repeat_spec in Hx. subst x.
    unfold is_byte. lia.
Defined.

End Frames.

(** ** Length of the published frequency data *)

Section PublishedLength.

Import AudioHelpers UseAudioAnalyzer.

Lemma fill_length (array bytes : list Z) :
  length (fill array bytes) = length array.
Proof.
  unfold fill. rewrite length_app, length_firstn, length_skipn. lia.
Qed.

Lemma write_at_keeps_lengths (h : list (list Z)) :
  forall (k l : nat) (v : list Z),
    length v = length (nth k h []) ->
    length (nth l (write_at k v h) []) = length (nth l h []).
Proof.
  induction h as [| x h IH]; intros k l v Hv; [reflexivity |].
  destruct k as [| k]; cbn [write_at].
  - destruct l; [exact Hv | reflexivity].
  - destruct l as [| l]; [reflexivity |]. cbn [nth]. now apply IH.
Qed.

Lemma bin_count_positive : (0 < frequencyBinCount)%nat.
Proof. vm_compute. lia. Qed.

Lemma nth_grown (h extra : list (list Z)) (l : nat) :
  length (nth l h []) = frequencyBinCount ->
  nth l (h ++ extra) [] = nth l h [].
Proof.
  intros H. apply app_nth1.
  destruct (Nat.lt_ge_cases l (length h)) as [L | G]; [exact L |].
  rewrite nth_overflow in H by exact G.
  pose proof bin_count_positive. simpl in H. lia.
Qed.

(** Every array that a ref points to, and the published data, has
    [frequencyBinCount] elements. *)
Local Abbreviation sized s :=
  ((forall l, dataArrayRef s = Some l ->
              length (nth l (store s) []) = frequencyBinCount)
   /\ (forall l, timeArrayRef s = Some l ->
                 length (nth l (store s) []) = frequencyBinCount)
   /\ (forall l, previousDataRef s = Some l ->
                 length (nth l (store s) []) = frequencyBinCount)
   /\ (forall d, frequencyData s = Some d -> length d = frequencyBinCount)).

Lemma sized_step (s : state) (e : event) : sized s -> sized (step s e).
Proof.
  intros (ID & IT & IP & IF).
  destruct e as [outcome | id f t | |]; cbn [step].
  - unfold startRecording. cbn [set_error compatibility].
    destruct (compatibility s) as [[|] |]; destruct outcome as [| name message];
      cbn [set_error dataArrayRef timeArrayRef previousDataRef frequencyData
           store];
      try (repeat split; assumption).
    all: split; [intros l [= <-]; rewrite nth_first_new; apply repeat_length |];
      (split; [intros l [= <-]; rewrite nth_second_new; apply repeat_length |]);
      (split; [| exact IF]);
      intros l Hl; rewrite nth_grown; auto.
  - unfold frame. destruct (existsb _ _); [| repeat split; assumption].
    unfold analyzeAudio.
    cbn [analyserRef dataArrayRef timeArrayRef previousDataRef store].
    destruct (analyserRef s); [| repeat split; assumption].
    destruct (dataArrayRef s) as [d |] eqn:Ed; [| repeat split; auto].
    destruct (timeArrayRef s) as [tl |] eqn:Et; [| repeat split; auto].
    specialize (ID d eq_refl). specialize (IT tl eq_refl).
    set (store1 := write_at d _ (store s)).
    set (store2 := write_at tl _ store1).
    assert (K1 : forall l, length (nth l store1 []) = length (nth l (store s) []))
      by (intros l; apply write_at_keeps_lengths, fill_length).
    assert (K2 : forall l, length (nth l store2 []) = length (nth l (store s) [])).
    { intros l. unfold store2. rewrite write_at_keeps_lengths by apply fill_length.
      apply K1. }
    destruct (previousDataRef s) as [p |] eqn:Ep.
    + cbn [dataArrayRef timeArrayRef previousDataRef frequencyData store].
      assert (Out : length (smoothFrequencyData (nth d store2 [])
                                                (Some (nth p store2 [])) (6 # 10))
                    = frequencyBinCount)
        by (rewrite smooth_length, K2; exact ID).
      split; [intros l [= <-]; rewrite nth_grown; rewrite K2; exact ID |].
      split; [intros l [= <-]; rewrite nth_grown; rewrite K2; exact IT |].
      split; [intros l [= <-]; rewrite nth_middle; exact Out |].
      intros x [= <-]. rewrite nth_middle. exact Out.
    + cbn [dataArrayRef timeArrayRef previousDataRef frequencyData store].
      split; [intros l [= <-]; rewrite K2; exact ID |].
      split; [intros l [= <-]; rewrite K2; exact IT |].
      split; [intros l [= <-]; rewrite K2; exact ID |].
      intros x [= <-]. rewrite K2. exact ID.
  - cbn [stopRecording dataArrayRef timeArrayRef previousDataRef frequencyData].
    repeat split; discriminate.
  - cbn [contextClosed dataArrayRef timeArrayRef previousDataRef frequencyData
         store].
    repeat split; assumption.
Qed.

(** Whatever the events are, and whatever number of bytes a frame
    delivers, the frequency data that the hook publishes has
    [frequencyBinCount] = 1024 elements whenever it is present. *)
Theorem published_data_has_bin_count :
  forall (compat : Compatibility) (history : list event) (data : list Z),
    frequencyData (run (mounted compat) history) = Some data ->
    length data = 1024%nat.
Proof.
  intros compat history.
  assert (I : sized (run (mounted compat) history)).
  { assert (G : forall events s, sized s -> sized (run s events)).
    { induction events as [| e events IH]; intros s Hs; [exact Hs |].
      cbn [run fold_left]. apply IH, sized_step, Hs. }
    apply G. cbn [mounted dataArrayRef timeArrayRef previousDataRef
                  frequencyData].
    repeat split; discriminate. }
  intros data H. destruct I as (_ & _ & _ & IF).
  change 1024%nat with frequencyBinCount. now apply IF.
Qed.

Lemma published_data_has_bin_count_witness :
  length (repeat 7%Z 1024) = 1024%nat.
Proof.
  apply (@published_data_has_bin_count supported
           [Start Granted; Frame 1 (repeat 7%Z 1024) (repeat 128%Z 1024)]).
  reflexivity.
Defined.

End PublishedLength.

(** ** Test audio *)

Section TestAudio.

Import AudioHelpers UseAudioAnalyzer.

(** [generateTestAudio] publishes 256 bytes and the level 0.5 whatever the
    pattern is, while the statistics published with them carry RMS 0 and
    peak 0 (no time-domain data is passed) and a brilliance band of 0 (the
    band lies past 256 bins); the recording state and the store are left
    as they are. *)
Theorem test_audio_publication :
  forall (type : string) (frequency : Q) (random : nat -> R) (s : state),
    (forall k, (0 <= random k < 1)%R) ->
    let s' := generateTestAudio type frequency random s in
    exists data stats,
      frequencyData s' = Some data
      /\ length data = 256%nat
      /\ byte_buffer data
      /\ audioLevel s' = (5 / 10)%R
      /\ audioStats s' = Some stats
      /\ level_rms (stats_level stats) = 0%R
      /\ level_peak (stats_level stats) = 0
      /\ In ("brilliance"%string, Js.Fin 0) (stats_bands stats)
      /\ isRecording s' = isRecording s
      /\ store s' = store s.
Proof.
  intros type frequency random s Hr s'.
  destruct (@test_data_bounds 256 type frequency random Hr)
    as (Hlen & Hb & _).
  exists (generateTestData 256 type frequency random),
    (calculateAudioStats (generateTestData 256 type frequency random) None).
  split; [reflexivity |]. split; [exact Hlen |]. split; [exact Hb |].
  split; [reflexivity |]. split; [reflexivity |].
  split; [reflexivity |]. split; [reflexivity |].
  split; [| split; reflexivity].
  cbn [calculateAudioStats stats_bands].
  apply short_buffer_has_no_brilliance. rewrite Hlen. lia.
Qed.

Lemma test_audio_publication_witness :
  exists data stats,
    frequencyData (generateTestAudio "pulse" 440 (fun _ => 0%R) (mounted supported))
    = Some data
    /\ length data = 256%nat
    /\ byte_buffer data
    /\ audioLevel (generateTestAudio "pulse" 440 (fun _ => 0%R) (mounted supported))
       = (5 / 10)%R
    /\ audioStats (generateTestAudio "pulse" 440 (fun _ => 0%R) (mounted supported))
       = Some stats
    /\ level_rms (stats_level stats) = 0%R
    /\ level_peak (stats_level stats) = 0
    /\ In ("brilliance"%string, Js.Fin 0) (stats_bands stats)
    /\ isRecording (generateTestAudio "pulse" 440 (fun _ => 0%R) (mounted supported))
       = isRecording (mounted supported)
    /\ store (generateTestAudio "pulse" 440 (fun _ => 0%R) (mounted supported))
       = store (mounted supported).
Proof.
  apply (@test_audio_publication "pulse" 440 (fun _ => 0%R) (mounted supported)).
  intros k. split; lra.
Defined.

End TestAudio.

(** * Properties of the controls *)

Section Controls.

Import AudioHelpers AudioControls.

Lemma round_mean_byte (sum : Z) (count : Z) (divisor : Q) :
  (0 <= sum <= 255 * count)%Z -> inject_Z count <= divisor -> 0 < divisor ->
  is_byte (Js.round (inject_Z sum / divisor)).
Proof.
  intros [L U] Hc Hd. rewrite Zle_Qle in L, U. rewrite inject_Z_mult in U.
  change (inject_Z 0) with 0 in L. change (inject_Z 255) with 255 in U.
  assert (A : inject_Z 0 <= inject_Z sum / divisor)
    by (change (inject_Z 0) with 0; apply Qle_shift_div_l; lra).
  assert (B : inject_Z sum / divisor <= inject_Z 255).
  { change (inject_Z 255) with 255. apply Qle_shift_div_r; [exact Hd |]. nra. }
  apply round_le in A, B. rewrite round_inject_Z in A, B.
  unfold is_byte. lia.
Qed.

(** For a byte buffer of more than 100 samples the three levels are
    integers between 0 and 255. *)
Theorem frequency_levels_are_bytes :
  forall frequencyData : list Z,
    byte_buffer frequencyData -> (100 < length frequencyData)%nat ->
    exists levels h,
      calculateFrequencyStats (Some frequencyData) = Some levels
      /\ is_byte (low levels) /\ is_byte (mid levels)
      /\ high levels = Js.Fin (inject_Z h) /\ is_byte h.
Proof.
  intros d Hb Hlen. unfold calculateFrequencyStats.
  assert (N : Qeq_bool (inject_Z (Z.of_nat (length d) - 100)) 0 = false).
  { apply Qeq_bool_false. change 0 with (inject_Z 0).
    rewrite inject_Z_injective. lia. }
  cbn [Js.div]. rewrite N. cbn [Js.round_num].
  eexists. eexists. split; [reflexivity |]. cbn [low mid high].
  assert (B0 := byte_segment 0 20 Hb). cbn [skipn] in B0.
  assert (B1 := byte_segment 20 80 Hb).
  assert (B2 := byte_segment 100 (length d) Hb).
  rewrite firstn_all2 in B2 by (rewrite length_skipn; lia).
  apply sum_Z_byte_bounds in B0, B1, B2.
  rewrite length_firstn in B0, B1. rewrite length_skipn in B1, B2.
  split; [| split; [| split; [reflexivity |]]].
  - apply (round_mean_byte (count := 20)); [lia | closed_Qle | reflexivity].
  - apply (round_mean_byte (count := 80)); [lia | closed_Qle | reflexivity].
  - apply (round_mean_byte (count := Z.of_nat (length d) - 100)).
    + lia.
    + lra.
    + change 0 with (inject_Z 0). rewrite <- Zlt_Qlt. lia.
Qed.

Lemma frequency_levels_are_bytes_witness :
  exists levels h,
    calculateFrequencyStats (Some (repeat 200%Z 128)) = Some levels
    /\ is_byte (low levels) /\ is_byte (mid levels)
    /\ high levels = Js.Fin (inject_Z h) /\ is_byte h.
Proof.
  apply (@frequency_levels_are_bytes (repeat 200%Z 128)).
  - apply Forall_forall. intros x Hx. apply repeat_spec in Hx. subst x.
    unfold is_byte. lia.
  - simpl; lia.
Defined.

(** For a buffer of exactly 100 samples the high level is [NaN]: the
    slice from 100 is empty and its sum 0 is divided by [length - 100]. *)
Theorem high_level_of_100_samples :
  forall frequencyData : list Z,
    length frequencyData = 100%nat ->
    exists levels,
      calculateFrequencyStats (Some frequencyData) = Some levels
      /\ high levels = Js.NaN.
Proof.
  intros d Hlen. unfold calculateFrequencyStats.
  eexists. split; [reflexivity |]. cbn [high].
  rewrite skipn_all2 by lia. rewrite Hlen. reflexivity.
Qed.

Lemma high_level_of_100_samples_witness :
  exists levels,
    calculateFrequencyStats (Some (repeat 255%Z 100)) = Some levels
    /\ high levels = Js.NaN.
Proof.
  apply (@high_level_of_100_samples (repeat 255%Z 100)). reflexivity.
Defined.

End Controls.

(** * Devices and compatibility *)

Section Environment.

Import AudioHelpers UseAudioAnalyzer.

(** When the enumeration succeeds: the listed devices are exactly the
    audio inputs of the enumeration, [count] is their number, [available]
    says whether there is one, and the default device, when there is one,
    is a listed device with id ["default"]; when there is none, no listed
    device has that id.  When the enumeration fails, nothing is available
    and the message is kept. *)
Theorem device_info_consistent :
  forall (all : list Device) (message : string),
    let info := getAudioDeviceInfo (inl all) in
    (forall d, In d (devices info) <-> In d all /\ kind d = "audioinput"%string)
    /\ count info = length (devices info)
    /\ (available info = true <-> devices info <> [])
    /\ (forall d, defaultDevice info = Some d ->
                  In d (devices info) /\ deviceId d = "default"%string)
    /\ (defaultDevice info = None ->
        forall d, In d (devices info) -> deviceId d <> "default"%string)
    /\ getAudioDeviceInfo (inr message)
       = {| available := false; devices := []; defaultDevice := None;
            count := 0; info_error := Some message |}.
Proof.
  intros all message info. subst info.
  cbn [getAudioDeviceInfo devices count available defaultDevice].
  split; [| split; [reflexivity | split; [| split; [| split; [| reflexivity]]]]].
  - intros d. rewrite filter_In, String.eqb_eq. reflexivity.
  - destruct (filter _ all) as [| x l]; cbn [length Nat.ltb Nat.leb].
    + split; [discriminate | intros C; now contradiction C].
    + split; [discriminate | reflexivity].
  - intros d H. apply find_some in H. destruct H as [Hin Hid].
    split; [exact Hin | now apply String.eqb_eq].
  - intros H d Hin C. pose proof (find_none _ _ H d Hin) as N.
    apply String.eqb_neq in N. contradiction.
Qed.

(** The mount effect sets an error exactly when something is unsupported,
    but the message never names [requestAnimationFrame]: when that is the
    only missing feature, the list after ["Missing: "] is empty. *)
Theorem mount_error_message :
  forall window : Browser,
    let compat := checkAudioCompatibility window in
    (mountError compat = None <-> allSupported compat = true)
    /\ (webAudioAPI compat = true -> getUserMedia compat = true ->
        canvas compat = true -> requestAnimationFrame compat = false ->
        mountError compat = Some "Browser incompatible. Missing: "%string).
Proof.
  intros [a w g c r] compat. subst compat.
  unfold checkAudioCompatibility, mountError.
  cbn [has_AudioContext has_webkitAudioContext has_getUserMedia
       has_CanvasRenderingContext2D has_requestAnimationFrame
       webAudioAPI getUserMedia canvas requestAnimationFrame allSupported].
  split.
  - destruct a, w, g, c, r; cbn; split; intros H; try reflexivity;
      discriminate H.
  - intros H1 H2 H3 H4. rewrite H1, H2, H3, H4. reflexivity.
Qed.

End Environment.

(** * The dead zone of the live smoothing factor *)

Section DeadZone.

Import AudioHelpers.

Lemma round_blend_live (p c : Z) :
  Js.round (blend p c (6 # 10)) = ((120 * p + 80 * c + 100) / 200)%Z.
Proof.
  unfold Js.round.
  assert (E : blend p c (6 # 10) + (1 # 2)
              == (120 * p + 80 * c + 100)%Z # 200).
  { transitivity (inject_Z (120 * p + 80 * c + 100) / inject_Z (Z.pos 200));
      [| symmetry; apply Qmake_Qdiv].
    rewrite !inject_Z_plus, !inject_Z_mult. unfold blend.
    change (inject_Z 120) with 120. change (inject_Z 80) with 80.
    change (inject_Z 100) with 100. change (inject_Z (Z.pos 200)) with 200.
    field. }
  rewrite (Qfloor_comp _ _ E). reflexivity.
Qed.

Lemma smooth_sample_live_fixed (p c : Z) :
  is_byte p -> is_byte c ->
  (smooth_sample (Some p) c (6 # 10) = p <-> (-1 <= c - p <= 1)%Z).
Proof.
  intros Hp Hc.
  rewrite smooth_sample_bytes by (assumption || closed_Qle).
  rewrite round_blend_live. unfold is_byte in *.
  split; intros H; Z.div_mod_to_equations; lia.
Qed.

(** With the factor 0.6 that the hook uses, smoothing gives back the
    previous buffer exactly when no sample of the current buffer differs
    from it by more than 1 (byte buffers of equal length): a difference
    of 1 is never followed. *)
Theorem live_smoothing_dead_zone :
  forall current previous : list Z,
    byte_buffer current -> byte_buffer previous ->
    length current = length previous ->
    (smoothFrequencyData current (Some previous) (6 # 10) = previous
     <-> forall i, (i < length current)%nat ->
                   (-1 <= nth i current 0 - nth i previous 0 <= 1)%Z).
Proof.
  intros current previous Hc Hp Hlen. split.
  - intros E i Hi.
    apply smooth_sample_live_fixed; [apply byte_nth, Hp | apply byte_nth, Hc |].
    assert (E' : nth i (smoothFrequencyData current (Some previous) (6 # 10))
                     0%Z
                 = nth i previous 0%Z) by now rewrite E.
    rewrite smooth_nth in E' by exact Hi.
    now rewrite (nth_error_nth' previous 0%Z) in E' by lia.
  - intros H. apply (nth_ext _ _ 0%Z 0%Z).
    + now rewrite smooth_length.
    + intros i Hi. rewrite smooth_length in Hi.
      rewrite smooth_nth by exact Hi.
      rewrite (nth_error_nth' previous 0%Z) by lia.
      apply smooth_sample_live_fixed;
        [apply byte_nth, Hp | apply byte_nth, Hc | now apply H].
Qed.

Lemma live_smoothing_dead_zone_witness :
  smoothFrequencyData [11; 200; 49]%Z (Some [10; 200; 50]%Z) (6 # 10)
  = [10; 200; 50]%Z
  <-> forall i, (i < length [11; 200; 49]%Z)%nat ->
                (-1 <= nth i [11; 200; 49]%Z 0 - nth i [10; 200; 50]%Z 0 <= 1)%Z.
Proof.
  apply (@live_smoothing_dead_zone [11; 200; 49]%Z [10; 200; 50]%Z).
  - closed_bytes.
  - closed_bytes.
  - reflexivity.
Defined.

End DeadZone.

(** * The live smoothing factor in binary64 *)

Section LiveFactor.

Import AudioHelpers.

Local Open Scope Q_scope.

(* Statements about [Binary64.rnd] take their arguments explicitly. *)
Unset Implicit Arguments.

Lemma round_unique (x : Q) (r : Z) :
  inject_Z r - (1 # 2) <= x -> x < inject_Z r + (1 # 2) -> Js.round x = r.
Proof.
  intros L U. unfold Js.round.
  assert (A : (r <= Qfloor (x + (1 # 2)))%Z)
    by (rewrite <- (Qfloor_Z r); apply Qfloor_resp_le; lra).
  assert (B : (Qfloor (x + (1 # 2)) < r + 1)%Z).
  { rewrite Zlt_Qlt.
    apply Qle_lt_trans with (x + (1 # 2)); [apply Qfloor_le |].
    rewrite inject_Z_plus. change (inject_Z 1) with 1. lra. }
  lia.
Qed.

(** The double written 0.6 and its distance from 6/10. *)
Lemma live_factor_close :
  Qabs (Binary64.lit 0.6 - (6 # 10)) <= 1 # 18014398509481984.
Proof.
  unfold Binary64.lit. apply (rnd_error (6 # 10) (-1)); [lia | reflexivity].
Qed.

(** With the factor 0.6 the exact blend is a multiple of 1/5, which no
    rounding of the factor, the products or the sum can carry across a
    half: the sample computed in binary64 is the sample of exact
    arithmetic. *)
Lemma live_sample_is_exact (p c : Z) :
  is_byte p -> is_byte c ->
  smooth_sample64 (Some p) c (Binary64.lit 0.6)
  = smooth_sample (Some p) c (6 # 10).
Proof.
  intros Hp Hc.
  pose proof live_factor_close as F.
  apply Qabs_Qle_condition in F. destruct F as [F0 F1].
  set (a := Binary64.lit 0.6) in *.
  assert (A0 : 0 <= a) by lra.
  assert (A1 : a <= 1) by lra.
  rewrite smooth_sample64_bytes by assumption.
  rewrite smooth_sample_bytes by (assumption || closed_Qle).
  destruct (blend64_bounds p c a Hp Hc A0 A1) as [L U].
  set (r := Js.round (blend p c (6 # 10))).
  assert (R : r = ((6 * p + 4 * c + 5) / 10)%Z).
  { unfold r, Js.round.
    assert (E : blend p c (6 # 10) + (1 # 2)
                == (6 * p + 4 * c + 5)%Z # 10).
    { transitivity (inject_Z (6 * p + 4 * c + 5) / inject_Z (Z.pos 10));
        [| symmetry; apply Qmake_Qdiv].
      rewrite !inject_Z_plus, !inject_Z_mult. unfold blend.
      change (inject_Z 6) with 6. change (inject_Z 4) with 4.
      change (inject_Z 5) with 5. change (inject_Z (Z.pos 10)) with 10.
      field. }
    rewrite (Qfloor_comp _ _ E). reflexivity. }
  assert (Y : inject_Z r - (4 # 10) <= blend p c (6 # 10)
              /\ blend p c (6 # 10) <= inject_Z r + (4 # 10)).
  { assert (Z1 : (10 * r + 1 <= 6 * p + 4 * c + 5 <= 10 * r + 9)%Z)
      by (rewrite R; Z.div_mod_to_equations; lia).
    destruct Z1 as [Z1 Z2]. rewrite Zle_Qle in Z1, Z2.
    rewrite !inject_Z_plus, !inject_Z_mult in Z1, Z2.
    change (inject_Z 10) with 10 in *. change (inject_Z 6) with 6 in *.
    change (inject_Z 4) with 4 in *. change (inject_Z 5) with 5 in *.
    change (inject_Z 1) with 1 in *. change (inject_Z 9) with 9 in *.
    unfold blend. split; lra. }
  destruct Y as [Y0 Y1].
  destruct Hp as [P0 P1]. destruct Hc as [C0 C1].
  rewrite Zle_Qle in P0, P1, C0, C1.
  change (inject_Z 0) with 0 in *. change (inject_Z 255) with 255 in *.
  unfold blend in *.
  set (P := inject_Z p) in *. set (C := inject_Z c) in *.
  assert (M1 : 0 <= P * ((1 # 18014398509481984) - (a - (6 # 10))))
    by (apply Qmult_le_0_compat; lra).
  assert (M2 : 0 <= P * ((1 # 18014398509481984) + (a - (6 # 10))))
    by (apply Qmult_le_0_compat; lra).
  assert (M3 : 0 <= C * ((1 # 18014398509481984) - (a - (6 # 10))))
    by (apply Qmult_le_0_compat; lra).
  assert (M4 : 0 <= C * ((1 # 18014398509481984) + (a - (6 # 10))))
    by (apply Qmult_le_0_compat; lra).
  apply round_unique; lra.
Qed.

(** For byte buffers, whatever their lengths, smoothing with the factor
    0.6 that [analyzeAudio] passes gives in binary64 exactly the buffer
    that exact arithmetic with 6/10 gives. *)
Theorem live_smoothing_is_exact :
  forall current previous : list Z,
    byte_buffer current -> byte_buffer previous ->
    smoothFrequencyData64 current (Some previous) (Binary64.lit 0.6)
    = smoothFrequencyData current (Some previous) (6 # 10).
Proof.
  intros current previous Hc Hp.
  unfold smoothFrequencyData64, smoothFrequencyData, Js.tabulate.
  apply map_ext_in. intros i Hi.
  destruct (nth_error previous i) as [p |] eqn:E; [| reflexivity].
  apply live_sample_is_exact; [| apply byte_nth, Hc].
  apply nth_error_In in E. unfold byte_buffer in Hp.
  rewrite Forall_forall in Hp. now apply Hp.
Qed.

Lemma live_smoothing_is_exact_witness :
  smoothFrequencyData64 [11; 200; 49]%Z (Some [10; 100; 50]%Z)
                        (Binary64.lit 0.6)
  = smoothFrequencyData [11; 200; 49]%Z (Some [10; 100; 50]%Z) (6 # 10).
Proof.
  apply (live_smoothing_is_exact [11; 200; 49]%Z [10; 100; 50]%Z);
    closed_bytes.
Defined.

End LiveFactor.

Set Implicit Arguments.
